(** * Minesweeper: a shallow embedding of [Minesweeper.cpp]

    The cell and game classes of [src/Minesweeper.cpp] are embedded as
    records; every method becomes a function in a small state monad over the
    game record.  [internal_check] raises [logic_error]: the monad keeps the
    state the game object has at the moment of the throw, because a caller
    that catches the exception goes on with that object. *)

From Stdlib Require Import Strings.String Strings.Ascii DecimalString.
From Stdlib Require Import NArith ZArith List Bool Lia.
From Stdlib Require Import Floats.SpecFloat.
From stdpp Require Import base list.

Local Open Scope N_scope.

(** ** [size_t] arithmetic

    [size_t] is an unsigned 64-bit integer, embedded as [N] with the
    wrap-around written out. *)

Definition size_t_modulus : N := 2 ^ 64.

Definition wadd (a b : N) : N := (a + b) mod size_t_modulus.
Definition wsub (a b : N) : N := (a + size_t_modulus - b mod size_t_modulus) mod size_t_modulus.
Definition wmul (a b : N) : N := (a * b) mod size_t_modulus.

(** ** [Minesweeper.h]: the two enumerations *)

Inductive TMinesweeperCellLabel : Set :=
| MCL_None
| MCL_Bomb
| MCL_Question.

Inductive TMinesweeperGameState : Set :=
| MGS_Active
| MGS_Failure
| MGS_Success.

Definition label_eqb (a b : TMinesweeperCellLabel) : bool :=
  match a, b with
  | MCL_None, MCL_None | MCL_Bomb, MCL_Bomb | MCL_Question, MCL_Question => true
  | _, _ => false
  end.

Definition state_eqb (a b : TMinesweeperGameState) : bool :=
  match a, b with
  | MGS_Active, MGS_Active | MGS_Failure, MGS_Failure | MGS_Success, MGS_Success => true
  | _, _ => false
  end.

(** ** [CMinesweeperCell]

    The [callback] member is the owning game and [index] is the position of
    the cell in the game's [cells] vector: a [CMinesweeperCell*] into the grid
    is represented by that position, so both members are implicit. *)

Record CMinesweeperCell : Set := mkCell {
  isBomb : bool;
  isOpened : bool;
  label : TMinesweeperCellLabel;
  numberOfNeighborBombs : N
}.

(** The constructor's initialiser list. *)
Definition newCell : CMinesweeperCell :=
  {| isBomb := false; isOpened := false; label := MCL_None; numberOfNeighborBombs := 0 |}.

Definition cell_with_isOpened (b : bool) (c : CMinesweeperCell) : CMinesweeperCell :=
  {| isBomb := isBomb c; isOpened := b; label := label c;
     numberOfNeighborBombs := numberOfNeighborBombs c |}.

Definition cell_with_label (l : TMinesweeperCellLabel) (c : CMinesweeperCell) : CMinesweeperCell :=
  {| isBomb := isBomb c; isOpened := isOpened c; label := l;
     numberOfNeighborBombs := numberOfNeighborBombs c |}.

(** ** [std::unordered_set<size_t>]

    A duplicate-free list.  The iteration order of an unordered set is left to
    the implementation: [begin()] is the element at a position chosen by a
    parameter of the development ([begin_pos], below). *)

Definition uset_mem (x : N) (s : list N) : bool := existsb (N.eqb x) s.

Definition uset_insert (x : N) (s : list N) : list N :=
  if uset_mem x s then s else s ++ [x].

Definition uset_erase (x : N) (s : list N) : list N :=
  List.filter (fun y => negb (N.eqb x y)) s.

(** ** [CMinesweeperGame] *)

Record CMinesweeperGame : Set := mkGame {
  state : TMinesweeperGameState;
  rows : N;
  columns : N;
  bombs : N;
  cells : list CMinesweeperCell;
  numberOfOpenedCells : N;
  modifiedCellIndices : list N
}.

(** The private constructor. *)
Definition newGame : CMinesweeperGame :=
  {| state := MGS_Failure; rows := 0; columns := 0; bombs := 0; cells := [];
     numberOfOpenedCells := 0; modifiedCellIndices := [] |}.

Definition cells_size (g : CMinesweeperGame) : N := N.of_nat (length (cells g)).

Definition with_state (s : TMinesweeperGameState) (g : CMinesweeperGame) : CMinesweeperGame :=
  {| state := s; rows := rows g; columns := columns g; bombs := bombs g;
     cells := cells g; numberOfOpenedCells := numberOfOpenedCells g;
     modifiedCellIndices := modifiedCellIndices g |}.

Definition with_parameters (r c b : N) (g : CMinesweeperGame) : CMinesweeperGame :=
  {| state := state g; rows := r; columns := c; bombs := b;
     cells := cells g; numberOfOpenedCells := numberOfOpenedCells g;
     modifiedCellIndices := modifiedCellIndices g |}.

Definition with_cells (cs : list CMinesweeperCell) (g : CMinesweeperGame) : CMinesweeperGame :=
  {| state := state g; rows := rows g; columns := columns g; bombs := bombs g;
     cells := cs; numberOfOpenedCells := numberOfOpenedCells g;
     modifiedCellIndices := modifiedCellIndices g |}.

Definition with_numberOfOpenedCells (n : N) (g : CMinesweeperGame) : CMinesweeperGame :=
  {| state := state g; rows := rows g; columns := columns g; bombs := bombs g;
     cells := cells g; numberOfOpenedCells := n;
     modifiedCellIndices := modifiedCellIndices g |}.

Definition with_modifiedCellIndices (s : list N) (g : CMinesweeperGame) : CMinesweeperGame :=
  {| state := state g; rows := rows g; columns := columns g; bombs := bombs g;
     cells := cells g; numberOfOpenedCells := numberOfOpenedCells g;
     modifiedCellIndices := s |}.

(** ** The monad of the methods

    - [Ret a g]: the method returns [a] and leaves the game in state [g];
    - [Throw g]: an [internal_check] failed, the game is left as [g];
    - [Undefined]: a vector was indexed out of range (undefined in C++);
    - [Unfinished]: a loop did not come to its end within the fuel (or the
      random draws) it was given. *)

Inductive result (A : Type) : Type :=
| Ret (a : A) (g : CMinesweeperGame)
| Throw (g : CMinesweeperGame)
| Undefined
| Unfinished.

Arguments Ret {A} a g.
Arguments Throw {A} g.
Arguments Undefined {A}.
Arguments Unfinished {A}.

Definition M (A : Type) : Type := CMinesweeperGame -> result A.

Definition ret {A : Type} (a : A) : M A := fun g => Ret a g.

Definition bind {A B : Type} (m : M A) (k : A -> M B) : M B :=
  fun g =>
    match m g with
    | Ret a g' => k a g'
    | Throw g' => Throw g'
    | Undefined => Undefined
    | Unfinished => Unfinished
    end.

Declare Scope game_scope.
Delimit Scope game_scope with game.
Notation "'let*' x ':=' m 'in' k" := (bind m (fun x => k))
  (at level 10, x name, m at level 100, k at level 200) : game_scope.
Notation "'do' m 'then' k" := (bind m (fun _ => k))
  (at level 10, m at level 100, k at level 200) : game_scope.
Local Open Scope game_scope.

Definition get : M CMinesweeperGame := fun g => Ret g g.
Definition modify (f : CMinesweeperGame -> CMinesweeperGame) : M unit := fun g => Ret tt (f g).

(** [internal_check( condition )] *)
Definition internal_check (condition : bool) : M unit :=
  fun g => if condition then Ret tt g else Throw g.

(** [*cells[index]] read and written in place. *)
Definition cellAt (index : N) : M CMinesweeperCell :=
  fun g =>
    match cells g !! N.to_nat index with
    | Some c => Ret c g
    | None => Undefined
    end.

Definition setCell (index : N) (c : CMinesweeperCell) : M unit :=
  fun g =>
    if index <? cells_size g
    then Ret tt (with_cells (<[N.to_nat index := c]> (cells g)) g)
    else Undefined.

(** The final state of a call that came back to its caller, by return or by
    exception. *)
Definition final_state {A : Type} (r : result A) : option CMinesweeperGame :=
  match r with
  | Ret _ g | Throw g => Some g
  | Undefined | Unfinished => None
  end.

(** [for( auto i = l.begin(); i != l.end(); ++i ) body( *i )] *)
Fixpoint forEach {A : Type} (l : list A) (body : A -> M unit) : M unit :=
  match l with
  | [] => ret tt
  | x :: rest => do body x then forEach rest body
  end.

(** ** The methods of [CMinesweeperCell]

    The [const] queries of the public interface touch the cell alone. *)

Inductive checked (A : Type) : Type :=
| Returned (a : A)
| LogicError.

Arguments Returned {A} a.
Arguments LogicError {A}.

Definition IsOpened (c : CMinesweeperCell) : bool := isOpened c.
Definition GetIsBomb (c : CMinesweeperCell) : bool := isBomb c.
Definition GetNumberOfNeighborBombs (c : CMinesweeperCell) : N := numberOfNeighborBombs c.
Definition Label (c : CMinesweeperCell) : TMinesweeperCellLabel := label c.

Definition IsBomb (c : CMinesweeperCell) : checked bool :=
  if IsOpened c then Returned (isBomb c) else LogicError.

Definition NumberOfNeighborBombs (c : CMinesweeperCell) : checked N :=
  match IsBomb c with
  | LogicError => LogicError
  | Returned b => if negb b then Returned (numberOfNeighborBombs c) else LogicError
  end.

(** [CMinesweeperGame::OnModified]: the two checks on the pointer
    ([cell != nullptr], [cells[index].get() == cell]) hold of every cell
    addressed by its position. *)
Definition OnModified (index : N) : M unit :=
  let* g := get in
  do internal_check (state_eqb (state g) MGS_Active) then
  do internal_check (index <? cells_size g) then
  modify (fun g => with_modifiedCellIndices (uset_insert index (modifiedCellIndices g)) g).

(** [CMinesweeperCell::onModified] goes to the owning game. *)
Definition onModified (index : N) : M unit := OnModified index.

Definition Close (index : N) : M unit :=
  let* c := cellAt index in
  do setCell index (cell_with_label MCL_None (cell_with_isOpened false c)) then
  onModified index.

Definition SetIsBomb (index : N) (_isBomb : bool) : M unit :=
  let* c := cellAt index in
  do internal_check (negb (IsOpened c)) then
  setCell index {| isBomb := _isBomb; isOpened := isOpened c; label := label c;
                   numberOfNeighborBombs := 0 |}.

Definition SetNumberOfNeighborBombs (index : N) (_numberOfNeighborBombs : N) : M unit :=
  let* c := cellAt index in
  do internal_check (negb (IsOpened c)) then
  setCell index {| isBomb := false; isOpened := isOpened c; label := label c;
                   numberOfNeighborBombs := _numberOfNeighborBombs |}.

Definition InternalOpen (index : N) : M unit :=
  let* c := cellAt index in
  if negb (isOpened c) then
    do setCell index (cell_with_isOpened true c) then
    onModified index
  else ret tt.

Definition SetLabel (index : N) (newLabel : TMinesweeperCellLabel) : M unit :=
  let* c := cellAt index in
  do internal_check (negb (IsOpened c)) then
  if negb (label_eqb (label c) newLabel) then
    do setCell index (cell_with_label newLabel c) then
    onModified index
  else ret tt.

(** ** The private methods of [CMinesweeperGame] *)

Definition reset : M unit :=
  modify (fun g =>
    {| state := MGS_Active; rows := rows g; columns := columns g; bombs := bombs g;
       cells := cells g; numberOfOpenedCells := 0; modifiedCellIndices := [] |}).

(** [cells[i].get()]: the pointer is the position, when the position exists. *)
Definition cellPtr (i : N) : M N :=
  fun g => if i <? cells_size g then Ret i g else Undefined.

Definition push_back_if (b : bool) (i : N) (neighbors : list N) : M (list N) :=
  if b then (let* p := cellPtr i in ret (neighbors ++ [p])) else ret neighbors.

Definition findNeighbors (index : N) : M (list N) :=
  let* g := get in
  do internal_check (index <? cells_size g) then
  if columns g =? 0 then (fun _ => Undefined) else
  let row := index / columns g in
  let column := index mod columns g in
  let top := 0 <? row in
  let bottom := row <? wsub (rows g) 1 in
  let left := 0 <? column in
  let right := column <? wsub (columns g) 1 in
  let* n := push_back_if (top && left) (wsub (wsub index (columns g)) 1) [] in
  let* n := push_back_if top (wsub index (columns g)) n in
  let* n := push_back_if (top && right) (wadd (wsub index (columns g)) 1) n in
  let* n := push_back_if left (wsub index 1) n in
  let* n := push_back_if right (wadd index 1) n in
  let* n := push_back_if (bottom && left) (wsub (wadd index (columns g)) 1) n in
  let* n := push_back_if bottom (wadd index (columns g)) n in
  push_back_if (bottom && right) (wadd (wadd index (columns g)) 1) n.

Definition plantBomb (index : N) : M unit :=
  let* c := cellAt index in
  do internal_check (negb (GetIsBomb c)) then
  do SetIsBomb index true then
  let* neighbors := findNeighbors index in
  forEach neighbors (fun cell =>
    let* n := cellAt cell in
    SetNumberOfNeighborBombs cell (wadd (GetNumberOfNeighborBombs n) 1)).

(** [plantBombs]: the indices that [randomGenerator( randomDevice )] returns
    are the list [draws], one element per call.  The distribution is over
    [0 .. cells.size() - 1], so every draw is a position of the grid; the loop
    is [Unfinished] when the draws run out before [bombs] plantings. *)
Fixpoint plantBombs_from (draws : list N) (numberOfPlantedBombs : N) : M unit :=
  fun g =>
    if numberOfPlantedBombs <? bombs g then
      match draws with
      | [] => Unfinished
      | index :: draws' =>
          (let* c := cellAt index in
           if negb (GetIsBomb c) then
             do plantBomb index then
             plantBombs_from draws' (wadd numberOfPlantedBombs 1)
           else plantBombs_from draws' numberOfPlantedBombs) g
      end
    else Ret tt g.

Definition plantBombs (draws : list N) : M unit := plantBombs_from draws 0.

(** The positions [0 .. cells.size() - 1], in the order of the vector. *)
Definition indices (g : CMinesweeperGame) : list N :=
  map N.of_nat (seq 0 (length (cells g))).

Definition openBombs : M unit :=
  let* g := get in
  do forEach (indices g) (fun i =>
       let* c := cellAt i in
       if GetIsBomb c then InternalOpen i else ret tt) then
  modify (with_state MGS_Failure).

Definition open (index : N) : M bool :=
  let* c := cellAt index in
  if negb (IsOpened c) && label_eqb (Label c) MCL_None then
    do InternalOpen index then
    let* c := cellAt index in
    if GetIsBomb c then
      do openBombs then ret false
    else
      do modify (fun g => with_numberOfOpenedCells (wadd (numberOfOpenedCells g) 1) g) then
      ret true
  else ret true.

Fixpoint countLabeledAsBombs (neighbors : list N)
    (numberOfNeighborCellsLabeledAsBombs : N) : M N :=
  match neighbors with
  | [] => ret numberOfNeighborCellsLabeledAsBombs
  | cell :: rest =>
      let* c := cellAt cell in
      if negb (IsOpened c) && label_eqb (Label c) MCL_Bomb
      then countLabeledAsBombs rest (wadd numberOfNeighborCellsLabeledAsBombs 1)
      else countLabeledAsBombs rest numberOfNeighborCellsLabeledAsBombs
  end.

Definition CalculateNumberOfNeighborCellsLabeledAsBombs (index : N) : M N :=
  let* neighbors := findNeighbors index in
  countLabeledAsBombs neighbors 0.

Definition hasSuccess : M bool :=
  let* g := get in
  do internal_check (state_eqb (state g) MGS_Active) then
  let numberOfSafeCells := wsub (cells_size g) (bombs g) in
  do internal_check (numberOfOpenedCells g <=? numberOfSafeCells) then
  do (if numberOfOpenedCells g =? numberOfSafeCells
      then modify (with_state MGS_Success) else ret tt) then
  let* g := get in
  ret (state_eqb (state g) MGS_Success).

(** ** [openNeighbors] and the public methods

    [begin_pos s] is the position in [s] of the element that
    [unprocessed.begin()] designates: any function will do, the standard
    leaves the order of an unordered set open. *)

Section Game.

Variable begin_pos : list N -> nat.

Definition uset_begin (s : list N) : N := nth (begin_pos s) s (hd 0 s).

(** The [for] loop over the neighbours of [current]; [None] is the [return]
    out of [openNeighbors], [Some unprocessed] the set at the end of the
    loop. *)
Fixpoint openNeighbors_for (neighbors : list N) (unprocessed : list N) : M (option (list N)) :=
  match neighbors with
  | [] => ret (Some unprocessed)
  | neighborIndex :: rest =>
      let* c := cellAt neighborIndex in
      if negb (IsOpened c) then
        let* opened := open neighborIndex in
        if negb opened then ret None
        else
          let* c := cellAt neighborIndex in
          if GetNumberOfNeighborBombs c =? 0
          then openNeighbors_for rest (uset_insert neighborIndex unprocessed)
          else openNeighbors_for rest unprocessed
      else openNeighbors_for rest unprocessed
  end.

(** The [while( !unprocessed.empty() )] loop, one unit of fuel per turn. *)
Fixpoint openNeighbors_while (fuel : nat) (unprocessed : list N) : M unit :=
  match unprocessed with
  | [] => ret tt
  | _ :: _ =>
      match fuel with
      | O => fun _ => Unfinished
      | S fuel' =>
          let current := uset_begin unprocessed in
          let unprocessed := uset_erase current unprocessed in
          let* neighbors := findNeighbors current in
          let* r := openNeighbors_for neighbors unprocessed in
          match r with
          | None => ret tt
          | Some unprocessed => openNeighbors_while fuel' unprocessed
          end
      end
  end.

Definition openNeighbors (fuel : nat) (index : N) : M unit :=
  openNeighbors_while fuel (uset_insert index []).

(** [OnOpen]: as in [OnModified], the checks on the pointer itself hold. *)
Definition OnOpen (fuel : nat) (index : N) : M unit :=
  let* g := get in
  do internal_check (state_eqb (state g) MGS_Active) then
  do internal_check (index <? cells_size g) then
  let* cell := cellAt index in
  if IsOpened cell then
    let* labeled := CalculateNumberOfNeighborCellsLabeledAsBombs index in
    if GetNumberOfNeighborBombs cell =? labeled
    then openNeighbors fuel index
    else ret tt
  else
    let* opened := open index in
    if opened then
      let* success := hasSuccess in
      let* cell := cellAt index in
      if negb success && (GetNumberOfNeighborBombs cell =? 0)
      then openNeighbors fuel index
      else ret tt
    else ret tt.

(** [CMinesweeperCell::Open] *)
Definition Open (fuel : nat) (index : N) : M unit := OnOpen fuel index.

End Game.

(** [0.93 * _rows * _columns] is a product of doubles, rounded to nearest
    after each multiplication, and the cast to [size_t] truncates. *)
Definition double_prec : Z := 53.
Definition double_emax : Z := 1024.

Definition double_of_size_t (n : N) : spec_float :=
  binary_normalize double_prec double_emax (Z.of_N n) 0 false.

(** The literal [0.93], that is 0x1.dc28f5c28f5c3p-1. *)
Definition double_0_93 : spec_float := S754_finite false 8376695306909123 (-53).

Definition size_t_of_double (x : spec_float) : N :=
  match x with
  | S754_finite false m e =>
      match e with
      | Z0 => Npos m
      | Zpos p => Npos m * 2 ^ Npos p
      | Zneg p => Npos m / 2 ^ Npos p
      end mod size_t_modulus
  | _ => 0
  end.

Definition bombs_limit (_rows _columns : N) : N :=
  size_t_of_double
    (SFmul double_prec double_emax
       (SFmul double_prec double_emax double_0_93 (double_of_size_t _rows))
       (double_of_size_t _columns)).

(** ** The public methods of [CMinesweeperGame] *)

(** [NewGame()] *)
Definition NewGame (draws : list N) : M unit :=
  do reset then
  do modify (fun g =>
       with_cells (replicate (N.to_nat (wmul (rows g) (columns g))) newCell) g) then
  plantBombs draws.

(** [NewGame( _rows, _columns, _bombs )] *)
Definition NewGame_with (_rows _columns _bombs : N) (draws : list N) : M unit :=
  do internal_check ((9 <=? _rows) && (_rows <=? 24)) then
  do internal_check ((9 <=? _columns) && (_columns <=? 30)) then
  do internal_check ((10 <=? _bombs) && (_bombs <=? bombs_limit _rows _columns)) then
  do modify (with_parameters _rows _columns _bombs) then
  NewGame draws.

Definition RestartGame : M unit :=
  do reset then
  let* g := get in
  forEach (indices g) Close.

Definition Cell (row column : N) : M N :=
  let* g := get in
  do internal_check (row <? rows g) then
  do internal_check (column <? columns g) then
  cellPtr (wadd (wmul row (columns g)) column).

(** The loop of [ModifiedCells]; a division by [columns = 0] is undefined. *)
Fixpoint ModifiedCells_for (s : list N) (result : list (N * N)) : M (list (N * N)) :=
  match s with
  | [] => ret result
  | i :: rest =>
      let* g := get in
      if columns g =? 0 then (fun _ => Undefined)
      else ModifiedCells_for rest (result ++ [(i / columns g, i mod columns g)])
  end.

Definition ModifiedCells : M (list (N * N)) :=
  let* g := get in
  let* result := ModifiedCells_for (modifiedCellIndices g) [] in
  do modify (with_modifiedCellIndices []) then
  ret result.

(** [CreateGame]: a fresh object, then [NewGame( rows, columns, bombs )]; an
    exception of [NewGame] leaves no game behind. *)
Definition CreateGame (_rows _columns _bombs : N) (draws : list N) : option CMinesweeperGame :=
  match NewGame_with _rows _columns _bombs draws newGame with
  | Ret _ g => Some g
  | _ => None
  end.

(** ** The calls a client can make, and the games it can reach *)

Inductive call : Set :=
| CallNewGame_with (_rows _columns _bombs : N) (draws : list N)
| CallNewGame (draws : list N)
| CallRestartGame
| CallOpen (fuel : nat) (row column : N)
| CallSetLabel (row column : N) (newLabel : TMinesweeperCellLabel)
| CallModifiedCells.

Section Reachable.

Variable begin_pos : list N -> nat.

(** [game->Cell( row, column )->Open()] and the like. *)
Definition perform (c : call) : M unit :=
  match c with
  | CallNewGame_with r c b draws => NewGame_with r c b draws
  | CallNewGame draws => NewGame draws
  | CallRestartGame => RestartGame
  | CallOpen fuel row column => let* cell := Cell row column in Open begin_pos fuel cell
  | CallSetLabel row column newLabel => let* cell := Cell row column in SetLabel cell newLabel
  | CallModifiedCells => do ModifiedCells then ret tt
  end.

(** A game is reachable when [CreateGame] and a sequence of calls that came
    back (by return or by exception) lead to it. *)
Inductive reachable : CMinesweeperGame -> Prop :=
| reachable_CreateGame r c b draws g :
    CreateGame r c b draws = Some g -> reachable g
| reachable_perform g c g' :
    reachable g -> final_state (perform c g) = Some g' -> reachable g'.

Fixpoint play (cs : list call) (g : CMinesweeperGame) : option CMinesweeperGame :=
  match cs with
  | [] => Some g
  | c :: cs' =>
      match final_state (perform c g) with
      | Some g' => play cs' g'
      | None => None
      end
  end.

End Reachable.

(** * Specification vocabulary *)

(** What holds when a call comes back: [Q] after a return, [E] after an
    exception. *)
Definition post {A : Type} (r : result A)
    (Q : A -> CMinesweeperGame -> Prop) (E : CMinesweeperGame -> Prop) : Prop :=
  match r with
  | Ret a g => Q a g
  | Throw g => E g
  | Undefined | Unfinished => True
  end.

(** A property of the game that a method keeps, whether it returns or
    throws. *)
Definition preserves (P : CMinesweeperGame -> Prop) {A : Type} (m : M A) : Prop :=
  forall g, P g -> post (m g) (fun _ g' => P g') P.

(** The positions [findNeighbors] collects, as a function of the dimensions
    alone; [None] when one of them is outside the vector. *)
Definition push_position (b : bool) (size i : N) (acc : option (list N)) : option (list N) :=
  match acc with
  | None => None
  | Some l => if b then (if i <? size then Some (l ++ [i]) else None) else Some l
  end.

Definition neighborPositions (_rows _columns size index : N) : option (list N) :=
  let row := index / _columns in
  let column := index mod _columns in
  let top := 0 <? row in
  let bottom := row <? wsub _rows 1 in
  let left := 0 <? column in
  let right := column <? wsub _columns 1 in
  push_position (bottom && right) size (wadd (wadd index _columns) 1)
    (push_position bottom size (wadd index _columns)
      (push_position (bottom && left) size (wsub (wadd index _columns) 1)
        (push_position right size (wadd index 1)
          (push_position left size (wsub index 1)
            (push_position (top && right) size (wadd (wsub index _columns) 1)
              (push_position top size (wsub index _columns)
                (push_position (top && left) size (wsub (wsub index _columns) 1)
                  (Some [])))))))).

(** The shape every game made by [NewGame] has. *)
Record wf (g : CMinesweeperGame) : Prop := mk_wf {
  wf_rows : 9 <= rows g <= 24;
  wf_columns : 9 <= columns g <= 30;
  wf_cells : cells_size g = rows g * columns g;
  wf_modified_range : Forall (fun i => i < cells_size g) (modifiedCellIndices g);
  wf_modified_NoDup : NoDup (modifiedCellIndices g)
}.

(** What [Close] leaves of a cell, and what [InternalOpen] leaves of a closed
    cell. *)
Definition cell_closed (c : CMinesweeperCell) : CMinesweeperCell :=
  cell_with_label MCL_None (cell_with_isOpened false c).

Definition cell_opened (c : CMinesweeperCell) : CMinesweeperCell :=
  cell_with_isOpened true c.

(** ** A call of [Open] that starts in the game [g] *)

(** [g'] has the mines of [g], position by position. *)
Definition same_mines (g g' : CMinesweeperGame) : Prop :=
  length (cells g') = length (cells g) /\
  forall j c, cells g !! j = Some c ->
    exists c', cells g' !! j = Some c' /\ isBomb c' = isBomb c.

(** Between [g] and [g'] a cell whose mine flag is set went from closed to
    opened. *)
Definition opens_a_mine (g g' : CMinesweeperGame) : Prop :=
  exists j c c',
    cells g !! j = Some c /\ cells g' !! j = Some c' /\
    isBomb c' = true /\ isOpened c = false /\ isOpened c' = true.

Definition no_mine_opened (g g' : CMinesweeperGame) : Prop :=
  forall j c c',
    cells g !! j = Some c -> cells g' !! j = Some c' ->
    isBomb c' = true -> isOpened c = false -> isOpened c' = false.

Definition all_mines_opened (g : CMinesweeperGame) : Prop :=
  forall j c, cells g !! j = Some c -> isBomb c = true -> isOpened c = true.

(** The game [g1] in the course of a call started in [g], as long as no mine
    has been opened. *)
Definition before_hit (g g1 : CMinesweeperGame) : Prop :=
  state g1 = MGS_Active /\ same_mines g g1 /\ no_mine_opened g g1.

(** The game [g'] is what the call of [open] that hit a mine left: that call
    was made in a game [g1] in which no mine had been opened yet, and nothing
    ran after it. *)
Definition mine_hit (g g' : CMinesweeperGame) : Prop :=
  state g' = MGS_Failure /\ all_mines_opened g' /\
  exists i g1,
    before_hit g g1 /\ open i g1 = Ret false g' /\
    numberOfOpenedCells g' = numberOfOpenedCells g1 /\
    forall j c, cells g1 !! j = Some c -> isBomb c = false -> cells g' !! j = Some c.

(** Every cell that differs between [g] and [g'] has its index in the set of
    modified indices of [g'], which has kept the indices of [g]. *)
Definition changes_recorded (g g' : CMinesweeperGame) : Prop :=
  length (cells g') = length (cells g) /\
  (forall i, i ∈ modifiedCellIndices g -> i ∈ modifiedCellIndices g') /\
  forall j c c',
    cells g !! j = Some c -> cells g' !! j = Some c' -> c' <> c ->
    N.of_nat j ∈ modifiedCellIndices g'.

(** ** The flood of [openNeighbors] started in the game [g] *)

(** A closed, labelled cell whose stored count is zero: [open] leaves it
    closed, and the loop of [openNeighbors] puts it in [unprocessed]. *)
Definition labelled_zero (c : CMinesweeperCell) : bool :=
  negb (isOpened c) && negb (label_eqb (label c) MCL_None) &&
  (numberOfNeighborBombs c =? 0).

(** A position that [open] cannot blow up on: no mine, or a labelled cell. *)
Definition calm_position (g : CMinesweeperGame) (n : N) : bool :=
  match cells g !! N.to_nat n with
  | Some c => negb (isBomb c) || negb (label_eqb (label c) MCL_None)
  | None => false
  end.

Definition zero_position (g : CMinesweeperGame) (i : N) : bool :=
  match cells g !! N.to_nat i with
  | Some c => numberOfNeighborBombs c =? 0
  | None => false
  end.

(** Around every position with a stored count of zero, all positions are
    calm. *)
Definition calm_board (g : CMinesweeperGame) : bool :=
  forallb
    (fun i =>
       negb (zero_position g i) ||
       match neighborPositions (rows g) (columns g) (cells_size g) i with
       | Some ns => forallb (calm_position g) ns
       | None => false
       end)
    (indices g).

(** [g'] is [g] with more cells opened, none of them labelled. *)
Definition opened_more (g g' : CMinesweeperGame) : Prop :=
  state g' = MGS_Active /\
  rows g' = rows g /\ columns g' = columns g /\
  length (cells g') = length (cells g) /\
  forall j c, cells g !! j = Some c ->
    exists c', cells g' !! j = Some c' /\
      isBomb c' = isBomb c /\ label c' = label c /\
      numberOfNeighborBombs c' = numberOfNeighborBombs c /\
      (label c <> MCL_None -> isOpened c' = isOpened c).

(** ** Counting mines and opened cells *)

Definition count_mines (g : CMinesweeperGame) : nat :=
  length (List.filter isBomb (cells g)).

Definition is_mine (g : CMinesweeperGame) (i : N) : bool :=
  match cells g !! N.to_nat i with
  | Some c => isBomb c
  | None => false
  end.

(** The number of mines among the neighbours of position [i]. *)
Definition mines_around (g : CMinesweeperGame) (i : N) : N :=
  match neighborPositions (rows g) (columns g) (cells_size g) i with
  | Some ns => N.of_nat (length (List.filter (is_mine g) ns))
  | None => 0
  end.

Definition stored_count (g : CMinesweeperGame) (i : N) : option N :=
  option_map numberOfNeighborBombs (cells g !! N.to_nat i).

Definition is_opened (g : CMinesweeperGame) (i : N) : bool :=
  match cells g !! N.to_nat i with
  | Some c => isOpened c
  | None => false
  end.

(** Every cell that is no mine is opened. *)
Definition all_safe_opened (g : CMinesweeperGame) : bool :=
  forallb (fun c => isBomb c || isOpened c) (cells g).

(** ** The region of a flood *)

(** The positions a flood from [seed] reaches in [g]: the seed, and the
    neighbours of every position of the region that stores a count of zero.
    These are the cells with a count of zero connected to the seed, and the
    cells on their border. *)
Inductive in_region (g : CMinesweeperGame) (seed : N) : N -> Prop :=
| in_region_seed : in_region g seed seed
| in_region_step i ns n :
    in_region g seed i ->
    zero_position g i = true ->
    neighborPositions (rows g) (columns g) (cells_size g) i = Some ns ->
    n ∈ ns ->
    in_region g seed n.

(** A closed, unlabelled cell that is no mine. *)
Definition fresh_position (g : CMinesweeperGame) (i : N) : Prop :=
  exists c, cells g !! N.to_nat i = Some c /\
            isOpened c = false /\ label c = MCL_None /\ isBomb c = false.

Definition closed_cells (g : CMinesweeperGame) : nat :=
  length (List.filter (fun c => negb (isOpened c)) (cells g)).

(** The game [g1] and the set [unprocessed] in the course of the flood that
    [Open] on [seed] started in [g]. *)
Record flooding (g : CMinesweeperGame) (seed : N)
    (g1 : CMinesweeperGame) (unprocessed : list N) : Prop := mk_flooding {
  flooding_state : state g1 = MGS_Active;
  flooding_rows : rows g1 = rows g;
  flooding_columns : columns g1 = columns g;
  flooding_length : length (cells g1) = length (cells g);
  flooding_cells : forall j c, cells g !! j = Some c ->
    cells g1 !! j = Some c \/
    (in_region g seed (N.of_nat j) /\ cells g1 !! j = Some (cell_opened c));
  flooding_unprocessed : forall i, i ∈ unprocessed ->
    in_region g seed i /\ zero_position g i = true;
  flooding_processed : forall i ns n,
    in_region g seed i -> zero_position g i = true ->
    is_opened g1 i = true -> i ∉ unprocessed ->
    neighborPositions (rows g) (columns g) (cells_size g) i = Some ns ->
    n ∈ ns -> is_opened g1 n = true;
  flooding_seed : is_opened g1 seed = true
}.

(** ** Positions next to each other *)

(** Two positions of a grid with [_columns] columns are adjacent when their
    rows and their columns differ by one at most, and they are not the same
    position. *)
Definition adjacent (_columns i n : N) : bool :=
  let row := i / _columns in
  let column := i mod _columns in
  let row' := n / _columns in
  let column' := n mod _columns in
  (row <=? row' + 1) && (row' <=? row + 1) &&
  (column <=? column' + 1) && (column' <=? column + 1) && negb (i =? n).

(** ** The parameters [NewGame] accepts *)

(** The three checks of [NewGame( _rows, _columns, _bombs )] in integer
    arithmetic: the last one is [_bombs <= floor( 0.93 * _rows * _columns )]. *)
Definition valid_parameters (_rows _columns _bombs : N) : bool :=
  (9 <=? _rows) && (_rows <=? 24) && (9 <=? _columns) && (_columns <=? 30) &&
  (10 <=? _bombs) && (100 * _bombs <=? 93 * _rows * _columns).

(** ** Planting mines *)

(** What [SetIsBomb( true )] makes of a cell, and what
    [SetNumberOfNeighborBombs( GetNumberOfNeighborBombs() + 1 )] makes of
    it. *)
Definition planted_cell (c : CMinesweeperCell) : CMinesweeperCell :=
  {| isBomb := true; isOpened := isOpened c; label := label c; numberOfNeighborBombs := 0 |}.

Definition counted_cell (c : CMinesweeperCell) : CMinesweeperCell :=
  {| isBomb := false; isOpened := isOpened c; label := label c;
     numberOfNeighborBombs := wadd (numberOfNeighborBombs c) 1 |}.

(** No cell of the board is opened. *)
Definition unopened (g : CMinesweeperGame) : Prop :=
  forall j c, cells g !! j = Some c -> isOpened c = false.

(** No two of the draws are adjacent positions. *)
Definition spread (_columns : N) (draws : list N) : bool :=
  forallb (fun a => forallb (fun b => negb (adjacent _columns a b)) draws) draws.

(** The board as [NewGame()] leaves it: an active game of valid dimensions
    with no cell opened or labelled, nothing counted and nothing recorded,
    in which a mine stores a count of zero. *)
Record fresh_board (g : CMinesweeperGame) : Prop := mk_fresh_board {
  fresh_wf : wf g;
  fresh_state : state g = MGS_Active;
  fresh_counter : numberOfOpenedCells g = 0;
  fresh_modified : modifiedCellIndices g = [];
  fresh_cells : forall j c, cells g !! j = Some c ->
    isOpened c = false /\ label c = MCL_None /\
    (isBomb c = true -> numberOfNeighborBombs c = 0)
}.

(** The mines of [g] are the positions [planted], and every cell that is no
    mine stores the number of them among its neighbours. *)
Record mines_are (planted : list N) (g : CMinesweeperGame) : Prop := mk_mines_are {
  mines_NoDup : NoDup planted;
  mines_count : count_mines g = length planted;
  mines_flags : forall j c, cells g !! j = Some c -> isBomb c = uset_mem (N.of_nat j) planted;
  mines_stored : forall j c ns,
    cells g !! j = Some c -> isBomb c = false ->
    neighborPositions (rows g) (columns g) (cells_size g) (N.of_nat j) = Some ns ->
    numberOfNeighborBombs c =
    N.of_nat (length (List.filter (fun x => uset_mem x planted) ns))
}.

(** ** What a call of [Open] can change *)

(** [g'] is [g] with more cells opened: the parameters, the mines, the
    labels and the stored counts are the same, no cell was closed, and a
    labelled cell was opened only if it is a mine. *)
Definition only_opened (g g' : CMinesweeperGame) : Prop :=
  rows g' = rows g /\ columns g' = columns g /\ bombs g' = bombs g /\
  length (cells g') = length (cells g) /\
  forall j c, cells g !! j = Some c ->
    cells g' !! j = Some c \/
    (cells g' !! j = Some (cell_opened c) /\ isOpened c = false /\
     (label c = MCL_None \/ isBomb c = true)).

(** ** The counter, the state and the board *)

(** The number of opened cells that are no mines. *)
Definition opened_safe_cells (g : CMinesweeperGame) : nat :=
  length (List.filter (fun c => isOpened c && negb (isBomb c)) (cells g)).

Definition no_mine_is_opened (g : CMinesweeperGame) : Prop :=
  forall j c, cells g !! j = Some c -> isBomb c = true -> isOpened c = false.

(** The counter of opened cells and the state of the game say what the
    board shows. *)
Record tally (g : CMinesweeperGame) : Prop := mk_tally {
  tally_wf : wf g;
  tally_counter : numberOfOpenedCells g = N.of_nat (opened_safe_cells g);
  tally_Failure : state g = MGS_Failure -> all_mines_opened g;
  tally_mines : state g <> MGS_Failure -> no_mine_is_opened g;
  tally_Success : state g = MGS_Success -> numberOfOpenedCells g = wsub (cells_size g) (bombs g)
}.

(** What holds of every game the code can reach. *)
Record consistent (g : CMinesweeperGame) : Prop := mk_consistent {
  consistent_tally : tally g;
  consistent_parameters : valid_parameters (rows g) (columns g) (bombs g) = true;
  consistent_labels : forall j c,
    cells g !! j = Some c -> isOpened c = true -> isBomb c = false -> label c = MCL_None;
  consistent_counts : forall j c,
    cells g !! j = Some c -> isBomb c = true -> numberOfNeighborBombs c = 0
}.

(** ** The layout of the mines *)

(** [g'] has the parameters of [g], and every cell has the mine flag and the
    stored count it has in [g]. *)
Definition same_layout (g g' : CMinesweeperGame) : Prop :=
  rows g' = rows g /\ columns g' = columns g /\ bombs g' = bombs g /\
  length (cells g') = length (cells g) /\
  forall j c, cells g !! j = Some c ->
    exists c', cells g' !! j = Some c' /\ isBomb c' = isBomb c /\
               numberOfNeighborBombs c' = numberOfNeighborBombs c.

(** The calls that start no new game. *)
Definition keeps_board (c : call) : bool :=
  match c with
  | CallNewGame_with _ _ _ _ | CallNewGame _ => false
  | CallRestartGame | CallOpen _ _ _ | CallSetLabel _ _ _ | CallModifiedCells => true
  end.

(** The calls of a player who sets no label and starts no new game. *)
Definition sets_no_label (c : call) : bool :=
  match c with
  | CallRestartGame | CallOpen _ _ _ | CallModifiedCells => true
  | CallNewGame_with _ _ _ _ | CallNewGame _ | CallSetLabel _ _ _ => false
  end.

(** ** The flags around an opened cell *)

(** A closed cell labelled [MCL_Bomb]. *)
Definition is_flagged (g : CMinesweeperGame) (i : N) : bool :=
  match cells g !! N.to_nat i with
  | Some c => negb (isOpened c) && label_eqb (label c) MCL_Bomb
  | None => false
  end.

(** The number of closed cells labelled [MCL_Bomb] among the neighbours of
    position [i]. *)
Definition flagged_around (g : CMinesweeperGame) (i : N) : N :=
  match neighborPositions (rows g) (columns g) (cells_size g) i with
  | Some ns => N.of_nat (length (List.filter (is_flagged g) ns))
  | None => 0
  end.

(** ** [Open] on a closed cell that is no mine *)

(** The game after [open] has opened the closed cell [c] at [index], which
    is no mine: the cell is opened, recorded as modified and counted. *)
Definition opened_at (index : N) (c : CMinesweeperCell) (g : CMinesweeperGame)
    : CMinesweeperGame :=
  with_numberOfOpenedCells (wadd (numberOfOpenedCells g) 1)
    (with_modifiedCellIndices (uset_insert index (modifiedCellIndices g))
       (with_cells (<[N.to_nat index := cell_opened c]> (cells g)) g)).

(** ** A board without labels *)

(** No closed cell carries a label. *)
Definition unlabelled (g : CMinesweeperGame) : Prop :=
  forall j c, cells g !! j = Some c -> isOpened c = false -> label c = MCL_None.

(** ** The driver's [Draw]

    [Draw] reads the game through the public interface and writes to
    [std::cout], whose text so far is passed along.  It ends by a return,
    by a [logic_error] out of one of the queries (what was written before
    stays written), or in an access outside the vector. *)

Inductive printed : Type :=
| Printed (cout : string)
| PrintThrow (cout : string)
| PrintUndefined.

(** The getters of [IMinesweeperGame]. *)
Definition GameState (g : CMinesweeperGame) : TMinesweeperGameState := state g.
Definition Rows (g : CMinesweeperGame) : N := rows g.
Definition Columns (g : CMinesweeperGame) : N := columns g.
Definition Bombs (g : CMinesweeperGame) : N := bombs g.

(** [cout << bombs] for a [size_t]: its decimal digits. *)
Definition string_of_size_t (n : N) : string := NilZero.string_of_uint (N.to_uint n).

(** [cout << endl] *)
Definition endl : string := String (ascii_of_nat 10) EmptyString.

(** The values [0], [1], ..., [n - 1] that [for( size_t i = 0; i < n; i++ )]
    runs through. *)
Definition counting (n : N) : list N := map N.of_nat (seq 0 (N.to_nat n)).

(** The body of the inner loop, on the cell [game->Cell( i, j )]. *)
Definition Draw_cell (g : CMinesweeperGame) (i j : N) (cout : string) : printed :=
  match Cell i j g with
  | Ret p _ =>
      match cells g !! N.to_nat p with
      | None => PrintUndefined
      | Some cell =>
          if IsOpened cell then
            match IsBomb cell with
            | LogicError => PrintThrow cout
            | Returned true => Printed (cout ++ "*")%string
            | Returned false =>
                match NumberOfNeighborBombs cell with
                | LogicError => PrintThrow cout
                | Returned bombs =>
                    if bombs =? 0 then Printed (cout ++ "O")%string
                    else Printed (cout ++ string_of_size_t bombs)%string
                end
            end
          else Printed (cout ++ "-")%string
      end
  | Throw _ => PrintThrow cout
  | Undefined | Unfinished => PrintUndefined
  end.

Fixpoint Draw_columns (g : CMinesweeperGame) (i : N) (js : list N) (cout : string) : printed :=
  match js with
  | [] => Printed cout
  | j :: js' =>
      match Draw_cell g i j cout with
      | Printed cout' => Draw_columns g i js' cout'
      | r => r
      end
  end.

Fixpoint Draw_rows (g : CMinesweeperGame) (rs : list N) (cout : string) : printed :=
  match rs with
  | [] => Printed cout
  | i :: rs' =>
      match Draw_columns g i (counting (Columns g)) cout with
      | Printed cout' => Draw_rows g rs' (cout' ++ endl)%string
      | r => r
      end
  end.

Definition Draw (g : CMinesweeperGame) (cout : string) : printed :=
  match Draw_rows g (counting (Rows g)) cout with
  | Printed cout' => Printed (cout' ++ endl)%string
  | r => r
  end.

(** The text of one cell, of one row and of the board. *)
Definition cell_text (c : CMinesweeperCell) : string :=
  if isOpened c then
    if isBomb c then "*"%string
    else if numberOfNeighborBombs c =? 0 then "O"%string
         else string_of_size_t (numberOfNeighborBombs c)
  else "-"%string.

Definition texts (l : list string) : string := fold_right String.append EmptyString l.

Definition row_text (g : CMinesweeperGame) (i : N) : string :=
  texts (map (fun j => match cells g !! N.to_nat (i * columns g + j) with
                       | Some c => cell_text c
                       | None => EmptyString
                       end)
             (counting (columns g))).

Definition board_text (g : CMinesweeperGame) : string :=
  (texts (map (fun i => row_text g i ++ endl) (counting (rows g))) ++ endl)%string.

(** ** The driver's [main]

    [main] creates the game with the default parameters of [CreateGame]
    (nine rows, nine columns, ten mines), shows it, and while the game is
    active opens the cell at an index its generator returns and shows the
    game again.  The indices that [randomGenerator( randomDevice )] returns
    in [main] are the list [picks], one element per turn of the loop (the
    distribution is over [0 .. Rows() * Columns() - 1]); [draws] are those
    of [plantBombs].  The outcome is the value [main] returns and the text
    written to [std::cout]: 0 after the loop, 1 out of the handler of
    [catch( exception& )], which what was written before the throw
    precedes.  The line the handler writes to [std::cerr] is no part of the
    outcome. *)
Inductive outcome : Type :=
| MainReturns (code : N) (cout : string)
| MainUndefined
| MainUnfinished.

Fixpoint main_while (begin_pos : list N -> nat) (fuel : nat) (picks : list N)
    (g : CMinesweeperGame) (cout : string) : outcome :=
  if state_eqb (GameState g) MGS_Active then
    match picks with
    | [] => MainUnfinished
    | index :: picks' =>
        if Columns g =? 0 then MainUndefined
        else
          let row := index / Columns g in
          let column := index mod Columns g in
          match (let* cell := Cell row column in Open begin_pos fuel cell) g with
          | Ret _ g' =>
              match Draw g' cout with
              | Printed cout' => main_while begin_pos fuel picks' g' cout'
              | PrintThrow cout' => MainReturns 1 cout'
              | PrintUndefined => MainUndefined
              end
          | Throw _ => MainReturns 1 cout
          | Undefined => MainUndefined
          | Unfinished => MainUnfinished
          end
    end
  else MainReturns 0 cout.

Definition main (begin_pos : list N -> nat) (fuel : nat) (draws picks : list N) : outcome :=
  match NewGame_with 9 9 10 draws newGame with
  | Ret _ g =>
      match Draw g EmptyString with
      | Printed cout => main_while begin_pos fuel picks g cout
      | PrintThrow cout => MainReturns 1 cout
      | PrintUndefined => MainUndefined
      end
  | Throw _ => MainReturns 1 EmptyString
  | Undefined => MainUndefined
  | Unfinished => MainUnfinished
  end.

(** The games [main] shows after the first one: the game after each
    [Open], as long as the game before it is active. *)
Fixpoint games_shown (begin_pos : list N -> nat) (fuel : nat) (picks : list N)
    (g : CMinesweeperGame) : list CMinesweeperGame :=
  match picks with
  | [] => []
  | index :: picks' =>
      if state_eqb (state g) MGS_Active then
        match final_state (perform begin_pos
                (CallOpen fuel (index / columns g) (index mod columns g)) g) with
        | Some g' => g' :: games_shown begin_pos fuel picks' g'
        | None => []
        end
      else []
  end.

(** ** The calls whose changes are recorded *)

(** [Open], [RestartGame], and [SetLabel] on a game that is active: the
    calls that change cells of the board of the game and pass the check of
    [OnModified] when they do. *)
Definition records_changes (c : call) (g : CMinesweeperGame) : bool :=
  match c with
  | CallOpen _ _ _ | CallRestartGame => true
  | CallSetLabel _ _ _ => state_eqb (state g) MGS_Active
  | CallNewGame_with _ _ _ _ | CallNewGame _ | CallModifiedCells => false
  end.

(** Every call of the sequence [cs], made one after the other from [g], is
    such a call. *)
Fixpoint calls_recorded (begin_pos : list N -> nat) (cs : list call)
    (g : CMinesweeperGame) : bool :=
  match cs with
  | [] => true
  | c :: cs' =>
      records_changes c g &&
      match final_state (perform begin_pos c g) with
      | Some g' => calls_recorded begin_pos cs' g'
      | None => true
      end
  end.

(** * Example games

    [begin_first] is the order in which [begin()] is the oldest element of
    the set. *)
Definition begin_first : list N -> nat := fun _ => 0%nat.

Definition or_newGame (o : option CMinesweeperGame) : CMinesweeperGame :=
  match o with
  | Some g => g
  | None => newGame
  end.

(** Nine by nine, ten mines: every other cell of the first and of the last
    row. *)
Definition striped_draws : list N := [0; 2; 4; 6; 8; 72; 74; 76; 78; 80].

Definition striped_game : CMinesweeperGame :=
  Eval vm_compute in or_newGame (CreateGame 9 9 10 striped_draws).

(** The same game after the mine in the corner was opened. *)
Definition striped_game_lost : CMinesweeperGame :=
  Eval vm_compute in or_newGame (play begin_first [CallOpen 0 0 0] striped_game).

(** The striped game with a question mark on two adjacent empty cells,
    (4, 4) and (4, 5). *)
Definition question_calls : list call :=
  [CallSetLabel 4 4 MCL_Question; CallSetLabel 4 5 MCL_Question].

Definition question_game : CMinesweeperGame :=
  Eval vm_compute in or_newGame (play begin_first question_calls striped_game).

(** The striped game with the mine in the corner (0, 0) flagged, and what
    [Open()] on that cell makes of it. *)
Definition flagged_game : CMinesweeperGame :=
  Eval vm_compute in
    or_newGame (play begin_first [CallSetLabel 0 0 MCL_Bomb] striped_game).

Definition flagged_game_opened : CMinesweeperGame :=
  Eval vm_compute in
    or_newGame (play begin_first [CallOpen 1 0 0] flagged_game).

(** [NewGame( 9, 9, 10 )] when the generator returns 0, 1, ..., 9: each mine
    is planted next to the one before. *)
Definition adjacent_draws : list N := [0; 1; 2; 3; 4; 5; 6; 7; 8; 9].

Definition adjacent_game : CMinesweeperGame :=
  Eval vm_compute in or_newGame (CreateGame 9 9 10 adjacent_draws).

(** Ten mines, no two adjacent, and one single cell with no mine around it:
    (8, 6), position 78. *)
Definition island_draws : list N := [10; 13; 16; 37; 40; 43; 60; 64; 67; 71].

Definition island_game : CMinesweeperGame :=
  Eval vm_compute in or_newGame (CreateGame 9 9 10 island_draws).

(** Every cell that is no mine, but (8, 6) and the five cells around it,
    opened one by one. *)
Definition island_positions : list N :=
  [0; 1; 2; 3; 4; 5; 6; 7; 8; 9; 11; 12; 14; 15; 17; 18; 19; 20; 21; 22; 23; 24;
   25; 26; 27; 28; 29; 30; 31; 32; 33; 34; 35; 36; 38; 39; 41; 42; 44; 45; 46;
   47; 48; 49; 50; 51; 52; 53; 54; 55; 56; 57; 58; 59; 61; 62; 63; 65; 66; 72;
   73; 74; 75; 76; 80].

Definition island_calls : list call :=
  map (fun i => CallOpen 0 (i / 9) (i mod 9)) island_positions.

Definition island_game_prepared : CMinesweeperGame :=
  Eval vm_compute in or_newGame (play begin_first island_calls island_game).

(** Then [Open()] on (8, 6). *)
Definition island_game_cleared : CMinesweeperGame :=
  Eval vm_compute in
    or_newGame (play begin_first [CallOpen 1 8 6] island_game_prepared).

(** The same, with a question mark on (8, 5) while the flood runs: the flood
    leaves that cell closed; the mark is then taken off, and [Open()] is
    called on the opened cell (8, 6). *)
Definition island_game_marked : CMinesweeperGame :=
  Eval vm_compute in
    or_newGame (play begin_first [CallSetLabel 8 5 MCL_Question] island_game_prepared).

Definition island_game_flooded : CMinesweeperGame :=
  Eval vm_compute in
    or_newGame (play begin_first [CallOpen 1 8 6] island_game_marked).

Definition island_game_unmarked : CMinesweeperGame :=
  Eval vm_compute in
    or_newGame (play begin_first [CallSetLabel 8 5 MCL_None] island_game_flooded).

Definition island_game_chorded : CMinesweeperGame :=
  Eval vm_compute in
    or_newGame (play begin_first [CallOpen 1 8 6] island_game_unmarked).

(** [NewGame( 9, 9, 75 )] when the generator returns 0, 1, 0, 1, ..., 0
    (73 draws), then 62 and 78: each of the first plantings takes the mine
    flag off the cell planted just before, and the last two give the cells
    around the corner (8, 8) a stored count. *)
Definition crowded_draws : list N := concat (replicate 36 [0; 1]) ++ [0; 62; 78].

Definition crowded_game : CMinesweeperGame :=
  Eval vm_compute in or_newGame (CreateGame 9 9 75 crowded_draws).

(** Five cells with a stored count other than zero, far from the corner
    (8, 8), opened one by one; then [Open()] on the corner. *)
Definition crowded_calls : list call :=
  [CallOpen 0 0 1; CallOpen 0 0 2; CallOpen 0 1 0; CallOpen 0 1 1; CallOpen 0 1 2].

Definition crowded_game_prepared : CMinesweeperGame :=
  Eval vm_compute in or_newGame (play begin_first crowded_calls crowded_game).

Definition crowded_game_won : CMinesweeperGame :=
  Eval vm_compute in
    or_newGame (play begin_first [CallOpen 0 8 8] crowded_game_prepared).

(** The crowded game after [Open()] on the empty cell (4, 4): the flood
    opens 74 cells, many more than the 6 that [cells.size() - bombs] says
    there are to open. *)
Definition crowded_game_flooded : CMinesweeperGame :=
  Eval vm_compute in or_newGame (play begin_first [CallOpen 200 4 4] crowded_game).

(** The lost striped game after [ModifiedCells] has emptied the set, and
    what [SetLabel( MCL_Question )] on its closed cell (0, 1) leaves when it
    throws. *)
Definition striped_game_drained : CMinesweeperGame :=
  Eval vm_compute in
    or_newGame (play begin_first [CallModifiedCells] striped_game_lost).

Definition striped_game_relabelled : CMinesweeperGame :=
  Eval vm_compute in
    or_newGame (play begin_first [CallSetLabel 0 1 MCL_Question] striped_game_drained).

(** * Properties *)

(** ** [size_t] arithmetic without overflow *)

Lemma wadd_small a b : a + b < size_t_modulus -> wadd a b = a + b.
Proof. intros H. unfold wadd. now apply N.mod_small. Qed.

Lemma wsub_small a b : b <= a -> a < size_t_modulus -> wsub a b = a - b.
Proof.
  intros Hba Ha. unfold wsub.
  assert (Hb : b < size_t_modulus) by lia.
  rewrite (N.mod_small b) by exact Hb.
  replace (a + size_t_modulus - b) with ((a - b) + 1 * size_t_modulus) by lia.
  rewrite N.Div0.mod_add. apply N.mod_small. lia.
Qed.

Lemma wmul_small a b : a * b < size_t_modulus -> wmul a b = a * b.
Proof. intros H. unfold wmul. now apply N.mod_small. Qed.

(** ** The unordered set *)

Lemma uset_mem_spec x (s : list N) : uset_mem x s = true <-> x ∈ s.
Proof.
  unfold uset_mem. rewrite existsb_exists. split.
  - intros (y & Hin & Heq). apply N.eqb_eq in Heq. subst y. now apply list_elem_of_In.
  - intros Hin. exists x. split; [now apply list_elem_of_In | apply N.eqb_refl].
Qed.

Lemma elem_of_uset_insert x y (s : list N) : y ∈ uset_insert x s <-> y = x \/ y ∈ s.
Proof.
  unfold uset_insert. destruct (uset_mem x s) eqn:Hm.
  - apply uset_mem_spec in Hm. split; [tauto | intros [-> | H]; assumption].
  - rewrite elem_of_app, list_elem_of_singleton. tauto.
Qed.

Lemma NoDup_uset_insert x (s : list N) : NoDup s -> NoDup (uset_insert x s).
Proof.
  intros Hs. unfold uset_insert. destruct (uset_mem x s) eqn:Hm; [assumption |].
  apply NoDup_app. split; [assumption |]. split.
  - intros y Hy Hy'. apply list_elem_of_singleton in Hy'. subst y.
    apply uset_mem_spec in Hy. congruence.
  - apply NoDup_singleton.
Qed.

Lemma elem_of_uset_erase x y (s : list N) : y ∈ uset_erase x s <-> y ∈ s /\ y <> x.
Proof.
  unfold uset_erase. rewrite !list_elem_of_In, filter_In, negb_true_iff, N.eqb_neq.
  intuition congruence.
Qed.

Lemma uset_begin_elem_of begin_pos (s : list N) : s <> [] -> uset_begin begin_pos s ∈ s.
Proof.
  intros Hs. unfold uset_begin. apply list_elem_of_In.
  destruct (Nat.lt_ge_cases (begin_pos s) (length s)) as [Hlt | Hge].
  - now apply nth_In.
  - rewrite nth_overflow by exact Hge. destruct s; [congruence | now left].
Qed.

Lemma uset_begin_singleton begin_pos x : uset_begin begin_pos [x] = x.
Proof.
  pose proof (uset_begin_elem_of begin_pos [x]) as H.
  apply list_elem_of_singleton, H. discriminate.
Qed.

(** ** Rules for [post] *)

Lemma post_mono {A} (r : result A) (Q Q' : A -> CMinesweeperGame -> Prop)
    (E E' : CMinesweeperGame -> Prop) :
  post r Q E -> (forall a g, Q a g -> Q' a g) -> (forall g, E g -> E' g) -> post r Q' E'.
Proof. destruct r; simpl; auto. Qed.

Lemma post_bind {A B} (m : M A) (k : A -> M B) g Q E :
  post (m g) (fun a g' => post (k a g') Q E) E -> post (bind m k g) Q E.
Proof. unfold bind. destruct (m g); simpl; auto. Qed.

Lemma bind_Ret {A B} (m : M A) (k : A -> M B) g a g' :
  m g = Ret a g' -> bind m k g = k a g'.
Proof. unfold bind. now intros ->. Qed.

Lemma bind_Throw {A B} (m : M A) (k : A -> M B) g g' :
  m g = Throw g' -> bind m k g = Throw g'.
Proof. unfold bind. now intros ->. Qed.

(** ** Reading and writing a cell *)

Lemma index_lt_size g (index : N) :
  index < cells_size g <-> (N.to_nat index < length (cells g))%nat.
Proof. unfold cells_size. lia. Qed.

Lemma cellAt_Some g index c :
  cells g !! N.to_nat index = Some c -> cellAt index g = Ret c g.
Proof. unfold cellAt. now intros ->. Qed.

Lemma cellAt_lt g index :
  index < cells_size g -> exists c, cells g !! N.to_nat index = Some c /\ cellAt index g = Ret c g.
Proof.
  intros H. apply index_lt_size, lookup_lt_is_Some_2 in H. destruct H as [c Hc].
  exists c. split; [assumption | now apply cellAt_Some].
Qed.

Lemma cellAt_inv g index c g' :
  cellAt index g = Ret c g' -> g' = g /\ cells g !! N.to_nat index = Some c.
Proof.
  unfold cellAt. destruct (cells g !! N.to_nat index); [| discriminate].
  intros [= -> ->]. auto.
Qed.

Lemma setCell_lt g index c :
  index < cells_size g ->
  setCell index c g = Ret tt (with_cells (<[N.to_nat index := c]> (cells g)) g).
Proof. intros H. unfold setCell. apply N.ltb_lt in H. now rewrite H. Qed.

Lemma lookup_Some_lt_size g index (c : CMinesweeperCell) :
  cells g !! N.to_nat index = Some c -> index < cells_size g.
Proof. intros H. apply index_lt_size. eapply lookup_lt_Some. eassumption. Qed.

(** ** [findNeighbors] *)

Lemma push_back_if_bind {B} b i n (k : list N -> M B) g :
  bind (push_back_if b i n) k g =
  match push_position b (cells_size g) i (Some n) with
  | Some n' => k n' g
  | None => Undefined
  end.
Proof.
  unfold push_back_if, push_position, bind, cellPtr, ret.
  destruct b; [| reflexivity]. now destruct (i <? cells_size g).
Qed.

Lemma push_position_None b size i : push_position b size i None = None.
Proof. reflexivity. Qed.

Lemma findNeighbors_eq g index :
  findNeighbors index g =
  if index <? cells_size g then
    if columns g =? 0 then Undefined
    else match neighborPositions (rows g) (columns g) (cells_size g) index with
         | Some ns => Ret ns g
         | None => Undefined
         end
  else Throw g.
Proof.
  unfold findNeighbors.
  rewrite (bind_Ret get _ g g g) by reflexivity.
  unfold internal_check at 1.
  destruct (index <? cells_size g); [| reflexivity].
  rewrite (bind_Ret _ _ g tt g) by reflexivity.
  destruct (columns g =? 0); [reflexivity |].
  unfold neighborPositions. cbv zeta.
  repeat (rewrite push_back_if_bind;
          match goal with
          | |- context [push_position ?b ?s ?i (Some ?n)] =>
              destruct (push_position b s i (Some n)) as [? |];
              [| rewrite ?push_position_None; reflexivity]
          end).
  unfold push_back_if, push_position, bind, cellPtr, ret.
  destruct (_ && _); [| reflexivity].
  now destruct (_ <? cells_size g).
Qed.

Lemma findNeighbors_post g index (Q : list N -> CMinesweeperGame -> Prop)
    (E : CMinesweeperGame -> Prop) :
  (index < cells_size g ->
   forall ns, neighborPositions (rows g) (columns g) (cells_size g) index = Some ns -> Q ns g) ->
  (cells_size g <= index -> E g) ->
  post (findNeighbors index g) Q E.
Proof.
  intros HQ HE. rewrite findNeighbors_eq.
  destruct (N.ltb_spec index (cells_size g)); [| now apply HE].
  destruct (columns g =? 0); [exact I |].
  destruct (neighborPositions _ _ _ _) eqn:Hn; simpl; auto.
Qed.

Lemma push_position_Forall b size i acc l :
  push_position b size i acc = Some l ->
  exists l0, acc = Some l0 /\ (Forall (fun n => n < size) l0 -> Forall (fun n => n < size) l).
Proof.
  unfold push_position. destruct acc as [l0 |]; [| discriminate].
  intros H. exists l0. split; [reflexivity |].
  destruct b; [| now injection H as <-].
  destruct (N.ltb_spec i size); [| discriminate]. injection H as <-.
  intros Hl0. apply Forall_app. split; [assumption |]. now repeat constructor.
Qed.

Lemma neighborPositions_range r c size index ns :
  neighborPositions r c size index = Some ns -> Forall (fun n => n < size) ns.
Proof.
  unfold neighborPositions. cbv zeta. intros H.
  repeat match goal with
         | H : push_position _ _ _ _ = Some _ |- _ =>
             apply push_position_Forall in H; destruct H as (? & H & ?)
         end.
  injection H as <-. auto 12 using Forall_nil_2.
Qed.

Lemma push_position_Some b size i l :
  (b = true -> i < size) ->
  push_position b size i (Some l) = Some (if b then l ++ [i] else l).
Proof.
  intros H. unfold push_position. destruct b; [| reflexivity].
  specialize (H eq_refl). apply N.ltb_lt in H. now rewrite H.
Qed.

Lemma neighborPositions_is_Some r c index :
  1 <= r -> 1 <= c -> r * c < size_t_modulus -> index < r * c ->
  exists ns, neighborPositions r c (r * c) index = Some ns.
Proof.
  intros Hr Hc Hsize Hindex.
  assert (Hrow : index / c < r) by (apply N.Div0.div_lt_upper_bound; lia).
  assert (Hcol : index mod c < c) by (apply N.mod_lt; lia).
  pose proof (N.Div0.div_mod index c) as Hdm.
  assert (Hmod : size_t_modulus = 18446744073709551616) by reflexivity.
  rewrite Hmod in Hsize.
  unfold neighborPositions. cbv zeta.
  rewrite !(wsub_small r 1), !(wsub_small c 1) by (rewrite ?Hmod; lia).
  set (row := index / c) in *. set (column := index mod c) in *.
  repeat (rewrite push_position_Some; [| rewrite ?andb_true_iff, ?N.ltb_lt; intros Hb ]);
    [eexists; reflexivity | ..].
  all: repeat first
    [ rewrite (wadd_small index c) by (rewrite ?Hmod; nia)
    | rewrite (wsub_small index c) by (rewrite ?Hmod; nia)
    | rewrite wadd_small by (rewrite ?Hmod; nia)
    | rewrite wsub_small by (rewrite ?Hmod; nia) ].
  all: nia.
Qed.

(** In a game of valid dimensions [findNeighbors] returns, and returns
    positions of the grid. *)
Lemma findNeighbors_wf g index :
  wf g -> index < cells_size g ->
  exists ns, findNeighbors index g = Ret ns g /\ Forall (fun n => n < cells_size g) ns.
Proof.
  intros [Hr Hc Hs _ _] Hi. rewrite findNeighbors_eq.
  apply N.ltb_lt in Hi. rewrite Hi. apply N.ltb_lt in Hi.
  destruct (N.eqb_spec (columns g) 0) as [Hz | _]; [lia |].
  rewrite Hs in Hi |- *.
  destruct (neighborPositions_is_Some (rows g) (columns g) index) as [ns Hns];
    try lia.
  { change size_t_modulus with 18446744073709551616. nia. }
  rewrite Hns. exists ns. split; [reflexivity |].
  eapply neighborPositions_range, Hns.
Qed.

(** ** Properties kept by every method *)

Section Preserves.

Variable P : CMinesweeperGame -> Prop.

Lemma preserves_ret {A} (a : A) : preserves P (ret a).
Proof. intros g Hg. exact Hg. Qed.

Lemma preserves_bind {A B} (m : M A) (k : A -> M B) :
  preserves P m -> (forall a, preserves P (k a)) -> preserves P (bind m k).
Proof.
  intros Hm Hk g Hg. apply post_bind.
  eapply post_mono; [apply Hm, Hg | | auto].
  intros a g' Hg'. now apply Hk.
Qed.

Lemma preserves_get : preserves P get.
Proof. intros g Hg. exact Hg. Qed.

Lemma preserves_get_bind {B} (k : CMinesweeperGame -> M B) :
  (forall g, P g -> post (k g g) (fun _ g' => P g') P) -> preserves P (bind get k).
Proof. intros Hk g Hg. unfold bind, get. now apply Hk. Qed.

Lemma preserves_internal_check b : preserves P (internal_check b).
Proof. intros g Hg. unfold internal_check. now destruct b. Qed.

Lemma preserves_cellAt index : preserves P (cellAt index).
Proof. intros g Hg. unfold cellAt. now destruct (cells g !! N.to_nat index). Qed.

Lemma preserves_cellPtr index : preserves P (cellPtr index).
Proof. intros g Hg. unfold cellPtr. now destruct (index <? cells_size g). Qed.

Lemma preserves_Undefined {A} : preserves P (fun _ => @Undefined A).
Proof. intros g Hg. exact I. Qed.

Lemma preserves_Unfinished {A} : preserves P (fun _ => @Unfinished A).
Proof. intros g Hg. exact I. Qed.

Lemma preserves_modify f : (forall g, P g -> P (f g)) -> preserves P (modify f).
Proof. intros Hf g Hg. now apply Hf. Qed.

Lemma preserves_forEach {A} (l : list A) body :
  (forall x, preserves P (body x)) -> preserves P (forEach l body).
Proof.
  intros Hbody. induction l as [| x l IH]; simpl.
  - apply preserves_ret.
  - apply preserves_bind; auto.
Qed.

Lemma preserves_findNeighbors index : preserves P (findNeighbors index).
Proof. intros g Hg. apply findNeighbors_post; auto. Qed.

(** The three ways a method changes the game that matter below. *)
Hypothesis P_setCell : forall index c, preserves P (setCell index c).
Hypothesis P_OnModified : forall index, preserves P (OnModified index).
Hypothesis P_numberOfOpenedCells :
  forall n g, P g -> P (with_numberOfOpenedCells n g).
Hypothesis P_Failure : forall g, P g -> P (with_state MGS_Failure g).
Hypothesis P_Success : forall g, P g -> P (with_state MGS_Success g).

Ltac pres_with tac :=
  repeat first
    [ assumption
    | tac
    | apply preserves_ret
    | apply preserves_internal_check
    | apply preserves_cellAt
    | apply preserves_findNeighbors
    | apply P_setCell
    | apply P_OnModified
    | apply preserves_Undefined
    | apply preserves_Unfinished
    | match goal with
      | |- preserves _ (modify _) => apply preserves_modify; auto
      | |- preserves _ (bind get _) => apply preserves_get_bind; intros ? ?
      | |- preserves _ (bind _ _) => apply preserves_bind; [| intros ?]
      | |- preserves _ (forEach _ _) => apply preserves_forEach; intros ?
      | |- preserves _ (if ?b then _ else _) => destruct b
      | |- preserves _ (match ?b with Some _ => _ | None => _ end) => destruct b
      | H : P ?g |- post (?m ?g) _ _ => apply (fun Hp : preserves P m => Hp g H)
      end ].

Ltac pres := pres_with fail.

Lemma preserves_InternalOpen index : preserves P (InternalOpen index).
Proof. unfold InternalOpen, onModified. pres. Qed.

Lemma preserves_SetLabel index newLabel : preserves P (SetLabel index newLabel).
Proof. unfold SetLabel, onModified. pres. Qed.

Lemma preserves_Close index : preserves P (Close index).
Proof. unfold Close, onModified. pres. Qed.

Lemma preserves_openBombs : preserves P openBombs.
Proof. unfold openBombs. pres_with ltac:(apply preserves_InternalOpen). Qed.

Lemma preserves_open index : preserves P (open index).
Proof.
  unfold open.
  pres_with ltac:(first [apply preserves_InternalOpen | apply preserves_openBombs]).
Qed.

Lemma preserves_hasSuccess : preserves P hasSuccess.
Proof. unfold hasSuccess. pres. Qed.

Lemma preserves_countLabeledAsBombs neighbors n :
  preserves P (countLabeledAsBombs neighbors n).
Proof.
  revert n. induction neighbors as [| x l IH]; intros n; simpl;
    pres_with ltac:(apply IH).
Qed.

Lemma preserves_CalculateNumberOfNeighborCellsLabeledAsBombs index :
  preserves P (CalculateNumberOfNeighborCellsLabeledAsBombs index).
Proof.
  unfold CalculateNumberOfNeighborCellsLabeledAsBombs.
  pres_with ltac:(apply preserves_countLabeledAsBombs).
Qed.

Lemma preserves_openNeighbors_for neighbors unprocessed :
  preserves P (openNeighbors_for neighbors unprocessed).
Proof.
  revert unprocessed. induction neighbors as [| x l IH]; intros unprocessed; simpl.
  - pres.
  - pres_with ltac:(first [apply preserves_open | apply IH]).
Qed.

Lemma preserves_openNeighbors_while begin_pos fuel unprocessed :
  preserves P (openNeighbors_while begin_pos fuel unprocessed).
Proof.
  revert unprocessed. induction fuel as [| fuel IH]; intros [| x unprocessed]; simpl.
  - pres.
  - pres.
  - pres.
  - pres_with ltac:(first [apply preserves_openNeighbors_for | apply IH]).
Qed.

Lemma preserves_OnOpen begin_pos fuel index : preserves P (OnOpen begin_pos fuel index).
Proof.
  unfold OnOpen, openNeighbors.
  pres_with ltac:(first
    [ apply preserves_open | apply preserves_hasSuccess
    | apply preserves_CalculateNumberOfNeighborCellsLabeledAsBombs
    | apply preserves_openNeighbors_while ]).
Qed.

Lemma preserves_SetIsBomb index b : preserves P (SetIsBomb index b).
Proof. unfold SetIsBomb. pres. Qed.

Lemma preserves_SetNumberOfNeighborBombs index n :
  preserves P (SetNumberOfNeighborBombs index n).
Proof. unfold SetNumberOfNeighborBombs. pres. Qed.

Lemma preserves_plantBomb index : preserves P (plantBomb index).
Proof.
  unfold plantBomb.
  pres_with ltac:(first [apply preserves_SetIsBomb | apply preserves_SetNumberOfNeighborBombs]).
Qed.

Lemma preserves_plantBombs_from draws n : preserves P (plantBombs_from draws n).
Proof.
  revert n. induction draws as [| index draws IH]; intros n g Hg; simpl.
  - destruct (n <? bombs g); [exact I | exact Hg].
  - destruct (n <? bombs g); [| exact Hg].
    pres_with ltac:(first [apply preserves_plantBomb | apply IH]).
Qed.

Lemma preserves_Cell row column : preserves P (Cell row column).
Proof. unfold Cell. pres_with ltac:(apply preserves_cellPtr). Qed.

End Preserves.

(** ** Every reachable game is well formed *)

Lemma wf_setCell index c : preserves wf (setCell index c).
Proof.
  intros g [Hr Hc Hs Hm Hn]. unfold setCell.
  destruct (index <? cells_size g); [| exact I]. simpl.
  assert (Hsize : cells_size (with_cells (<[N.to_nat index := c]> (cells g)) g) = cells_size g).
  { unfold cells_size. simpl. now rewrite length_insert. }
  constructor; simpl; try assumption; rewrite ?Hsize; assumption.
Qed.

Lemma wf_OnModified index : preserves wf (OnModified index).
Proof.
  intros g [Hr Hc Hs Hm Hn]. unfold OnModified, bind, get, internal_check, modify.
  destruct (state_eqb (state g) MGS_Active); [| now constructor].
  destruct (N.ltb_spec index (cells_size g)); [| now constructor]. simpl.
  constructor; simpl; try assumption.
  - change (Forall (fun i => i < cells_size g) (uset_insert index (modifiedCellIndices g))).
    apply Forall_forall. intros y Hy. apply elem_of_uset_insert in Hy.
    destruct Hy as [-> | Hy]; [assumption |]. rewrite Forall_forall in Hm. auto.
  - now apply NoDup_uset_insert.
Qed.

Lemma wf_with_numberOfOpenedCells n g : wf g -> wf (with_numberOfOpenedCells n g).
Proof. intros [Hr Hc Hs Hm Hn]. now constructor. Qed.

Lemma wf_with_state s g : wf g -> wf (with_state s g).
Proof. intros [Hr Hc Hs Hm Hn]. now constructor. Qed.

Lemma wf_with_modifiedCellIndices_nil g : wf g -> wf (with_modifiedCellIndices [] g).
Proof. intros [Hr Hc Hs Hm Hn]. constructor; simpl; auto; constructor. Qed.

Lemma wf_reset : preserves wf reset.
Proof.
  intros g [Hr Hc Hs Hm Hn]. unfold reset, modify. simpl.
  constructor; simpl; auto; constructor.
Qed.

Lemma wf_Open begin_pos fuel index : preserves wf (Open begin_pos fuel index).
Proof.
  apply preserves_OnOpen;
    auto using wf_setCell, wf_OnModified, wf_with_numberOfOpenedCells, wf_with_state.
Qed.

(** ** The state after a flood *)

Lemma not_Success_setCell index c :
  preserves (fun g => state g <> MGS_Success) (setCell index c).
Proof. intros g Hg. unfold setCell. now destruct (index <? cells_size g). Qed.

Lemma not_Success_OnModified index :
  preserves (fun g => state g <> MGS_Success) (OnModified index).
Proof.
  intros g Hg. unfold OnModified, bind, get, internal_check, modify.
  destruct (state_eqb (state g) MGS_Active); [| exact Hg].
  now destruct (index <? cells_size g).
Qed.

(** [openNeighbors] never declares the game won, whatever the counter of
    opened cells comes to. *)
Lemma openNeighbors_never_Success begin_pos fuel index :
  preserves (fun g => state g <> MGS_Success) (openNeighbors begin_pos fuel index).
Proof.
  unfold openNeighbors.
  apply preserves_openNeighbors_while;
    auto using not_Success_setCell, not_Success_OnModified.
Qed.

Lemma wf_RestartGame : preserves wf RestartGame.
Proof.
  unfold RestartGame. apply preserves_bind; [apply wf_reset |]. intros _.
  apply preserves_get_bind. intros g Hg.
  apply (preserves_forEach wf); [| exact Hg]. intros i.
  apply preserves_Close; auto using wf_setCell, wf_OnModified.
Qed.

Lemma wf_ModifiedCells_for s result : preserves wf (ModifiedCells_for s result).
Proof.
  revert result. induction s as [| i s IH]; intros result g Hg; simpl.
  - exact Hg.
  - unfold bind, get. destruct (columns g =? 0); [exact I |]. now apply IH.
Qed.

Lemma wf_ModifiedCells : preserves wf ModifiedCells.
Proof.
  unfold ModifiedCells. apply preserves_get_bind. intros g Hg.
  apply (preserves_bind wf); [apply wf_ModifiedCells_for | | exact Hg].
  intros result. apply preserves_bind; [| intros; apply preserves_ret].
  apply preserves_modify. apply wf_with_modifiedCellIndices_nil.
Qed.

(** [NewGame()] builds a well-formed game out of valid parameters, whatever
    the game was before. *)
Lemma wf_NewGame draws g :
  9 <= rows g <= 24 -> 9 <= columns g <= 30 ->
  post (NewGame draws g) (fun _ g' => wf g') wf.
Proof.
  intros Hr Hc. unfold NewGame.
  rewrite (bind_Ret reset _ g tt _ eq_refl).
  rewrite (bind_Ret (modify _) _ _ tt _ eq_refl).
  apply preserves_plantBombs_from; [apply wf_setCell |].
  constructor; simpl; try assumption; try constructor.
  unfold cells_size. simpl. rewrite length_replicate, N2Nat.id.
  apply wmul_small. change size_t_modulus with 18446744073709551616. nia.
Qed.

Lemma wf_NewGame_with r c b draws g :
  post (NewGame_with r c b draws g) (fun _ g' => wf g') (fun g' => g' = g \/ wf g').
Proof.
  unfold NewGame_with, bind at 1, internal_check at 1.
  destruct ((9 <=? r) && (r <=? 24)) eqn:Hr; [| simpl; now left].
  unfold bind at 1, internal_check at 1.
  destruct ((9 <=? c) && (c <=? 30)) eqn:Hc; [| simpl; now left].
  unfold bind at 1, internal_check at 1.
  destruct ((10 <=? b) && (b <=? bombs_limit r c)); [| simpl; now left].
  rewrite (bind_Ret (modify _) _ _ tt _ eq_refl).
  apply andb_true_iff in Hr, Hc. rewrite !N.leb_le in Hr, Hc.
  eapply post_mono; [apply wf_NewGame | auto | auto]; simpl; lia.
Qed.

Lemma preserves_final_state (P : CMinesweeperGame -> Prop) {A} (m : M A) g g' :
  preserves P m -> P g -> final_state (m g) = Some g' -> P g'.
Proof.
  intros Hm Hg Hfin. specialize (Hm g Hg).
  destruct (m g); simpl in *; congruence.
Qed.

Lemma wf_perform begin_pos c : preserves wf (perform begin_pos c).
Proof.
  destruct c; simpl.
  - intros g Hg. eapply post_mono; [apply wf_NewGame_with | auto |].
    intros g' [-> | Hg']; assumption.
  - intros g Hg. apply wf_NewGame; apply Hg.
  - apply wf_RestartGame.
  - apply preserves_bind; [apply preserves_Cell | intros cell; apply wf_Open].
  - apply preserves_bind; [apply preserves_Cell |].
    intros cell. apply preserves_SetLabel; auto using wf_setCell, wf_OnModified.
  - apply preserves_bind; [apply wf_ModifiedCells | intros; apply preserves_ret].
Qed.

Lemma CreateGame_wf r c b draws g : CreateGame r c b draws = Some g -> wf g.
Proof.
  unfold CreateGame. pose proof (wf_NewGame_with r c b draws newGame) as H.
  destruct (NewGame_with r c b draws newGame); try discriminate.
  intros [= <-]. exact H.
Qed.

Lemma reachable_wf begin_pos g : reachable begin_pos g -> wf g.
Proof.
  induction 1 as [r c b draws g Hg | g c g' _ IH Hfin].
  - eapply CreateGame_wf, Hg.
  - eapply preserves_final_state; [apply wf_perform | exact IH | exact Hfin].
Qed.

Lemma reachable_play begin_pos cs g g' :
  reachable begin_pos g -> play begin_pos cs g = Some g' -> reachable begin_pos g'.
Proof.
  revert g. induction cs as [| c cs IH]; simpl; intros g Hg Hplay.
  - now injection Hplay as <-.
  - destruct (final_state (perform begin_pos c g)) as [g1 |] eqn:Hfin; [| discriminate].
    eapply IH; [| exact Hplay]. eapply reachable_perform; eassumption.
Qed.

Lemma reachable_striped_game begin_pos : reachable begin_pos striped_game.
Proof. apply (reachable_CreateGame begin_pos 9 9 10 striped_draws). vm_compute. reflexivity. Qed.

(** ** The guard of [NumberOfNeighborBombs] *)

(** C9, as the code has it: [NumberOfNeighborBombs()] goes through the public
    [IsBomb()], which itself checks that the cell is opened, so the query
    raises the error for a closed cell as well as for a mine, and returns the
    stored count exactly for an opened cell that is no mine. *)
Theorem NumberOfNeighborBombs_guarded (c : CMinesweeperCell) :
  NumberOfNeighborBombs c =
  if isOpened c && negb (isBomb c) then Returned (numberOfNeighborBombs c) else LogicError.
Proof.
  unfold NumberOfNeighborBombs, IsBomb, IsOpened.
  destruct (isOpened c), (isBomb c); reflexivity.
Qed.

(** C9 as stated fails: a closed cell that is no mine is rejected. *)
Lemma NumberOfNeighborBombs_closed_rejected :
  isOpened newCell = false /\ isBomb newCell = false /\
  NumberOfNeighborBombs newCell = LogicError /\
  NumberOfNeighborBombs newCell <> Returned (numberOfNeighborBombs newCell).
Proof. repeat split. discriminate. Qed.

(** ** [SetLabel] once the game is over *)

(** C10: on a closed cell, with a label that differs from the current one and
    a game that is in [MGS_Failure] or [MGS_Success], [SetLabel] writes the
    label and then throws out of [OnModified]: the game the exception leaves
    has the new label on the cell, the same set of modified indices, and
    nothing else changed. *)
Theorem SetLabel_game_over_mutates g index c newLabel :
  cells g !! N.to_nat index = Some c ->
  isOpened c = false ->
  label c <> newLabel ->
  state g = MGS_Failure \/ state g = MGS_Success ->
  exists g',
    SetLabel index newLabel g = Throw g' /\
    cells g' = <[N.to_nat index := cell_with_label newLabel c]> (cells g) /\
    (exists c', cells g' !! N.to_nat index = Some c' /\ label c' = newLabel /\
                isOpened c' = false) /\
    modifiedCellIndices g' = modifiedCellIndices g /\
    state g' = state g /\
    numberOfOpenedCells g' = numberOfOpenedCells g.
Proof.
  intros Hc Hclosed Hlabel Hstate.
  exists (with_cells (<[N.to_nat index := cell_with_label newLabel c]> (cells g)) g).
  split; [| repeat split].
  - unfold SetLabel. rewrite (bind_Ret _ _ _ _ _ (cellAt_Some _ _ _ Hc)).
    unfold IsOpened. rewrite Hclosed. simpl.
    rewrite (bind_Ret (internal_check true) _ g tt g eq_refl).
    assert (Hneq : label_eqb (label c) newLabel = false)
      by (destruct (label c), newLabel; simpl; congruence).
    rewrite Hneq. simpl.
    rewrite (bind_Ret _ _ _ _ _ (setCell_lt _ _ _ (lookup_Some_lt_size _ _ _ Hc))).
    unfold onModified, OnModified, bind, get, internal_check. simpl.
    destruct Hstate as [-> | ->]; reflexivity.
  - exists (cell_with_label newLabel c). simpl. repeat split; [| assumption].
    apply list_lookup_insert_eq. eapply lookup_lt_Some, Hc.
Qed.

(** At the striped game after its corner mine was opened: a question mark on
    the closed cell (0, 1). *)
Lemma SetLabel_game_over_mutates_witness :
  exists g',
    SetLabel 1 MCL_Question striped_game_lost = Throw g' /\
    cells g' = <[N.to_nat 1 := cell_with_label MCL_Question (mkCell false false MCL_None 2)]> (cells striped_game_lost) /\
    (exists c', cells g' !! N.to_nat 1 = Some c' /\ label c' = MCL_Question /\
                isOpened c' = false) /\
    modifiedCellIndices g' = modifiedCellIndices striped_game_lost /\
    state g' = state striped_game_lost /\
    numberOfOpenedCells g' = numberOfOpenedCells striped_game_lost.
Proof.
  apply (SetLabel_game_over_mutates striped_game_lost 1).
  - reflexivity.
  - reflexivity.
  - discriminate.
  - left. reflexivity.
Defined.

Lemma reachable_striped_game_lost : reachable begin_first striped_game_lost.
Proof.
  apply (reachable_play begin_first [CallOpen 0 0 0] striped_game).
  - apply reachable_striped_game.
  - vm_compute. reflexivity.
Qed.

(** ** [ModifiedCells] *)

Lemma ModifiedCells_for_eq s result g :
  columns g <> 0 ->
  ModifiedCells_for s result g =
  Ret (result ++ map (fun i => (i / columns g, i mod columns g)) s) g.
Proof.
  intros Hc. revert result. induction s as [| i s IH]; intros result; simpl.
  - unfold ret. now rewrite app_nil_r.
  - unfold bind, get. apply N.eqb_neq in Hc. rewrite Hc.
    rewrite IH, <- app_assoc. reflexivity.
Qed.

Lemma coordinates_inj (c i j : N) :
  c <> 0 -> (i / c, i mod c) = (j / c, j mod c) -> i = j.
Proof.
  intros Hc [= Hd Hm].
  rewrite (N.Div0.div_mod i c), (N.Div0.div_mod j c). congruence.
Qed.

Lemma coordinates_of_position (c row column : N) :
  column < c -> ((row * c + column) / c, (row * c + column) mod c) = (row, column).
Proof.
  intros Hc. f_equal.
  - rewrite N.div_add_l by lia. rewrite N.div_small by assumption. lia.
  - rewrite N.add_comm, N.Div0.mod_add. now apply N.mod_small.
Qed.

Lemma ModifiedCells_eq g :
  columns g <> 0 ->
  ModifiedCells g =
  Ret (map (fun i => (i / columns g, i mod columns g)) (modifiedCellIndices g))
      (with_modifiedCellIndices [] g).
Proof.
  intros Hc. unfold ModifiedCells.
  rewrite (bind_Ret get _ g g g eq_refl).
  rewrite (bind_Ret _ _ _ _ _ (ModifiedCells_for_eq _ [] g Hc)).
  reflexivity.
Qed.

(** The notification that feeds the set: in an active game [OnModified]
    records the index of a cell of the grid, once. *)
Lemma OnModified_Active g index :
  state g = MGS_Active -> index < cells_size g ->
  OnModified index g =
  Ret tt (with_modifiedCellIndices (uset_insert index (modifiedCellIndices g)) g).
Proof.
  intros Hs Hi. unfold OnModified, bind, get, internal_check, modify.
  rewrite Hs. simpl. apply N.ltb_lt in Hi. now rewrite Hi.
Qed.

(** In every reachable game [ModifiedCells] returns, for the indices
    recorded since the previous drain, the coordinates [(row, column)] of each
    of them exactly once (the result has no duplicate, no recorded index is
    left out, and every pair returned is the in-grid coordinate of a recorded
    index), it empties the set and changes nothing else, so that a second
    call right after returns the empty collection. *)
Theorem ModifiedCells_drains begin_pos g :
  reachable begin_pos g ->
  exists result,
    ModifiedCells g = Ret result (with_modifiedCellIndices [] g) /\
    NoDup result /\
    length result = length (modifiedCellIndices g) /\
    (forall i, i ∈ modifiedCellIndices g ->
       (i / columns g, i mod columns g) ∈ result /\
       Cell (i / columns g) (i mod columns g) g = Ret i g) /\
    (forall row column, (row, column) ∈ result ->
       row < rows g /\ column < columns g /\
       row * columns g + column ∈ modifiedCellIndices g) /\
    ModifiedCells (with_modifiedCellIndices [] g) = Ret [] (with_modifiedCellIndices [] g).
Proof.
  intros Hreach. apply reachable_wf in Hreach. destruct Hreach as [Hr Hc Hs Hm Hn].
  assert (Hc0 : columns g <> 0) by lia.
  rewrite Forall_forall in Hm.
  assert (Hcoord : forall i, i ∈ modifiedCellIndices g ->
            i / columns g < rows g /\ i mod columns g < columns g /\
            i / columns g * columns g + i mod columns g = i).
  { intros i Hi. apply Hm in Hi. rewrite Hs in Hi. split; [| split].
    - apply N.Div0.div_lt_upper_bound. lia.
    - now apply N.mod_lt.
    - pose proof (N.Div0.div_mod i (columns g)). lia. }
  eexists. split; [apply ModifiedCells_eq, Hc0 |]. split_and!.
  - apply NoDup_fmap_2_strong; [| assumption].
    intros i j _ _. now apply coordinates_inj.
  - apply length_map.
  - intros i Hi. split; [apply list_elem_of_fmap; now exists i |].
    destruct (Hcoord i Hi) as (Hrow & Hcol & Heq).
    unfold Cell. rewrite (bind_Ret get _ g g g eq_refl).
    unfold bind, internal_check, cellPtr.
    apply N.ltb_lt in Hrow, Hcol. rewrite Hrow, Hcol.
    apply N.ltb_lt in Hrow, Hcol.
    assert (Hlt : i < cells_size g) by (now apply Hm).
    rewrite wmul_small by (change size_t_modulus with 18446744073709551616; nia).
    rewrite wadd_small by (change size_t_modulus with 18446744073709551616; nia).
    rewrite Heq. apply N.ltb_lt in Hlt. now rewrite Hlt.
  - intros row column H.
    apply list_elem_of_fmap in H. destruct H as (i & [= -> ->] & Hi).
    destruct (Hcoord i Hi) as (Hrow & Hcol & Heq). rewrite Heq. auto.
  - now rewrite ModifiedCells_eq.
Qed.

(** At the striped game after its corner mine was opened, which has the ten
    mines recorded as modified. *)
Lemma ModifiedCells_drains_witness :
  exists result,
    ModifiedCells striped_game_lost = Ret result (with_modifiedCellIndices [] striped_game_lost) /\
    NoDup result /\
    length result = length (modifiedCellIndices striped_game_lost) /\
    (forall i, i ∈ modifiedCellIndices striped_game_lost ->
       (i / columns striped_game_lost, i mod columns striped_game_lost) ∈ result /\
       Cell (i / columns striped_game_lost) (i mod columns striped_game_lost) striped_game_lost
         = Ret i striped_game_lost) /\
    (forall row column, (row, column) ∈ result ->
       row < rows striped_game_lost /\ column < columns striped_game_lost /\
       row * columns striped_game_lost + column ∈ modifiedCellIndices striped_game_lost) /\
    ModifiedCells (with_modifiedCellIndices [] striped_game_lost)
      = Ret [] (with_modifiedCellIndices [] striped_game_lost).
Proof.
  apply (ModifiedCells_drains begin_first striped_game_lost).
  apply reachable_striped_game_lost.
Defined.

(** C7 fails on a game that is over.  The striped game is lost by [Open] on
    the mine (0, 0) and [ModifiedCells] empties the set; then
    [Cell( 0, 1 )->SetLabel( MCL_Question )] on the closed, unlabelled cell
    writes the label and throws out of the state check of [OnModified],
    before the index is inserted.  In the game the exception leaves, which
    the code reaches, the cell (0, 1) has been modified since the drain and
    [ModifiedCells] returns the empty collection: its coordinate is left
    out, although the interface says of [ModifiedCells] that it returns the
    positions of the cells modified since the previous call and gives
    [SetLabel] no other condition than a closed cell.  The check of
    [SetLabel] that the cell is closed and the state check of [OnOpen] come
    before the changes they guard. *)
Theorem ModifiedCells_omits_relabelled_cell :
  play begin_first [CallOpen 0 0 0; CallModifiedCells] striped_game
    = Some striped_game_drained /\
  modifiedCellIndices striped_game_drained = [] /\
  perform begin_first (CallSetLabel 0 1 MCL_Question) striped_game_drained
    = Throw striped_game_relabelled /\
  cells striped_game_drained !! 1%nat = Some (mkCell false false MCL_None 2) /\
  cells striped_game_relabelled !! 1%nat = Some (mkCell false false MCL_Question 2) /\
  reachable begin_first striped_game_relabelled /\
  ModifiedCells striped_game_relabelled = Ret [] striped_game_relabelled.
Proof.
  split_and!; try (vm_compute; reflexivity).
  - apply (reachable_play begin_first
             [CallModifiedCells; CallSetLabel 0 1 MCL_Question] striped_game_lost).
    + apply reachable_striped_game_lost.
    + vm_compute. reflexivity.
Qed.

(** ** [RestartGame] *)

Lemma Close_Active g index c :
  state g = MGS_Active -> cells g !! N.to_nat index = Some c ->
  Close index g =
  Ret tt (with_modifiedCellIndices (uset_insert index (modifiedCellIndices g))
            (with_cells (<[N.to_nat index := cell_closed c]> (cells g)) g)).
Proof.
  intros Hs Hc. unfold Close.
  rewrite (bind_Ret _ _ _ _ _ (cellAt_Some _ _ _ Hc)).
  rewrite (bind_Ret _ _ _ _ _ (setCell_lt _ _ _ (lookup_Some_lt_size _ _ _ Hc))).
  unfold onModified. rewrite OnModified_Active; [reflexivity | exact Hs |].
  unfold cells_size. simpl. rewrite length_insert.
  apply (lookup_Some_lt_size _ _ _ Hc).
Qed.

Lemma cell_closed_idemp c : cell_closed (cell_closed c) = cell_closed c.
Proof. reflexivity. Qed.

(** The loop of [RestartGame], over any list of positions of the grid. *)
Lemma forEach_Close l : forall g,
  state g = MGS_Active ->
  Forall (fun i => i < cells_size g) l ->
  exists g',
    forEach l Close g = Ret tt g' /\
    state g' = MGS_Active /\ rows g' = rows g /\ columns g' = columns g /\
    bombs g' = bombs g /\ numberOfOpenedCells g' = numberOfOpenedCells g /\
    length (cells g') = length (cells g) /\
    (forall j c, cells g !! j = Some c ->
       cells g' !! j = Some (if decide (N.of_nat j ∈ l) then cell_closed c else c)) /\
    (NoDup (modifiedCellIndices g) -> NoDup (modifiedCellIndices g')) /\
    (forall i, i ∈ modifiedCellIndices g' <-> i ∈ modifiedCellIndices g \/ i ∈ l).
Proof.
  induction l as [| x l IH]; intros g Hs Hl; simpl.
  - exists g. split_and!; try reflexivity; auto.
    intros i. rewrite elem_of_nil. tauto.
  - apply Forall_cons in Hl. destruct Hl as [Hx Hl].
    destruct (cellAt_lt g x Hx) as (cx & Hcx & _).
    rewrite (bind_Ret _ _ _ _ _ (Close_Active g x cx Hs Hcx)).
    set (g1 := with_modifiedCellIndices _ _).
    assert (Hsize1 : cells_size g1 = cells_size g).
    { unfold cells_size, g1. simpl. now rewrite length_insert. }
    destruct (IH g1) as (g' & Hrun & Hs' & Hr' & Hc' & Hb' & Hn' & Hlen' & Hcells' & Hnd' & Hmod').
    { exact Hs. }
    { now rewrite Hsize1. }
    exists g'. split_and!; try assumption.
    + rewrite Hlen'. unfold g1. simpl. apply length_insert.
    + intros j c Hc.
      destruct (decide (j = N.to_nat x)) as [-> | Hne].
      * assert (c = cx) by congruence. subst c.
        rewrite (Hcells' (N.to_nat x) (cell_closed cx)).
        2:{ unfold g1. simpl. apply list_lookup_insert_eq. eapply lookup_lt_Some, Hcx. }
        rewrite cell_closed_idemp, (decide_True (P := N.of_nat (N.to_nat x) ∈ x :: l)).
        -- now destruct (decide _).
        -- rewrite N2Nat.id. apply list_elem_of_here.
      * rewrite (Hcells' j c).
        2:{ unfold g1. simpl. rewrite list_lookup_insert_ne by congruence. exact Hc. }
        destruct (decide (N.of_nat j ∈ l)) as [Hin | Hnin].
        -- rewrite decide_True; [reflexivity | now apply list_elem_of_further].
        -- rewrite decide_False; [reflexivity |].
           intros Hin. apply elem_of_cons in Hin. destruct Hin as [Heq | Hin]; [| tauto].
           apply Hne. subst x. now rewrite Nat2N.id.
    + intros Hnd. apply Hnd'. unfold g1. simpl. now apply NoDup_uset_insert.
    + intros i. rewrite Hmod'. unfold g1. simpl.
      rewrite elem_of_uset_insert, elem_of_cons. tauto.
Qed.

Lemma elem_of_indices g i : i ∈ indices g <-> i < cells_size g.
Proof.
  unfold indices, cells_size. rewrite list_elem_of_fmap. split.
  - intros (j & -> & Hj). apply list_elem_of_In, in_seq in Hj. lia.
  - intros Hi. exists (N.to_nat i). split; [now rewrite N2Nat.id |].
    apply list_elem_of_In, in_seq. lia.
Qed.

(** C8: in every reachable game [RestartGame] returns and leaves the mine
    flag and the stored count of every cell as they were, with every cell
    closed and labelled [MCL_None], the counter of opened cells at 0, the
    state [MGS_Active], and every one of the [rows * columns] indices recorded
    once as modified; the drain that follows returns all the coordinates. *)
Theorem RestartGame_keeps_mines begin_pos g :
  reachable begin_pos g ->
  exists g',
    RestartGame g = Ret tt g' /\
    rows g' = rows g /\ columns g' = columns g /\ bombs g' = bombs g /\
    length (cells g') = length (cells g) /\
    (forall j c, cells g !! j = Some c ->
       exists c', cells g' !! j = Some c' /\
                  isBomb c' = isBomb c /\
                  numberOfNeighborBombs c' = numberOfNeighborBombs c /\
                  isOpened c' = false /\ label c' = MCL_None) /\
    numberOfOpenedCells g' = 0 /\
    state g' = MGS_Active /\
    NoDup (modifiedCellIndices g') /\
    (forall i, i ∈ modifiedCellIndices g' <-> i < rows g * columns g) /\
    exists result g'',
      ModifiedCells g' = Ret result g'' /\
      NoDup result /\
      forall row column, (row, column) ∈ result <-> row < rows g /\ column < columns g.
Proof.
  intros Hreach. pose proof (reachable_wf _ _ Hreach) as [Hr Hc Hs Hm Hn].
  unfold RestartGame.
  rewrite (bind_Ret reset _ g tt _ eq_refl).
  set (g1 := {| state := MGS_Active; rows := rows g; columns := columns g; bombs := bombs g;
                cells := cells g; numberOfOpenedCells := 0; modifiedCellIndices := [] |}).
  rewrite (bind_Ret get _ g1 g1 g1 eq_refl).
  destruct (forEach_Close (indices g1) g1)
    as (g' & Hrun & Hs' & Hr' & Hc' & Hb' & Hn' & Hlen' & Hcells' & Hnd' & Hmod').
  { reflexivity. }
  { apply Forall_forall. intros i Hi. now apply elem_of_indices. }
  assert (Hall : forall i, i ∈ modifiedCellIndices g' <-> i < rows g * columns g).
  { intros i. rewrite Hmod', elem_of_indices. simpl. rewrite elem_of_nil.
    change (cells_size g1) with (cells_size g). rewrite Hs. tauto. }
  assert (Hnd : NoDup (modifiedCellIndices g')) by (apply Hnd'; constructor).
  exists g'. split_and!; try assumption.
  - intros j c Hj. exists (cell_closed c). split; [| now repeat split].
    rewrite (Hcells' j c Hj). rewrite decide_True; [reflexivity |].
    apply elem_of_indices. apply lookup_lt_Some in Hj.
    unfold cells_size. simpl. lia.
  - assert (Hc0 : columns g' <> 0) by (rewrite Hc'; simpl; lia).
    eexists _, _. split; [apply ModifiedCells_eq, Hc0 |]. split.
    + apply NoDup_fmap_2_strong; [| assumption].
      intros i j _ _. now apply coordinates_inj.
    + intros row column. rewrite list_elem_of_fmap. rewrite Hc'. simpl. split.
      * intros (i & [= -> ->] & Hi). apply Hall in Hi. split.
        -- apply N.Div0.div_lt_upper_bound. lia.
        -- apply N.mod_lt. lia.
      * intros [Hrow Hcol]. exists (row * columns g + column). split.
        -- now rewrite coordinates_of_position.
        -- apply Hall. nia.
Qed.

(** At the striped game after its corner mine was opened. *)
Lemma RestartGame_keeps_mines_witness :
  exists g',
    RestartGame striped_game_lost = Ret tt g' /\
    rows g' = rows striped_game_lost /\ columns g' = columns striped_game_lost /\
    bombs g' = bombs striped_game_lost /\
    length (cells g') = length (cells striped_game_lost) /\
    (forall j c, cells striped_game_lost !! j = Some c ->
       exists c', cells g' !! j = Some c' /\
                  isBomb c' = isBomb c /\
                  numberOfNeighborBombs c' = numberOfNeighborBombs c /\
                  isOpened c' = false /\ label c' = MCL_None) /\
    numberOfOpenedCells g' = 0 /\
    state g' = MGS_Active /\
    NoDup (modifiedCellIndices g') /\
    (forall i, i ∈ modifiedCellIndices g' <->
               i < rows striped_game_lost * columns striped_game_lost) /\
    exists result g'',
      ModifiedCells g' = Ret result g'' /\
      NoDup result /\
      forall row column, (row, column) ∈ result <->
        row < rows striped_game_lost /\ column < columns striped_game_lost.
Proof.
  apply (RestartGame_keeps_mines begin_first striped_game_lost).
  apply reachable_striped_game_lost.
Defined.

(** ** Opening a mine *)

Lemma InternalOpen_Active g index c :
  state g = MGS_Active -> cells g !! N.to_nat index = Some c ->
  InternalOpen index g =
  Ret tt (if isOpened c then g
          else with_modifiedCellIndices (uset_insert index (modifiedCellIndices g))
                 (with_cells (<[N.to_nat index := cell_opened c]> (cells g)) g)).
Proof.
  intros Hs Hc. unfold InternalOpen.
  rewrite (bind_Ret _ _ _ _ _ (cellAt_Some _ _ _ Hc)).
  destruct (isOpened c); [reflexivity |]. simpl.
  rewrite (bind_Ret _ _ _ _ _ (setCell_lt _ _ _ (lookup_Some_lt_size _ _ _ Hc))).
  unfold onModified. rewrite OnModified_Active; [reflexivity | exact Hs |].
  unfold cells_size. simpl. rewrite length_insert.
  apply (lookup_Some_lt_size _ _ _ Hc).
Qed.

(** The loop of [openBombs], over any list of positions of the grid. *)
Lemma forEach_openBombs l : forall g,
  state g = MGS_Active ->
  Forall (fun i => i < cells_size g) l ->
  exists g',
    forEach l (fun i => let* c := cellAt i in
                        if GetIsBomb c then InternalOpen i else ret tt) g = Ret tt g' /\
    state g' = MGS_Active /\
    numberOfOpenedCells g' = numberOfOpenedCells g /\
    length (cells g') = length (cells g) /\
    forall j c, cells g !! j = Some c ->
      exists c', cells g' !! j = Some c' /\ isBomb c' = isBomb c /\
                 (isBomb c = false -> c' = c) /\
                 (isOpened c = true -> isOpened c' = true) /\
                 (N.of_nat j ∈ l -> isBomb c = true -> isOpened c' = true).
Proof.
  induction l as [| x l IH]; intros g Hs Hl; simpl.
  - exists g. split_and!; try reflexivity; try assumption.
    intros j c Hc. exists c. split_and!; auto.
    intros Hin. now apply elem_of_nil in Hin.
  - apply Forall_cons in Hl. destruct Hl as [Hx Hl].
    destruct (cellAt_lt g x Hx) as (cx & Hcx & Hread).
    rewrite (bind_Ret _ _ g tt
      (if GetIsBomb cx && negb (isOpened cx)
       then with_modifiedCellIndices (uset_insert x (modifiedCellIndices g))
              (with_cells (<[N.to_nat x := cell_opened cx]> (cells g)) g)
       else g)).
    2:{ rewrite (bind_Ret _ _ _ _ _ Hread). unfold GetIsBomb.
        destruct (isBomb cx); simpl; [| reflexivity].
        rewrite (InternalOpen_Active g x cx Hs Hcx). now destruct (isOpened cx). }
    match goal with |- context [forEach l _ ?gg] => set (g1 := gg) end.
    assert (Hg1 : state g1 = MGS_Active /\ numberOfOpenedCells g1 = numberOfOpenedCells g /\
                  length (cells g1) = length (cells g) /\
                  forall j c, cells g !! j = Some c ->
                    cells g1 !! j =
                    Some (if decide (j = N.to_nat x)
                          then (if isBomb c && negb (isOpened c) then cell_opened c else c)
                          else c)).
    { unfold g1. destruct (GetIsBomb cx && negb (isOpened cx)) eqn:Hb; simpl.
      - split_and!; auto using length_insert.
        intros j c Hc. destruct (decide (j = N.to_nat x)) as [-> | Hne].
        + assert (c = cx) by congruence. subst c. unfold GetIsBomb in Hb. rewrite Hb.
          apply list_lookup_insert_eq. eapply lookup_lt_Some, Hcx.
        + now rewrite list_lookup_insert_ne by congruence.
      - split_and!; auto.
        intros j c Hc. destruct (decide (j = N.to_nat x)) as [-> | Hne]; [| assumption].
        assert (c = cx) by congruence. subst c. unfold GetIsBomb in Hb. now rewrite Hb. }
    destruct Hg1 as (Hs1 & Hn1 & Hlen1 & Hcells1).
    destruct (IH g1 Hs1) as (g' & Hrun & Hs' & Hn' & Hlen' & Hcells').
    { unfold cells_size in *. now rewrite Hlen1. }
    exists g'. split_and!; try congruence.
    intros j c Hc. specialize (Hcells1 j c Hc).
    destruct (Hcells' _ _ Hcells1) as (c' & Hc' & Hbomb & Hsame & Hopen & Hin).
    exists c'. split; [exact Hc' |].
    destruct (decide (j = N.to_nat x)) as [-> | Hne].
    + destruct (isBomb c) eqn:Hb, (isOpened c) eqn:Ho; simpl in *;
        split_and!; auto; try congruence.
    + split_and!; auto. intros Hj. apply elem_of_cons in Hj.
      destruct Hj as [Heq | Hj]; [| auto].
      exfalso. apply Hne. rewrite <- Heq. now rewrite Nat2N.id.
Qed.

Lemma openBombs_Active g :
  state g = MGS_Active ->
  exists g',
    openBombs g = Ret tt g' /\
    state g' = MGS_Failure /\
    numberOfOpenedCells g' = numberOfOpenedCells g /\
    length (cells g') = length (cells g) /\
    forall j c, cells g !! j = Some c ->
      exists c', cells g' !! j = Some c' /\ isBomb c' = isBomb c /\
                 (isBomb c = false -> c' = c) /\
                 (isBomb c = true -> isOpened c' = true).
Proof.
  intros Hs. unfold openBombs. rewrite (bind_Ret get _ g g g eq_refl).
  destruct (forEach_openBombs (indices g) g Hs) as (g1 & Hrun & Hs1 & Hn1 & Hlen1 & Hcells1).
  { apply Forall_forall. intros i. apply elem_of_indices. }
  rewrite (bind_Ret _ _ _ _ _ Hrun).
  exists (with_state MGS_Failure g1). split_and!; auto.
  intros j c Hc. destruct (Hcells1 j c Hc) as (c' & Hc' & Hb & Hsame & _ & Hin).
  exists c'. split_and!; auto. apply Hin.
  apply elem_of_indices, index_lt_size. rewrite Nat2N.id. eapply lookup_lt_Some, Hc.
Qed.

Lemma post_bind_mono {A B} (m : M A) (k : A -> M B) g
    (Q1 : A -> CMinesweeperGame -> Prop) (E1 : CMinesweeperGame -> Prop) Q E :
  post (m g) Q1 E1 ->
  (forall a g', Q1 a g' -> post (k a g') Q E) ->
  (forall g', E1 g' -> E g') ->
  post (bind m k g) Q E.
Proof. intros Hm Hk HE. apply post_bind. eapply post_mono; eauto. Qed.

Lemma post_bind_cellAt {B} index (k : CMinesweeperCell -> M B) g Q E :
  (forall c, cells g !! N.to_nat index = Some c -> post (k c g) Q E) ->
  post (bind (cellAt index) k g) Q E.
Proof.
  intros Hk. unfold bind, cellAt.
  destruct (cells g !! N.to_nat index) as [c |]; [now apply Hk | exact I].
Qed.

Lemma open_skip g index c :
  cells g !! N.to_nat index = Some c ->
  isOpened c = true \/ label c <> MCL_None ->
  open index g = Ret true g.
Proof.
  intros Hc Hskip. unfold open.
  rewrite (bind_Ret _ _ _ _ _ (cellAt_Some _ _ _ Hc)).
  unfold IsOpened, Label.
  destruct Hskip as [-> | Hl]; [reflexivity |].
  destruct (label c); try congruence; now rewrite andb_false_r.
Qed.

Lemma open_safe g index c :
  state g = MGS_Active ->
  cells g !! N.to_nat index = Some c ->
  isOpened c = false -> label c = MCL_None -> isBomb c = false ->
  open index g =
  Ret true
    (with_numberOfOpenedCells (wadd (numberOfOpenedCells g) 1)
       (with_modifiedCellIndices (uset_insert index (modifiedCellIndices g))
          (with_cells (<[N.to_nat index := cell_opened c]> (cells g)) g))).
Proof.
  intros Hs Hc Ho Hl Hb. unfold open.
  rewrite (bind_Ret _ _ _ _ _ (cellAt_Some _ _ _ Hc)).
  unfold IsOpened, Label. rewrite Ho, Hl. simpl.
  rewrite (bind_Ret _ _ _ _ _ (InternalOpen_Active g index c Hs Hc)). rewrite Ho.
  set (g1 := with_modifiedCellIndices _ _).
  assert (Hc1 : cells g1 !! N.to_nat index = Some (cell_opened c)).
  { unfold g1. simpl. apply list_lookup_insert_eq. eapply lookup_lt_Some, Hc. }
  rewrite (bind_Ret _ _ _ _ _ (cellAt_Some _ _ _ Hc1)).
  unfold GetIsBomb. simpl. rewrite Hb. reflexivity.
Qed.

Lemma open_mine g index c :
  state g = MGS_Active ->
  cells g !! N.to_nat index = Some c ->
  isOpened c = false -> label c = MCL_None -> isBomb c = true ->
  exists g',
    open index g = Ret false g' /\
    state g' = MGS_Failure /\
    numberOfOpenedCells g' = numberOfOpenedCells g /\
    length (cells g') = length (cells g) /\
    forall j cj, cells g !! j = Some cj ->
      exists c', cells g' !! j = Some c' /\ isBomb c' = isBomb cj /\
                 (isBomb cj = false -> c' = cj) /\
                 (isBomb cj = true -> isOpened c' = true).
Proof.
  intros Hs Hc Ho Hl Hb. unfold open.
  rewrite (bind_Ret _ _ _ _ _ (cellAt_Some _ _ _ Hc)).
  unfold IsOpened, Label. rewrite Ho, Hl. simpl.
  rewrite (bind_Ret _ _ _ _ _ (InternalOpen_Active g index c Hs Hc)). rewrite Ho.
  set (g1 := with_modifiedCellIndices _ _).
  assert (Hc1 : cells g1 !! N.to_nat index = Some (cell_opened c)).
  { unfold g1. simpl. apply list_lookup_insert_eq. eapply lookup_lt_Some, Hc. }
  rewrite (bind_Ret _ _ _ _ _ (cellAt_Some _ _ _ Hc1)).
  unfold GetIsBomb. simpl. rewrite Hb.
  destruct (openBombs_Active g1 Hs) as (g' & Hrun & Hs' & Hn' & Hlen' & Hcells').
  rewrite (bind_Ret _ _ _ _ _ Hrun).
  exists g'. split_and!; auto.
  - rewrite Hlen'. unfold g1. simpl. apply length_insert.
  - intros j cj Hj. destruct (decide (j = N.to_nat index)) as [-> | Hne].
    + assert (cj = c) by congruence. subst cj.
      destruct (Hcells' _ _ Hc1) as (c' & Hc' & Hb' & Hsame' & Hopen').
      exists c'. simpl in *. split_and!; auto. congruence.
    + apply Hcells'. unfold g1. simpl. now rewrite list_lookup_insert_ne by congruence.
Qed.

Lemma same_mines_refl g : same_mines g g.
Proof. split; [reflexivity |]. intros j c Hc. now exists c. Qed.

Lemma no_mine_opened_refl g : no_mine_opened g g.
Proof. intros j c c' Hc Hc' _ Ho. congruence. Qed.

Lemma before_hit_refl g : state g = MGS_Active -> before_hit g g.
Proof. intros Hs. split; [exact Hs |]. split; [apply same_mines_refl | apply no_mine_opened_refl]. Qed.

Lemma open_before_hit g0 g index :
  before_hit g0 g ->
  post (open index g)
    (fun ok g' => if ok then before_hit g0 g' else mine_hit g0 g')
    (fun _ => False).
Proof.
  intros (Hs & (Hlen & Hmines) & Hquiet).
  destruct (cells g !! N.to_nat index) as [c |] eqn:Hc.
  2:{ unfold open, bind, cellAt. now rewrite Hc. }
  destruct (isOpened c) eqn:Ho.
  { rewrite (open_skip g index c Hc) by auto. simpl. repeat split; assumption. }
  destruct (label_eqb (label c) MCL_None) eqn:Hl.
  2:{ rewrite (open_skip g index c Hc).
      - simpl. repeat split; assumption.
      - right. intros Heq. rewrite Heq in Hl. discriminate. }
  assert (Hl' : label c = MCL_None) by (destruct (label c); simpl in Hl; congruence).
  destruct (isBomb c) eqn:Hb.
  - destruct (open_mine g index c Hs Hc Ho Hl' Hb) as (g' & Hrun & Hs' & Hn' & Hlen' & Hcells').
    rewrite Hrun. simpl. split; [exact Hs' |]. split.
    + intros j c' Hc' Hb'.
      assert (Hj : is_Some (cells g !! j)).
      { apply lookup_lt_is_Some. rewrite <- Hlen'. eapply lookup_lt_Some, Hc'. }
      destruct Hj as [cj Hcj]. destruct (Hcells' j cj Hcj) as (c'' & Hc'' & Hb'' & _ & Hopen).
      assert (c'' = c') by congruence. subst c''. apply Hopen. congruence.
    + exists index, g. split_and!; auto.
      * repeat split; assumption.
      * intros j cj Hcj Hbj. destruct (Hcells' j cj Hcj) as (c'' & Hc'' & _ & Hsame & _).
        now rewrite Hc'', Hsame.
  - rewrite (open_safe g index c Hs Hc Ho Hl' Hb). simpl.
    split; [exact Hs |]. split; [split |]; simpl.
    + now rewrite length_insert.
    + intros j c0 Hc0. destruct (Hmines j c0 Hc0) as (cj & Hcj & Hbj).
      destruct (decide (j = N.to_nat index)) as [-> | Hne].
      * exists (cell_opened c). split.
        -- apply list_lookup_insert_eq. eapply lookup_lt_Some, Hc.
        -- simpl. congruence.
      * exists cj. now rewrite list_lookup_insert_ne by congruence.
    + intros j c0 c' Hc0 Hc' Hb' Ho0. simpl in Hc'.
      destruct (decide (j = N.to_nat index)) as [-> | Hne].
      * rewrite list_lookup_insert_eq in Hc' by (eapply lookup_lt_Some, Hc).
        injection Hc' as <-. simpl in Hb'. congruence.
      * rewrite list_lookup_insert_ne in Hc' by congruence. eapply Hquiet; eassumption.
Qed.

Lemma openNeighbors_for_before_hit g0 neighbors : forall unprocessed g,
  before_hit g0 g ->
  post (openNeighbors_for neighbors unprocessed g)
    (fun r g' => match r with
                 | Some _ => before_hit g0 g'
                 | None => mine_hit g0 g'
                 end)
    (fun _ => False).
Proof.
  induction neighbors as [| x neighbors IH]; intros unprocessed g Hg; simpl.
  - exact Hg.
  - apply post_bind_cellAt. intros c Hc.
    destruct (negb (IsOpened c)); [| now apply IH].
    eapply post_bind_mono; [apply open_before_hit, Hg | | auto].
    intros [|] g' Hg'; simpl; [| exact Hg'].
    apply post_bind_cellAt. intros c' Hc'.
    destruct (GetNumberOfNeighborBombs c' =? 0); now apply IH.
Qed.

Lemma openNeighbors_while_before_hit begin_pos g0 fuel : forall unprocessed g,
  before_hit g0 g ->
  post (openNeighbors_while begin_pos fuel unprocessed g)
    (fun _ g' => before_hit g0 g' \/ mine_hit g0 g')
    (before_hit g0).
Proof.
  induction fuel as [| fuel IH]; intros [| x unprocessed] g Hg; simpl; auto.
  apply post_bind. apply findNeighbors_post; [| auto].
  intros _ ns _.
  eapply post_bind_mono; [apply openNeighbors_for_before_hit, Hg | | intros ? []].
  intros [w |] g' Hg'; simpl; [now apply IH | now right].
Qed.

Lemma hasSuccess_Active g :
  state g = MGS_Active ->
  hasSuccess g =
  if numberOfOpenedCells g <=? wsub (cells_size g) (bombs g) then
    if numberOfOpenedCells g =? wsub (cells_size g) (bombs g)
    then Ret true (with_state MGS_Success g)
    else Ret false g
  else Throw g.
Proof.
  intros Hs. unfold hasSuccess. rewrite (bind_Ret get _ g g g eq_refl).
  rewrite Hs. simpl. rewrite (bind_Ret (internal_check true) _ g tt g eq_refl).
  unfold bind at 1, internal_check.
  destruct (numberOfOpenedCells g <=? wsub (cells_size g) (bombs g)); [| reflexivity].
  destruct (numberOfOpenedCells g =? wsub (cells_size g) (bombs g)).
  - reflexivity.
  - unfold bind, ret, get. now rewrite Hs.
Qed.

Lemma OnOpen_game_over begin_pos fuel index g :
  state g <> MGS_Active -> OnOpen begin_pos fuel index g = Throw g.
Proof.
  intros Hs. unfold OnOpen. rewrite (bind_Ret get _ g g g eq_refl).
  apply bind_Throw. unfold internal_check. now destruct (state g).
Qed.

Lemma OnOpen_before_hit begin_pos fuel index g :
  state g = MGS_Active ->
  post (OnOpen begin_pos fuel index g)
    (fun _ g' => (same_mines g g' /\ no_mine_opened g g') \/ mine_hit g g')
    (fun g' => same_mines g g' /\ no_mine_opened g g').
Proof.
  intros Hs. pose proof (before_hit_refl g Hs) as Hg.
  assert (Hquiet : forall g', before_hit g g' -> same_mines g g' /\ no_mine_opened g g')
    by (intros g' (_ & H1 & H2); auto).
  unfold OnOpen. rewrite (bind_Ret get _ g g g eq_refl).
  rewrite Hs. simpl. rewrite (bind_Ret (internal_check true) _ g tt g eq_refl).
  unfold bind at 1, internal_check.
  destruct (index <? cells_size g); [| simpl; auto].
  apply post_bind_cellAt. intros cell Hcell.
  destruct (IsOpened cell).
  - eapply post_bind_mono;
      [apply (preserves_CalculateNumberOfNeighborCellsLabeledAsBombs (fun g' => g' = g));
       reflexivity | | intros g' ->; auto].
    intros labeled g' ->.
    destruct (GetNumberOfNeighborBombs cell =? labeled); [| simpl; auto].
    eapply post_mono; [apply openNeighbors_while_before_hit, Hg | | auto].
    intros _ g' [H | H]; auto.
  - eapply post_bind_mono; [apply open_before_hit, Hg | | intros ? []].
    intros [|] g1 Hg1; simpl; [| now right].
    destruct Hg1 as (Hs1 & Hm1 & Hq1).
    unfold bind at 1. rewrite (hasSuccess_Active g1 Hs1).
    destruct (numberOfOpenedCells g1 <=? wsub (cells_size g1) (bombs g1)); [| simpl; auto].
    destruct (numberOfOpenedCells g1 =? wsub (cells_size g1) (bombs g1)).
    + apply post_bind_cellAt. intros cell' _. simpl. left. split; [exact Hm1 | exact Hq1].
    + apply post_bind_cellAt. intros cell' _. simpl.
      destruct (GetNumberOfNeighborBombs cell' =? 0); [| simpl; auto].
      eapply post_mono;
        [apply openNeighbors_while_before_hit; exact (conj Hs1 (conj Hm1 Hq1)) | | auto].
      intros _ g' [H | H]; auto.
Qed.

(** [Open] on a closed, unlabelled mine does come back, whatever the fuel,
    and has opened a mine. *)
Lemma Open_closed_mine begin_pos fuel index g c :
  state g = MGS_Active ->
  cells g !! N.to_nat index = Some c ->
  isOpened c = false -> label c = MCL_None -> isBomb c = true ->
  exists g', Open begin_pos fuel index g = Ret tt g' /\ opens_a_mine g g'.
Proof.
  intros Hs Hc Ho Hl Hb.
  destruct (open_mine g index c Hs Hc Ho Hl Hb) as (g' & Hrun & _ & _ & _ & Hcells).
  exists g'. split.
  - unfold Open, OnOpen. rewrite (bind_Ret get _ g g g eq_refl).
    rewrite Hs. simpl. rewrite (bind_Ret (internal_check true) _ g tt g eq_refl).
    pose proof (lookup_Some_lt_size _ _ _ Hc) as Hlt. apply N.ltb_lt in Hlt.
    rewrite Hlt. rewrite (bind_Ret (internal_check true) _ g tt g eq_refl).
    rewrite (bind_Ret _ _ _ _ _ (cellAt_Some _ _ _ Hc)).
    unfold IsOpened. rewrite Ho.
    rewrite (bind_Ret _ _ _ _ _ Hrun). reflexivity.
  - destruct (Hcells _ _ Hc) as (c' & Hc' & Hb' & _ & Hopen).
    exists (N.to_nat index), c, c'. split_and!; auto. congruence.
Qed.

(** C5: in an active game, when a call of [Open] comes back and has opened a
    cell whose mine flag is set, it has come back by a normal return, the
    game is in [MGS_Failure], every cell whose mine flag is set is opened, and
    the game is as the failing [open] left it: that [open] was called before
    any mine was opened, and after it nothing ran, so the counter of opened
    cells and every cell that is no mine are as they were at the hit.
    From then on [Open] on any cell throws and leaves the game as it is. *)
Theorem Open_mine_ends_game begin_pos fuel index g g' :
  state g = MGS_Active ->
  final_state (Open begin_pos fuel index g) = Some g' ->
  opens_a_mine g g' ->
  Open begin_pos fuel index g = Ret tt g' /\
  state g' = MGS_Failure /\
  all_mines_opened g' /\
  (exists i g1,
     before_hit g g1 /\ open i g1 = Ret false g' /\
     numberOfOpenedCells g' = numberOfOpenedCells g1 /\
     forall j c, cells g1 !! j = Some c -> isBomb c = false -> cells g' !! j = Some c) /\
  (forall fuel' index', Open begin_pos fuel' index' g' = Throw g').
Proof.
  intros Hs Hfin (j & c & c' & Hc & Hc' & Hb & Ho & Ho').
  pose proof (OnOpen_before_hit begin_pos fuel index g Hs) as Hpost.
  unfold Open in *.
  assert (Hno : ~ no_mine_opened g g').
  { intros Hq. specialize (Hq j c c' Hc Hc' Hb Ho). congruence. }
  destruct (OnOpen begin_pos fuel index g) as [[] g2 | g2 | |]; simpl in *;
    try discriminate; injection Hfin as ->.
  - destruct Hpost as [[_ Hq] | (Hs' & Hall & Hhit)]; [contradiction |].
    split_and!; auto.
    intros fuel' index'. apply OnOpen_game_over. congruence.
  - destruct Hpost as [_ Hq]. contradiction.
Qed.

(** At the striped game: [Open] on the mine in the corner (0, 0). *)
Lemma Open_mine_ends_game_witness :
  Open begin_first 0 0 striped_game = Ret tt striped_game_lost /\
  state striped_game_lost = MGS_Failure /\
  all_mines_opened striped_game_lost /\
  (exists i g1,
     before_hit striped_game g1 /\ open i g1 = Ret false striped_game_lost /\
     numberOfOpenedCells striped_game_lost = numberOfOpenedCells g1 /\
     forall j c, cells g1 !! j = Some c -> isBomb c = false ->
                 cells striped_game_lost !! j = Some c) /\
  (forall fuel' index', Open begin_first fuel' index' striped_game_lost = Throw striped_game_lost).
Proof.
  apply (Open_mine_ends_game begin_first 0 0 striped_game striped_game_lost).
  - reflexivity.
  - vm_compute. reflexivity.
  - exists 0%nat, (mkCell true false MCL_None 0), (mkCell true true MCL_None 0).
    repeat split.
Defined.

(** ** Every change of an active game is recorded *)

Lemma cell_eq_dec (c1 c2 : CMinesweeperCell) : {c1 = c2} + {c1 <> c2}.
Proof.
  decide equality; try apply N.eq_dec; try apply Bool.bool_dec.
  decide equality.
Qed.

Lemma changes_recorded_refl g : changes_recorded g g.
Proof. split_and!; auto. intros j c c' Hc Hc' Hne. congruence. Qed.

Lemma changes_recorded_trans g1 g2 g3 :
  changes_recorded g1 g2 -> changes_recorded g2 g3 -> changes_recorded g1 g3.
Proof.
  intros (Hlen12 & Hsub12 & Hrec12) (Hlen23 & Hsub23 & Hrec23).
  split_and!; [congruence | auto |].
  intros j c1 c3 Hc1 Hc3 Hne.
  assert (Hj : is_Some (cells g2 !! j)).
  { apply lookup_lt_is_Some. rewrite Hlen12. eapply lookup_lt_Some, Hc1. }
  destruct Hj as [c2 Hc2].
  destruct (cell_eq_dec c2 c1) as [-> | Hdiff].
  - now apply (Hrec23 j c1 c3 Hc2 Hc3).
  - now apply Hsub23, (Hrec12 j c1 c2 Hc1 Hc2).
Qed.

Lemma InternalOpen_recorded g0 g index :
  state g = MGS_Active -> changes_recorded g0 g ->
  post (InternalOpen index g)
    (fun _ g' => state g' = MGS_Active /\ changes_recorded g0 g') (fun _ => False).
Proof.
  intros Hs Hg.
  destruct (cells g !! N.to_nat index) as [c |] eqn:Hc.
  2:{ unfold InternalOpen, bind, cellAt. now rewrite Hc. }
  rewrite (InternalOpen_Active g index c Hs Hc).
  destruct (isOpened c); simpl; [auto |]. split; [exact Hs |].
  apply (changes_recorded_trans g0 g); [exact Hg |].
  split_and!; simpl.
  - apply length_insert.
  - intros i Hi. apply elem_of_uset_insert. now right.
  - intros j cj cj' Hj Hj' Hne. apply elem_of_uset_insert.
    destruct (decide (j = N.to_nat index)) as [-> | Hneq].
    + left. apply N2Nat.id.
    + rewrite list_lookup_insert_ne in Hj' by congruence. congruence.
Qed.

Lemma openBombs_recorded g0 g :
  state g = MGS_Active -> changes_recorded g0 g ->
  post (openBombs g) (fun _ g' => changes_recorded g0 g') (fun _ => False).
Proof.
  intros Hs Hg. unfold openBombs. rewrite (bind_Ret get _ g g g eq_refl).
  eapply post_bind_mono with
    (Q1 := fun _ g' => state g' = MGS_Active /\ changes_recorded g0 g')
    (E1 := fun _ => False); [| | auto].
  - generalize (indices g). intros l. revert g Hs Hg.
    induction l as [| x l IH]; intros g Hs Hg; simpl; [auto |].
    eapply post_bind_mono with
      (Q1 := fun _ g' => state g' = MGS_Active /\ changes_recorded g0 g')
      (E1 := fun _ => False); [| | auto].
    + apply post_bind_cellAt. intros c Hc.
      destruct (GetIsBomb c); [now apply InternalOpen_recorded | simpl; auto].
    + intros a g' [Hs' Hg']. now apply IH.
  - intros a g' [_ Hg']. exact Hg'.
Qed.

Lemma open_recorded g0 g index :
  state g = MGS_Active -> changes_recorded g0 g ->
  post (open index g)
    (fun ok g' => changes_recorded g0 g' /\ (ok = true -> state g' = MGS_Active))
    (fun _ => False).
Proof.
  intros Hs Hg. unfold open. apply post_bind_cellAt. intros c Hc.
  destruct (negb (IsOpened c) && label_eqb (Label c) MCL_None); [| simpl; auto].
  eapply post_bind_mono; [apply InternalOpen_recorded; eassumption | | auto].
  intros a1 g1 [Hs1 Hg1]. apply post_bind_cellAt. intros c1 Hc1.
  destruct (GetIsBomb c1).
  - eapply post_bind_mono; [apply openBombs_recorded; eassumption | | auto].
    intros a2 g' Hg'. simpl. split; [exact Hg' | discriminate].
  - simpl. split; [exact Hg1 | intros _; exact Hs1].
Qed.

Lemma openNeighbors_for_recorded g0 neighbors : forall unprocessed g,
  state g = MGS_Active -> changes_recorded g0 g ->
  post (openNeighbors_for neighbors unprocessed g)
    (fun r g' => changes_recorded g0 g' /\ (r <> None -> state g' = MGS_Active))
    (fun _ => False).
Proof.
  induction neighbors as [| x neighbors IH]; intros unprocessed g Hs Hg; simpl; [auto |].
  apply post_bind_cellAt. intros c Hc.
  destruct (negb (IsOpened c)); [| now apply IH].
  eapply post_bind_mono; [apply open_recorded; eassumption | | auto].
  intros [|] g' [Hg' Hs']; simpl.
  - specialize (Hs' eq_refl). apply post_bind_cellAt. intros c' Hc'.
    destruct (GetNumberOfNeighborBombs c' =? 0); now apply IH.
  - split; [exact Hg' | congruence].
Qed.

Lemma openNeighbors_while_recorded begin_pos g0 fuel : forall unprocessed g,
  state g = MGS_Active -> changes_recorded g0 g ->
  post (openNeighbors_while begin_pos fuel unprocessed g)
    (fun _ g' => changes_recorded g0 g') (changes_recorded g0).
Proof.
  induction fuel as [| fuel IH]; intros [| x unprocessed] g Hs Hg; simpl; auto.
  apply post_bind. apply findNeighbors_post; [| auto].
  intros _ ns _.
  eapply post_bind_mono; [apply openNeighbors_for_recorded; eassumption | | intros ? []].
  intros [w |] g' [Hg' Hs']; simpl; [| exact Hg'].
  apply IH; [apply Hs'; discriminate | exact Hg'].
Qed.

(** In an active game, a call of [Open] that comes back has recorded the
    index of every cell it changed, and has kept the indices recorded
    before. *)
Lemma Open_records_changes begin_pos fuel index g g' :
  state g = MGS_Active ->
  final_state (Open begin_pos fuel index g) = Some g' ->
  changes_recorded g g'.
Proof.
  intros Hs Hfin.
  assert (Hpost : post (OnOpen begin_pos fuel index g)
                    (fun _ g' => changes_recorded g g') (changes_recorded g)).
  { pose proof (changes_recorded_refl g) as Hg.
    unfold OnOpen. rewrite (bind_Ret get _ g g g eq_refl).
    rewrite Hs. simpl. rewrite (bind_Ret (internal_check true) _ g tt g eq_refl).
    unfold bind at 1, internal_check.
    destruct (index <? cells_size g); [| exact Hg].
    apply post_bind_cellAt. intros cell Hcell.
    destruct (IsOpened cell).
    - eapply post_bind_mono;
        [apply (preserves_CalculateNumberOfNeighborCellsLabeledAsBombs (fun g' => g' = g));
         reflexivity | | intros g1 ->; exact Hg].
      intros labeled g1 ->.
      destruct (GetNumberOfNeighborBombs cell =? labeled); [| exact Hg].
      now apply openNeighbors_while_recorded.
    - eapply post_bind_mono; [apply open_recorded; eassumption | | intros ? []].
      intros [|] g1 [Hg1 Hs1]; simpl; [| exact Hg1].
      specialize (Hs1 eq_refl).
      unfold bind at 1. rewrite (hasSuccess_Active g1 Hs1).
      destruct (numberOfOpenedCells g1 <=? wsub (cells_size g1) (bombs g1)); [| exact Hg1].
      destruct (numberOfOpenedCells g1 =? wsub (cells_size g1) (bombs g1)).
      + apply post_bind_cellAt. intros cell' _. exact Hg1.
      + apply post_bind_cellAt. intros cell' _. simpl.
        destruct (GetNumberOfNeighborBombs cell' =? 0); [| exact Hg1].
        now apply openNeighbors_while_recorded. }
  unfold Open in Hfin.
  destruct (OnOpen begin_pos fuel index g); simpl in *; congruence.
Qed.

(** In an active game, [SetLabel] on a closed cell returns and has recorded
    the index of the cell when it changed the label. *)
Lemma SetLabel_records_changes index newLabel g c :
  state g = MGS_Active ->
  cells g !! N.to_nat index = Some c -> isOpened c = false ->
  exists g', SetLabel index newLabel g = Ret tt g' /\ changes_recorded g g'.
Proof.
  intros Hs Hc Ho. unfold SetLabel.
  rewrite (bind_Ret _ _ _ _ _ (cellAt_Some _ _ _ Hc)).
  unfold IsOpened. rewrite Ho. simpl.
  rewrite (bind_Ret (internal_check true) _ g tt g eq_refl).
  destruct (negb (label_eqb (label c) newLabel)).
  2:{ exists g. split; [reflexivity | apply changes_recorded_refl]. }
  rewrite (bind_Ret _ _ _ _ _ (setCell_lt _ _ _ (lookup_Some_lt_size _ _ _ Hc))).
  unfold onModified. rewrite OnModified_Active; [| exact Hs |].
  2:{ unfold cells_size. simpl. rewrite length_insert.
      apply (lookup_Some_lt_size _ _ _ Hc). }
  eexists. split; [reflexivity |]. split_and!; simpl.
  - apply length_insert.
  - intros i Hi. apply elem_of_uset_insert. now right.
  - intros j cj cj' Hj Hj' Hne. apply elem_of_uset_insert.
    destruct (decide (j = N.to_nat index)) as [-> | Hneq].
    + left. apply N2Nat.id.
    + rewrite list_lookup_insert_ne in Hj' by congruence. congruence.
Qed.

(** ** The flood on labelled cells *)

(** On a closed, labelled cell with a stored count of zero, [OnOpen] goes on
    to [openNeighbors] as it does for a cell it has just opened. *)
Lemma OnOpen_labelled_zero begin_pos fuel index g c :
  state g = MGS_Active ->
  cells g !! N.to_nat index = Some c ->
  labelled_zero c = true ->
  (numberOfOpenedCells g <? wsub (cells_size g) (bombs g)) = true ->
  OnOpen begin_pos fuel index g = openNeighbors begin_pos fuel index g.
Proof.
  intros Hs Hc Hz Hn. unfold labelled_zero in Hz.
  apply andb_true_iff in Hz. destruct Hz as [Hz Hzero].
  apply andb_true_iff in Hz. destruct Hz as [Hclosed Hlabel].
  apply negb_true_iff in Hclosed.
  unfold OnOpen. rewrite (bind_Ret get _ g g g eq_refl).
  rewrite Hs. simpl. rewrite (bind_Ret (internal_check true) _ g tt g eq_refl).
  pose proof (lookup_Some_lt_size _ _ _ Hc) as Hlt. apply N.ltb_lt in Hlt.
  rewrite Hlt. rewrite (bind_Ret (internal_check true) _ g tt g eq_refl).
  rewrite (bind_Ret _ _ _ _ _ (cellAt_Some _ _ _ Hc)).
  unfold IsOpened. rewrite Hclosed.
  rewrite (bind_Ret _ _ g true g).
  2:{ apply (open_skip g index c Hc). right. intros Heq. rewrite Heq in Hlabel. discriminate. }
  rewrite (bind_Ret _ _ g false g).
  2:{ rewrite (hasSuccess_Active g Hs). apply N.ltb_lt in Hn.
      destruct (N.leb_spec (numberOfOpenedCells g) (wsub (cells_size g) (bombs g))); [| lia].
      destruct (N.eqb_spec (numberOfOpenedCells g) (wsub (cells_size g) (bombs g))); [lia |].
      reflexivity. }
  rewrite (bind_Ret _ _ _ _ _ (cellAt_Some _ _ _ Hc)).
  unfold GetNumberOfNeighborBombs. rewrite Hzero. reflexivity.
Qed.

(** The first turn of the [while] loop: [unprocessed] holds the seed alone,
    so [begin()] is the seed whatever the order of the set. *)
Lemma openNeighbors_while_step begin_pos fuel (unprocessed : list N) g' :
  unprocessed <> [] ->
  openNeighbors_while begin_pos (S fuel) unprocessed g' =
  (let* neighbors := findNeighbors (uset_begin begin_pos unprocessed) in
   let* r := openNeighbors_for neighbors
               (uset_erase (uset_begin begin_pos unprocessed) unprocessed) in
   match r with
   | None => ret tt
   | Some unprocessed => openNeighbors_while begin_pos fuel unprocessed
   end) g'.
Proof. destruct unprocessed; [congruence | reflexivity]. Qed.

Lemma openNeighbors_first_round begin_pos fuel index g ns unprocessed g' :
  findNeighbors index g = Ret ns g ->
  openNeighbors_for ns [] g = Ret (Some unprocessed) g' ->
  openNeighbors begin_pos (S fuel) index g = openNeighbors_while begin_pos fuel unprocessed g'.
Proof.
  intros Hns Hfor. unfold openNeighbors.
  change (uset_insert index []) with [index].
  rewrite openNeighbors_while_step by discriminate.
  rewrite uset_begin_singleton.
  rewrite (bind_Ret _ _ _ _ _ Hns).
  replace (uset_erase index [index]) with (@nil N).
  - now rewrite (bind_Ret _ _ _ _ _ Hfor).
  - unfold uset_erase. simpl. now rewrite N.eqb_refl.
Qed.

Lemma openNeighbors_single_round begin_pos fuel index g ns g' :
  findNeighbors index g = Ret ns g ->
  openNeighbors_for ns [] g = Ret (Some []) g' ->
  openNeighbors begin_pos (S fuel) index g = Ret tt g'.
Proof.
  intros Hns Hfor.
  rewrite (openNeighbors_first_round begin_pos fuel index g ns [] g' Hns Hfor).
  destruct fuel; reflexivity.
Qed.

(** On a closed, unlabelled cell that is no mine and stores a count of zero,
    [OnOpen] opens the cell and, the game not being won, starts the flood. *)
Lemma OnOpen_safe_zero begin_pos fuel index g c :
  state g = MGS_Active ->
  cells g !! N.to_nat index = Some c ->
  isOpened c = false -> label c = MCL_None -> isBomb c = false ->
  numberOfNeighborBombs c = 0 ->
  (wadd (numberOfOpenedCells g) 1 <? wsub (cells_size g) (bombs g)) = true ->
  OnOpen begin_pos fuel index g =
  openNeighbors begin_pos fuel index
    (with_numberOfOpenedCells (wadd (numberOfOpenedCells g) 1)
       (with_modifiedCellIndices (uset_insert index (modifiedCellIndices g))
          (with_cells (<[N.to_nat index := cell_opened c]> (cells g)) g))).
Proof.
  intros Hs Hc Ho Hl Hb Hz Hn.
  unfold OnOpen. rewrite (bind_Ret get _ g g g eq_refl).
  rewrite Hs. simpl. rewrite (bind_Ret (internal_check true) _ g tt g eq_refl).
  pose proof (lookup_Some_lt_size _ _ _ Hc) as Hlt. apply N.ltb_lt in Hlt.
  rewrite Hlt. rewrite (bind_Ret (internal_check true) _ g tt g eq_refl).
  rewrite (bind_Ret _ _ _ _ _ (cellAt_Some _ _ _ Hc)).
  unfold IsOpened. rewrite Ho.
  rewrite (bind_Ret _ _ _ _ _ (open_safe g index c Hs Hc Ho Hl Hb)).
  set (g1 := with_numberOfOpenedCells _ _).
  assert (Hsize : cells_size g1 = cells_size g).
  { unfold cells_size, g1. simpl. now rewrite length_insert. }
  rewrite (bind_Ret _ _ g1 false g1).
  2:{ rewrite (hasSuccess_Active g1 Hs). rewrite Hsize.
      change (numberOfOpenedCells g1) with (wadd (numberOfOpenedCells g) 1).
      change (bombs g1) with (bombs g).
      apply N.ltb_lt in Hn.
      destruct (N.leb_spec (wadd (numberOfOpenedCells g) 1) (wsub (cells_size g) (bombs g)));
        [| lia].
      destruct (N.eqb_spec (wadd (numberOfOpenedCells g) 1) (wsub (cells_size g) (bombs g)));
        [lia | reflexivity]. }
  assert (Hc1 : cells g1 !! N.to_nat index = Some (cell_opened c)).
  { unfold g1. simpl. apply list_lookup_insert_eq. eapply lookup_lt_Some, Hc. }
  rewrite (bind_Ret _ _ _ _ _ (cellAt_Some _ _ _ Hc1)).
  unfold GetNumberOfNeighborBombs. simpl. rewrite Hz. reflexivity.
Qed.

(** On a closed, labelled cell with a stored count other than zero, in a
    game that is not won yet, [OnOpen] changes nothing. *)
Lemma OnOpen_labelled_nonzero begin_pos fuel index g c :
  state g = MGS_Active ->
  cells g !! N.to_nat index = Some c ->
  isOpened c = false -> label c <> MCL_None ->
  numberOfNeighborBombs c <> 0 ->
  (numberOfOpenedCells g <? wsub (cells_size g) (bombs g)) = true ->
  OnOpen begin_pos fuel index g = Ret tt g.
Proof.
  intros Hs Hc Hclosed Hlabel Hcount Hn.
  unfold OnOpen. rewrite (bind_Ret get _ g g g eq_refl).
  rewrite Hs. simpl. rewrite (bind_Ret (internal_check true) _ g tt g eq_refl).
  pose proof (lookup_Some_lt_size _ _ _ Hc) as Hlt. apply N.ltb_lt in Hlt.
  rewrite Hlt. rewrite (bind_Ret (internal_check true) _ g tt g eq_refl).
  rewrite (bind_Ret _ _ _ _ _ (cellAt_Some _ _ _ Hc)).
  unfold IsOpened. rewrite Hclosed.
  rewrite (bind_Ret _ _ g true g) by (apply (open_skip g index c Hc); now right).
  rewrite (bind_Ret _ _ g false g).
  2:{ rewrite (hasSuccess_Active g Hs). apply N.ltb_lt in Hn.
      destruct (N.leb_spec (numberOfOpenedCells g) (wsub (cells_size g) (bombs g))); [| lia].
      destruct (N.eqb_spec (numberOfOpenedCells g) (wsub (cells_size g) (bombs g))); [lia |].
      reflexivity. }
  rewrite (bind_Ret _ _ _ _ _ (cellAt_Some _ _ _ Hc)).
  unfold GetNumberOfNeighborBombs. apply N.eqb_neq in Hcount. rewrite Hcount. reflexivity.
Qed.

(** When the cell that [OnOpen] opens itself is the last one that is no mine,
    the game is won. *)
Lemma OnOpen_last_safe_cell begin_pos fuel index g c :
  state g = MGS_Active ->
  cells g !! N.to_nat index = Some c ->
  isOpened c = false -> label c = MCL_None -> isBomb c = false ->
  wadd (numberOfOpenedCells g) 1 = wsub (cells_size g) (bombs g) ->
  OnOpen begin_pos fuel index g =
  Ret tt
    (with_state MGS_Success
       (with_numberOfOpenedCells (wadd (numberOfOpenedCells g) 1)
          (with_modifiedCellIndices (uset_insert index (modifiedCellIndices g))
             (with_cells (<[N.to_nat index := cell_opened c]> (cells g)) g)))).
Proof.
  intros Hs Hc Ho Hl Hb Hn.
  unfold OnOpen. rewrite (bind_Ret get _ g g g eq_refl).
  rewrite Hs. simpl. rewrite (bind_Ret (internal_check true) _ g tt g eq_refl).
  pose proof (lookup_Some_lt_size _ _ _ Hc) as Hlt. apply N.ltb_lt in Hlt.
  rewrite Hlt. rewrite (bind_Ret (internal_check true) _ g tt g eq_refl).
  rewrite (bind_Ret _ _ _ _ _ (cellAt_Some _ _ _ Hc)).
  unfold IsOpened. rewrite Ho.
  rewrite (bind_Ret _ _ _ _ _ (open_safe g index c Hs Hc Ho Hl Hb)).
  set (g1 := with_numberOfOpenedCells _ _).
  assert (Hsize : cells_size g1 = cells_size g).
  { unfold cells_size, g1. simpl. now rewrite length_insert. }
  rewrite (bind_Ret _ _ g1 true (with_state MGS_Success g1)).
  2:{ rewrite (hasSuccess_Active g1 Hs). rewrite Hsize.
      change (numberOfOpenedCells g1) with (wadd (numberOfOpenedCells g) 1).
      change (bombs g1) with (bombs g).
      rewrite Hn, N.leb_refl, N.eqb_refl. reflexivity. }
  assert (Hc1 : cells (with_state MGS_Success g1) !! N.to_nat index = Some (cell_opened c)).
  { unfold g1. simpl. apply list_lookup_insert_eq. eapply lookup_lt_Some, Hc. }
  rewrite (bind_Ret _ _ _ _ _ (cellAt_Some _ _ _ Hc1)).
  reflexivity.
Qed.

Section Flood.

Variable g : CMinesweeperGame.
Hypothesis g_columns : columns g <> 0.
Hypothesis g_calm : calm_board g = true.

Lemma opened_more_refl : state g = MGS_Active -> opened_more g g.
Proof.
  intros Hs. split_and!; auto. intros j c Hc. exists c. split_and!; auto.
Qed.

Lemma opened_more_size g' : opened_more g g' -> cells_size g' = cells_size g.
Proof. intros (_ & _ & _ & Hlen & _). unfold cells_size. now rewrite Hlen. Qed.

Lemma zero_position_lt i : zero_position g i = true -> i < cells_size g.
Proof.
  unfold zero_position. destruct (cells g !! N.to_nat i) eqn:Hc; [| discriminate].
  intros _. eapply lookup_Some_lt_size, Hc.
Qed.

Lemma zero_position_calm i :
  zero_position g i = true ->
  exists ns,
    neighborPositions (rows g) (columns g) (cells_size g) i = Some ns /\
    Forall (fun n => calm_position g n = true) ns.
Proof.
  intros Hz. pose proof g_calm as Hcalm.
  unfold calm_board in Hcalm. rewrite forallb_forall in Hcalm.
  assert (Hi : In i (indices g)).
  { apply list_elem_of_In, elem_of_indices. now apply zero_position_lt. }
  specialize (Hcalm i Hi). rewrite Hz in Hcalm. simpl in Hcalm.
  destruct (neighborPositions _ _ _ i) as [ns |]; [| discriminate].
  exists ns. split; [reflexivity |].
  apply Forall_forall. intros n Hn. rewrite forallb_forall in Hcalm.
  apply Hcalm. now apply list_elem_of_In.
Qed.

(** Over calm positions the [for] loop of [openNeighbors] never returns
    early; it keeps what is in [unprocessed], and adds the labelled cells with
    a stored count of zero that it meets. *)
Lemma openNeighbors_for_calm neighbors : forall unprocessed g',
  opened_more g g' ->
  Forall (fun n => calm_position g n = true) neighbors ->
  exists unprocessed' g'',
    openNeighbors_for neighbors unprocessed g' = Ret (Some unprocessed') g'' /\
    opened_more g g'' /\
    (forall i, i ∈ unprocessed -> i ∈ unprocessed') /\
    (forall i, i ∈ unprocessed' -> i ∈ unprocessed \/ zero_position g i = true) /\
    (forall i c, i ∈ neighbors -> cells g !! N.to_nat i = Some c ->
                 labelled_zero c = true -> i ∈ unprocessed').
Proof.
  induction neighbors as [| x neighbors IH]; intros unprocessed g' Hg' Hcalm; simpl.
  - exists unprocessed, g'. split_and!; auto.
    intros i c Hi. now apply elem_of_nil in Hi.
  - apply Forall_cons in Hcalm. destruct Hcalm as [Hx Hcalm].
    unfold calm_position in Hx.
    destruct (cells g !! N.to_nat x) as [cx |] eqn:Hcx; [| discriminate].
    pose proof Hg' as (Hs' & Hr' & Hc' & Hlen' & Hcells').
    destruct (Hcells' _ _ Hcx) as (cx' & Hcx' & Hbomb & Hlabel & Hcount & Hkeep).
    assert (Hstep : exists g1,
              opened_more g g1 /\
              openNeighbors_for (x :: neighbors) unprocessed g' =
              openNeighbors_for neighbors
                (if negb (isOpened cx') && (numberOfNeighborBombs cx =? 0)
                 then uset_insert x unprocessed else unprocessed) g1).
    { simpl. rewrite (bind_Ret _ _ _ _ _ (cellAt_Some _ _ _ Hcx')).
      unfold IsOpened. destruct (isOpened cx') eqn:Ho'; simpl.
      { exists g'. auto. }
      destruct (label_eqb (label cx) MCL_None) eqn:Hl.
      - assert (Hl' : label cx' = MCL_None)
          by (rewrite Hlabel; destruct (label cx); simpl in Hl; congruence).
        assert (Hb' : isBomb cx' = false).
        { rewrite Hbomb. rewrite orb_false_r in Hx. now apply negb_true_iff in Hx. }
        rewrite (bind_Ret _ _ _ _ _ (open_safe g' x cx' Hs' Hcx' Ho' Hl' Hb')). simpl.
        set (g1 := with_numberOfOpenedCells _ _).
        assert (Hc1 : cells g1 !! N.to_nat x = Some (cell_opened cx')).
        { unfold g1. simpl. apply list_lookup_insert_eq. eapply lookup_lt_Some, Hcx'. }
        rewrite (bind_Ret _ _ _ _ _ (cellAt_Some _ _ _ Hc1)).
        unfold GetNumberOfNeighborBombs. simpl. rewrite Hcount.
        exists g1. split; [| now destruct (numberOfNeighborBombs cx =? 0)].
        split_and!; auto.
        + unfold g1. simpl. now rewrite length_insert.
        + intros j c Hc. destruct (Hcells' j c Hc) as (c' & Hc'' & H1 & H2 & H3 & H4).
          destruct (decide (j = N.to_nat x)) as [-> | Hne].
          * assert (c = cx) by congruence. assert (c' = cx') by congruence. subst c c'.
            exists (cell_opened cx'). split_and!; auto.
            intros Hne. rewrite <- Hlabel in Hne. contradiction.
          * exists c'. split_and!; auto.
            unfold g1. simpl. now rewrite list_lookup_insert_ne by congruence.
      - rewrite (bind_Ret _ _ g' true g').
        2:{ apply (open_skip g' x cx' Hcx'). right. rewrite Hlabel.
            intros Heq. rewrite Heq in Hl. discriminate. }
        simpl. rewrite (bind_Ret _ _ _ _ _ (cellAt_Some _ _ _ Hcx')).
        unfold GetNumberOfNeighborBombs. rewrite Hcount.
        exists g'. split; [assumption | now destruct (numberOfNeighborBombs cx =? 0)]. }
    destruct Hstep as (g1 & Hg1 & Heq). simpl in Heq. rewrite Heq.
    destruct (IH (if negb (isOpened cx') && (numberOfNeighborBombs cx =? 0)
                  then uset_insert x unprocessed else unprocessed) g1 Hg1 Hcalm)
      as (w' & g'' & Hrun & Hg'' & Hsub & Hnew & Hlab).
    exists w', g''. split_and!; auto.
    + intros i Hi. apply Hsub.
      destruct (negb (isOpened cx') && (numberOfNeighborBombs cx =? 0)); [| assumption].
      apply elem_of_uset_insert. now right.
    + intros i Hi. apply Hnew in Hi. destruct Hi as [Hi | Hi]; [| now right].
      destruct (negb (isOpened cx') && (numberOfNeighborBombs cx =? 0)) eqn:Hins; [| now left].
      apply elem_of_uset_insert in Hi. destruct Hi as [-> | Hi]; [| now left].
      right. unfold zero_position. rewrite Hcx.
      apply andb_true_iff in Hins. tauto.
    + intros i c Hi Hc Hz. apply elem_of_cons in Hi. destruct Hi as [-> | Hi]; [| eauto].
      assert (c = cx) by congruence. subst c.
      apply Hsub. unfold labelled_zero in Hz.
      apply andb_true_iff in Hz. destruct Hz as [Hz Hzero'].
      apply andb_true_iff in Hz. destruct Hz as [Hclosed Hlab'].
      rewrite Hkeep.
      * rewrite Hclosed, Hzero'. simpl. apply elem_of_uset_insert. now left.
      * intros Hnone. rewrite Hnone in Hlab'. discriminate.
Qed.

(** Two adjacent cells [A] and [B], both closed, labelled, and with a stored
    count of zero. *)
Variables (A B : N) (cA cB : CMinesweeperCell) (nsA nsB : list N).
Hypothesis A_cell : cells g !! N.to_nat A = Some cA.
Hypothesis B_cell : cells g !! N.to_nat B = Some cB.
Hypothesis A_labelled : labelled_zero cA = true.
Hypothesis B_labelled : labelled_zero cB = true.
Hypothesis A_neighbors : neighborPositions (rows g) (columns g) (cells_size g) A = Some nsA.
Hypothesis B_neighbors : neighborPositions (rows g) (columns g) (cells_size g) B = Some nsB.
Hypothesis A_B : B ∈ nsA.
Hypothesis B_A : A ∈ nsB.

(** As long as one of the two is in [unprocessed], the [while] loop puts the
    other one back: no amount of fuel brings it to its end. *)
Lemma openNeighbors_while_diverges begin_pos fuel : forall (unprocessed : list N) g',
  opened_more g g' ->
  (forall i, i ∈ unprocessed -> zero_position g i = true) ->
  A ∈ unprocessed \/ B ∈ unprocessed ->
  openNeighbors_while begin_pos fuel unprocessed g' = Unfinished.
Proof.
  induction fuel as [| fuel IH]; intros unprocessed g' Hg' Hzero Hin.
  - destruct unprocessed; [| reflexivity].
    destruct Hin as [Hin | Hin]; now apply elem_of_nil in Hin.
  - assert (Hne : unprocessed <> []).
    { intros ->. destruct Hin as [Hin | Hin]; now apply elem_of_nil in Hin. }
    rewrite openNeighbors_while_step by exact Hne.
    set (current := uset_begin begin_pos unprocessed).
    assert (Hcur : current ∈ unprocessed) by now apply uset_begin_elem_of.
    destruct (zero_position_calm current (Hzero _ Hcur)) as (ns & Hns & Hcalm).
    pose proof Hg' as (_ & Hr' & Hc' & _ & _).
    assert (Hfind : findNeighbors current g' = Ret ns g').
    { rewrite findNeighbors_eq, Hr', Hc', (opened_more_size g' Hg').
      pose proof (zero_position_lt current (Hzero _ Hcur)) as Hlt.
      apply N.ltb_lt in Hlt. rewrite Hlt.
      apply N.eqb_neq in g_columns. rewrite g_columns. now rewrite Hns. }
    rewrite (bind_Ret _ _ _ _ _ Hfind).
    destruct (openNeighbors_for_calm ns (uset_erase current unprocessed) g' Hg' Hcalm)
      as (w' & g'' & Hrun & Hg'' & Hsub & Hnew & Hlab).
    rewrite (bind_Ret _ _ _ _ _ Hrun).
    apply IH; [exact Hg'' | |].
    + intros i Hi. apply Hnew in Hi. destruct Hi as [Hi | Hi]; [| exact Hi].
      apply elem_of_uset_erase in Hi. now apply Hzero.
    + destruct (N.eq_dec current A) as [HcA | HcA].
      { right. apply (Hlab B cB); auto. rewrite HcA, A_neighbors in Hns. congruence. }
      destruct (N.eq_dec current B) as [HcB | HcB].
      { left. apply (Hlab A cA); auto. rewrite HcB, B_neighbors in Hns. congruence. }
      destruct Hin as [Hin | Hin]; [left | right];
        apply Hsub, elem_of_uset_erase; split; auto.
Qed.

End Flood.

Lemma reachable_question_game begin_pos : reachable begin_pos question_game.
Proof.
  apply (reachable_play begin_pos question_calls striped_game).
  - apply reachable_striped_game.
  - vm_compute. reflexivity.
Qed.

(** C2, at a game the code can reach (ten mines in the first and last rows,
    a question mark on the adjacent empty cells (4, 4) and (4, 5)): whatever
    the order of the unordered set and however much fuel, the loop of
    [openNeighbors] started on cell (4, 4) does not come to its end, and
    neither does [Open()] on that cell, nor [Open()] on the unlabelled empty
    cell (3, 4) next to the two.  A labelled cell stays closed, so each of
    the two cells puts the other one back in [unprocessed]. *)
Theorem openNeighbors_never_ends :
  (forall begin_pos, reachable begin_pos question_game) /\
  state question_game = MGS_Active /\
  forall begin_pos fuel,
    openNeighbors begin_pos fuel 40 question_game = Unfinished /\
    perform begin_pos (CallOpen fuel 4 4) question_game = Unfinished /\
    perform begin_pos (CallOpen fuel 3 4) question_game = Unfinished.
Proof.
  split; [exact reachable_question_game |]. split; [reflexivity |].
  intros begin_pos fuel.
  assert (Hloop : openNeighbors begin_pos fuel 40 question_game = Unfinished).
  { unfold openNeighbors.
    apply (openNeighbors_while_diverges question_game) with
      (A := 40) (B := 41)
      (cA := mkCell false false MCL_Question 0) (cB := mkCell false false MCL_Question 0)
      (nsA := [30; 31; 32; 39; 41; 48; 49; 50]) (nsB := [31; 32; 33; 40; 42; 49; 50; 51]);
      try (vm_compute; reflexivity).
    - discriminate.
    - apply list_elem_of_In. simpl. tauto.
    - apply list_elem_of_In. simpl. tauto.
    - apply opened_more_refl. reflexivity.
    - intros i Hi. apply list_elem_of_singleton in Hi. subst i. reflexivity.
    - left. apply list_elem_of_singleton. reflexivity. }
  split_and!; [exact Hloop | |].
  - simpl. rewrite (bind_Ret (Cell 4 4) _ question_game 40 question_game eq_refl).
    unfold Open.
    rewrite (OnOpen_labelled_zero begin_pos fuel 40 question_game
               (mkCell false false MCL_Question 0)); try reflexivity.
    exact Hloop.
  - simpl. rewrite (bind_Ret (Cell 3 4) _ question_game 31 question_game eq_refl).
    unfold Open.
    rewrite (OnOpen_safe_zero begin_pos fuel 31 question_game
               (mkCell false false MCL_None 0)); try reflexivity.
    destruct fuel as [| fuel]; [reflexivity |].
    erewrite (openNeighbors_first_round begin_pos fuel 31 _ [21; 22; 23; 30; 32; 39; 40; 41]);
      [| vm_compute; reflexivity | vm_compute; reflexivity].
    match goal with
    | |- openNeighbors_while _ _ _ ?g2 = _ =>
        apply (openNeighbors_while_diverges g2) with
          (A := 40) (B := 41)
          (cA := mkCell false false MCL_Question 0) (cB := mkCell false false MCL_Question 0)
          (nsA := [30; 31; 32; 39; 41; 48; 49; 50]) (nsB := [31; 32; 33; 40; 42; 49; 50; 51])
    end;
      try (vm_compute; reflexivity).
    + discriminate.
    + apply list_elem_of_In. simpl. tauto.
    + apply list_elem_of_In. simpl. tauto.
    + apply opened_more_refl. reflexivity.
    + intros i Hi. apply list_elem_of_In in Hi. simpl in Hi.
      repeat (destruct Hi as [<- | Hi]; [reflexivity |]). contradiction.
    + left. apply list_elem_of_In. simpl. tauto.
Qed.

(** ** The bound on the number of mines *)

(** For the dimensions [NewGame] accepts, the product of doubles truncates to
    the floor of 0.93 * rows * columns. *)
Lemma bombs_limit_exact r c :
  9 <= r <= 24 -> 9 <= c <= 30 -> bombs_limit r c = 93 * r * c / 100.
Proof.
  intros Hr Hc.
  assert (Hall : forallb (fun r => forallb (fun c => bombs_limit r c =? 93 * r * c / 100)
                                     (map N.of_nat (seq 9 22)))
                   (map N.of_nat (seq 9 16)) = true) by (vm_compute; reflexivity).
  rewrite forallb_forall in Hall.
  assert (Hrin : In r (map N.of_nat (seq 9 16))).
  { apply in_map_iff. exists (N.to_nat r). split; [apply N2Nat.id | apply in_seq; lia]. }
  specialize (Hall r Hrin). rewrite forallb_forall in Hall.
  assert (Hcin : In c (map N.of_nat (seq 9 22))).
  { apply in_map_iff. exists (N.to_nat c). split; [apply N2Nat.id | apply in_seq; lia]. }
  apply N.eqb_eq. now apply Hall.
Qed.

(** ** Planting mines next to each other *)

(** [SetNumberOfNeighborBombs] takes the mine flag off the cell: this is how
    [plantBomb], which calls it on every neighbour, loses the mines that were
    planted around the new one. *)
Lemma SetNumberOfNeighborBombs_clears_mine g index c n :
  cells g !! N.to_nat index = Some c -> isOpened c = false ->
  exists g',
    SetNumberOfNeighborBombs index n g = Ret tt g' /\
    cells g' !! N.to_nat index =
      Some {| isBomb := false; isOpened := false; label := label c;
              numberOfNeighborBombs := n |}.
Proof.
  intros Hc Ho. unfold SetNumberOfNeighborBombs.
  rewrite (bind_Ret _ _ _ _ _ (cellAt_Some _ _ _ Hc)).
  unfold IsOpened. rewrite Ho. simpl.
  rewrite (bind_Ret (internal_check true) _ g tt g eq_refl).
  rewrite (setCell_lt _ _ _ (lookup_Some_lt_size _ _ _ Hc)).
  eexists. split; [reflexivity |]. simpl.
  apply list_lookup_insert_eq. eapply lookup_lt_Some, Hc.
Qed.

(** C1 at [NewGame( 9, 9, 10 )] with the draws 0, 1, ..., 9: the parameters
    are valid and the call succeeds with 81 cells, but only 2 cells have the
    mine flag set, not 10, and the cell (1, 1), which is no mine, stores a
    count of 4 with a single mine around it. *)
Theorem NewGame_adjacent_draws_lose_mines :
  bombs_limit 9 9 = 75 /\
  CreateGame 9 9 10 adjacent_draws = Some adjacent_game /\
  length (cells adjacent_game) = 81%nat /\
  bombs adjacent_game = 10 /\
  count_mines adjacent_game = 2%nat /\
  is_mine adjacent_game 10 = false /\
  stored_count adjacent_game 10 = Some 4 /\
  mines_around adjacent_game 10 = 1.
Proof. vm_compute. repeat split. Qed.

(** ** [Open] on a labelled cell *)

Lemma reachable_flagged_game begin_pos : reachable begin_pos flagged_game.
Proof.
  apply (reachable_play begin_pos [CallSetLabel 0 0 MCL_Bomb] striped_game).
  - apply reachable_striped_game.
  - vm_compute. reflexivity.
Qed.

(** C3 at a game the code can reach (the striped game, the mine in the corner
    (0, 0) flagged [MCL_Bomb] and closed): whatever the order of the unordered
    set, [Open()] on the flagged cell returns after it has opened the three
    cells around it, counted them as opened and recorded them as modified.
    A mine stores a count of zero, and [OnOpen] takes the flood for every
    cell that [open] did not blow up on. *)
Theorem Open_flagged_mine_opens_neighbors :
  (forall begin_pos, reachable begin_pos flagged_game) /\
  state flagged_game = MGS_Active /\
  cells flagged_game !! 0%nat = Some (mkCell true false MCL_Bomb 0) /\
  (forall begin_pos fuel,
     perform begin_pos (CallOpen (S fuel) 0 0) flagged_game = Ret tt flagged_game_opened) /\
  is_opened flagged_game 1 = false /\ is_opened flagged_game_opened 1 = true /\
  is_opened flagged_game 9 = false /\ is_opened flagged_game_opened 9 = true /\
  is_opened flagged_game 10 = false /\ is_opened flagged_game_opened 10 = true /\
  numberOfOpenedCells flagged_game = 0 /\ numberOfOpenedCells flagged_game_opened = 3 /\
  modifiedCellIndices flagged_game = [0] /\
  modifiedCellIndices flagged_game_opened = [0; 1; 9; 10].
Proof.
  split; [exact reachable_flagged_game |].
  split_and!; try reflexivity.
  intros begin_pos fuel. simpl.
  rewrite (bind_Ret (Cell 0 0) _ flagged_game 0 flagged_game eq_refl).
  unfold Open.
  rewrite (OnOpen_labelled_zero begin_pos (S fuel) 0 flagged_game
             (mkCell true false MCL_Bomb 0)); try reflexivity.
  apply (openNeighbors_single_round begin_pos fuel 0 flagged_game [1; 9; 10]);
    vm_compute; reflexivity.
Qed.

(** ** Winning by a flood *)

(** On an opened cell whose stored count is the number of its closed
    neighbours labelled [MCL_Bomb], [OnOpen] is the flood. *)
Lemma OnOpen_chord begin_pos fuel index g c labeled :
  state g = MGS_Active ->
  cells g !! N.to_nat index = Some c ->
  isOpened c = true ->
  CalculateNumberOfNeighborCellsLabeledAsBombs index g = Ret labeled g ->
  numberOfNeighborBombs c = labeled ->
  OnOpen begin_pos fuel index g = openNeighbors begin_pos fuel index g.
Proof.
  intros Hs Hc Ho Hcalc Heq.
  unfold OnOpen. rewrite (bind_Ret get _ g g g eq_refl).
  rewrite Hs. simpl. rewrite (bind_Ret (internal_check true) _ g tt g eq_refl).
  pose proof (lookup_Some_lt_size _ _ _ Hc) as Hlt. apply N.ltb_lt in Hlt.
  rewrite Hlt. rewrite (bind_Ret (internal_check true) _ g tt g eq_refl).
  rewrite (bind_Ret _ _ _ _ _ (cellAt_Some _ _ _ Hc)).
  unfold IsOpened. rewrite Ho.
  rewrite (bind_Ret _ _ _ _ _ Hcalc).
  unfold GetNumberOfNeighborBombs. rewrite Heq, N.eqb_refl. reflexivity.
Qed.

(** Whatever the counter of opened cells has come to, a call of [Open] on an
    opened cell does not leave the game in [MGS_Success]. *)
Lemma OnOpen_opened_never_Success begin_pos fuel index g c :
  state g = MGS_Active ->
  cells g !! N.to_nat index = Some c ->
  isOpened c = true ->
  post (OnOpen begin_pos fuel index g)
    (fun _ g' => state g' <> MGS_Success) (fun g' => state g' <> MGS_Success).
Proof.
  intros Hs Hc Ho.
  assert (Hg : state g <> MGS_Success) by congruence.
  unfold OnOpen. rewrite (bind_Ret get _ g g g eq_refl).
  rewrite Hs. simpl. rewrite (bind_Ret (internal_check true) _ g tt g eq_refl).
  pose proof (lookup_Some_lt_size _ _ _ Hc) as Hlt. apply N.ltb_lt in Hlt.
  rewrite Hlt. rewrite (bind_Ret (internal_check true) _ g tt g eq_refl).
  rewrite (bind_Ret _ _ _ _ _ (cellAt_Some _ _ _ Hc)).
  unfold IsOpened. rewrite Ho.
  eapply post_bind_mono;
    [apply (preserves_CalculateNumberOfNeighborCellsLabeledAsBombs (fun g' => g' = g));
     reflexivity | | intros g' ->; exact Hg].
  intros labeled g' ->.
  destruct (GetNumberOfNeighborBombs c =? labeled); [| exact Hg].
  now apply openNeighbors_never_Success.
Qed.

Lemma reachable_island_game_prepared begin_pos : reachable begin_pos island_game_prepared.
Proof.
  apply (reachable_play begin_pos island_calls island_game).
  - apply (reachable_CreateGame begin_pos 9 9 10 island_draws). vm_compute. reflexivity.
  - vm_compute. reflexivity.
Qed.

Lemma Open_island_flood begin_pos fuel :
  perform begin_pos (CallOpen (S fuel) 8 6) island_game_prepared = Ret tt island_game_cleared.
Proof.
  simpl. rewrite (bind_Ret (Cell 8 6) _ island_game_prepared 78 island_game_prepared eq_refl).
  unfold Open.
  rewrite (OnOpen_safe_zero begin_pos (S fuel) 78 island_game_prepared
             (mkCell false false MCL_None 0)); try reflexivity.
  eapply (openNeighbors_single_round begin_pos fuel 78 _ [68; 69; 70; 77; 79]);
    vm_compute; reflexivity.
Qed.

Lemma Open_island_marked begin_pos fuel :
  perform begin_pos (CallOpen (S fuel) 8 6) island_game_marked = Ret tt island_game_flooded.
Proof.
  simpl. rewrite (bind_Ret (Cell 8 6) _ island_game_marked 78 island_game_marked eq_refl).
  unfold Open.
  rewrite (OnOpen_safe_zero begin_pos (S fuel) 78 island_game_marked
             (mkCell false false MCL_None 0)); try reflexivity.
  eapply (openNeighbors_single_round begin_pos fuel 78 _ [68; 69; 70; 77; 79]);
    vm_compute; reflexivity.
Qed.

Lemma Open_island_chord begin_pos fuel :
  perform begin_pos (CallOpen (S fuel) 8 6) island_game_unmarked = Ret tt island_game_chorded.
Proof.
  simpl. rewrite (bind_Ret (Cell 8 6) _ island_game_unmarked 78 island_game_unmarked eq_refl).
  unfold Open.
  rewrite (OnOpen_chord begin_pos (S fuel) 78 island_game_unmarked
             (mkCell false true MCL_None 0) 0); try reflexivity.
  eapply (openNeighbors_single_round begin_pos fuel 78 _ [68; 69; 70; 77; 79]);
    vm_compute; reflexivity.
Qed.

Lemma reachable_island_game_unmarked begin_pos : reachable begin_pos island_game_unmarked.
Proof.
  apply (reachable_play begin_pos [CallSetLabel 8 5 MCL_None] island_game_flooded);
    [| vm_compute; reflexivity].
  apply (reachable_perform begin_pos island_game_marked (CallOpen 1 8 6)).
  - apply (reachable_play begin_pos [CallSetLabel 8 5 MCL_Question] island_game_prepared);
      [apply reachable_island_game_prepared | vm_compute; reflexivity].
  - now rewrite Open_island_marked.
Qed.

(** C4 at two games the code can reach (ten mines, no two adjacent; every
    cell that is no mine opened one by one, but the empty cell (8, 6) and the
    five cells around it).  Whatever the order of the unordered set:
    - [Open()] on (8, 6) returns after the flood has opened the last cells
      that are no mine;
    - when (8, 5) carried a question mark during that flood and the mark was
      taken off afterwards, [Open()] on the opened cell (8, 6) returns after
      it has opened (8, 5), the last cell that is no mine.
    Both times the counter of opened cells is [cells.size() - bombs] = 71,
    every cell that is no mine is opened, and the game is still
    [MGS_Active]: [hasSuccess] runs before the flood, not after, and not at
    all for an opened cell. *)
Theorem Open_flood_leaves_game_Active :
  (forall begin_pos, reachable begin_pos island_game_prepared) /\
  state island_game_prepared = MGS_Active /\
  numberOfOpenedCells island_game_prepared = 65 /\
  (forall begin_pos fuel,
     perform begin_pos (CallOpen (S fuel) 8 6) island_game_prepared
     = Ret tt island_game_cleared) /\
  count_mines island_game_cleared = 10%nat /\
  bombs island_game_cleared = 10 /\
  all_safe_opened island_game_cleared = true /\
  numberOfOpenedCells island_game_cleared = 71 /\
  wsub (cells_size island_game_cleared) (bombs island_game_cleared) = 71 /\
  state island_game_cleared = MGS_Active /\
  (forall begin_pos, reachable begin_pos island_game_unmarked) /\
  state island_game_unmarked = MGS_Active /\
  numberOfOpenedCells island_game_unmarked = 70 /\
  is_opened island_game_unmarked 78 = true /\
  (forall begin_pos fuel,
     perform begin_pos (CallOpen (S fuel) 8 6) island_game_unmarked
     = Ret tt island_game_chorded) /\
  all_safe_opened island_game_chorded = true /\
  numberOfOpenedCells island_game_chorded = 71 /\
  wsub (cells_size island_game_chorded) (bombs island_game_chorded) = 71 /\
  state island_game_chorded = MGS_Active.
Proof.
  split; [exact reachable_island_game_prepared |].
  split_and!;
    first [ exact Open_island_flood | exact Open_island_chord
          | exact reachable_island_game_unmarked | reflexivity ].
Qed.

(** ** A flood that does not start *)

Lemma reachable_crowded_game_prepared begin_pos : reachable begin_pos crowded_game_prepared.
Proof.
  apply (reachable_play begin_pos crowded_calls crowded_game).
  - apply (reachable_CreateGame begin_pos 9 9 75 crowded_draws). vm_compute. reflexivity.
  - vm_compute. reflexivity.
Qed.

(** C6 at a game the code can reach ([NewGame( 9, 9, 75 )] with the draws
    0, 1, 0, 1, ..., 0, 62, 78, which leave three mines while [bombs] is 75;
    five cells with a stored count other than zero opened one by one): the
    corner (8, 8) is closed, unlabelled, no mine, with a stored count of
    zero; the three cells around it are closed, unlabelled, no mines, with
    stored counts other than zero.  [Open()] on the corner opens that cell
    alone and declares the game won: the three cells on its border stay
    closed. *)
Theorem Open_zero_cell_without_flood :
  (forall begin_pos, reachable begin_pos crowded_game_prepared) /\
  state crowded_game_prepared = MGS_Active /\
  bombs crowded_game_prepared = 75 /\
  count_mines crowded_game_prepared = 3%nat /\
  findNeighbors 80 crowded_game_prepared = Ret [70; 71; 79] crowded_game_prepared /\
  cells crowded_game_prepared !! 80%nat = Some (mkCell false false MCL_None 0) /\
  cells crowded_game_prepared !! 70%nat = Some (mkCell false false MCL_None 2) /\
  cells crowded_game_prepared !! 71%nat = Some (mkCell false false MCL_None 1) /\
  cells crowded_game_prepared !! 79%nat = Some (mkCell false false MCL_None 1) /\
  mines_around crowded_game_prepared 80 = 0 /\
  (forall begin_pos fuel,
     perform begin_pos (CallOpen fuel 8 8) crowded_game_prepared = Ret tt crowded_game_won) /\
  state crowded_game_won = MGS_Success /\
  numberOfOpenedCells crowded_game_won = 6 /\
  cells crowded_game_won !! 80%nat = Some (mkCell false true MCL_None 0) /\
  cells crowded_game_won !! 70%nat = Some (mkCell false false MCL_None 2) /\
  cells crowded_game_won !! 71%nat = Some (mkCell false false MCL_None 1) /\
  cells crowded_game_won !! 79%nat = Some (mkCell false false MCL_None 1).
Proof.
  split; [exact reachable_crowded_game_prepared |].
  split_and!; try reflexivity.
Qed.

(** ** A flood over fresh cells *)

Lemma closed_cells_insert (l : list CMinesweeperCell) j c :
  l !! j = Some c -> isOpened c = false ->
  S (length (List.filter (fun c => negb (isOpened c)) (<[j := cell_opened c]> l))) =
  length (List.filter (fun c => negb (isOpened c)) l).
Proof.
  revert j. induction l as [| x l IH]; intros [| j] Hj Ho; simpl in *; try discriminate.
  - injection Hj as ->. rewrite Ho. reflexivity.
  - destruct (negb (isOpened x)); simpl; rewrite <- (IH j Hj Ho); reflexivity.
Qed.

Lemma length_uset_insert x (s : list N) : (length (uset_insert x s) <= S (length s))%nat.
Proof.
  unfold uset_insert. destruct (uset_mem x s); [lia |].
  rewrite length_app. simpl. lia.
Qed.

Lemma length_uset_erase x (s : list N) :
  x ∈ s -> (length (uset_erase x s) < length s)%nat.
Proof.
  unfold uset_erase. induction s as [| y s IH]; intros Hx.
  - now apply elem_of_nil in Hx.
  - simpl. destruct (N.eqb_spec x y) as [-> | Hne]; simpl.
    + pose proof (filter_length_le (fun y0 => negb (y =? y0)) s). lia.
    + apply elem_of_cons in Hx. destruct Hx as [-> | Hx]; [congruence |].
      specialize (IH Hx). lia.
Qed.

Lemma is_opened_lookup g i c :
  cells g !! N.to_nat i = Some c -> is_opened g i = isOpened c.
Proof. unfold is_opened. now intros ->. Qed.

Section Region.

Variables (g : CMinesweeperGame) (seed : N).
Hypothesis g_wf : wf g.
Hypothesis region_fresh : forall i, in_region g seed i -> fresh_position g i.

Lemma is_opened_insert g1 x (cx : CMinesweeperCell) cs n s j :
  cells g1 !! N.to_nat x = Some cx ->
  cs = <[N.to_nat x := cell_opened cx]> (cells g1) ->
  is_opened g1 j = true ->
  is_opened (with_numberOfOpenedCells n (with_modifiedCellIndices s (with_cells cs g1))) j = true.
Proof.
  intros Hx -> Hj. unfold is_opened in *. simpl.
  destruct (decide (N.to_nat j = N.to_nat x)) as [Heq | Hne].
  - rewrite Heq, list_lookup_insert_eq by (eapply lookup_lt_Some, Hx). reflexivity.
  - now rewrite list_lookup_insert_ne by congruence.
Qed.

(** One closed cell of the region opened by [open], and put in
    [unprocessed] when it stores a count of zero. *)
Lemma flooding_open current unprocessed g1 x cx :
  flooding g seed g1 (current :: unprocessed) ->
  in_region g seed x ->
  cells g !! N.to_nat x = Some cx ->
  cells g1 !! N.to_nat x = Some cx ->
  isOpened cx = false ->
  let g2 := with_numberOfOpenedCells (wadd (numberOfOpenedCells g1) 1)
              (with_modifiedCellIndices (uset_insert x (modifiedCellIndices g1))
                 (with_cells (<[N.to_nat x := cell_opened cx]> (cells g1)) g1)) in
  let unprocessed' := if numberOfNeighborBombs cx =? 0
                      then uset_insert x unprocessed else unprocessed in
  flooding g seed g2 (current :: unprocessed') /\
  is_opened g2 x = true /\
  (forall j, is_opened g1 j = true -> is_opened g2 j = true) /\
  (closed_cells g2 + length unprocessed' <= closed_cells g1 + length unprocessed)%nat.
Proof.
  intros [Hs Hr Hc Hlen Hcells Hun Hproc Hseed] Hx Hcx Hcx1 Ho g2 unprocessed'.
  assert (Hmono : forall j, is_opened g1 j = true -> is_opened g2 j = true).
  { intros j. now apply (is_opened_insert g1 x cx). }
  assert (Hopen : is_opened g2 x = true).
  { unfold is_opened, g2. simpl.
    rewrite list_lookup_insert_eq by (eapply lookup_lt_Some, Hcx1). reflexivity. }
  assert (Hsub : forall i, i ∈ unprocessed -> i ∈ unprocessed').
  { intros i Hi. unfold unprocessed'.
    destruct (numberOfNeighborBombs cx =? 0); [| exact Hi].
    apply elem_of_uset_insert. now right. }
  split_and!; [constructor | exact Hopen | exact Hmono |]; simpl; try assumption.
  - now rewrite length_insert.
  - intros j c Hj. destruct (decide (j = N.to_nat x)) as [-> | Hne].
    + assert (c = cx) by congruence. subst c. right. split.
      * now rewrite N2Nat.id.
      * apply list_lookup_insert_eq. eapply lookup_lt_Some, Hcx1.
    + rewrite list_lookup_insert_ne by congruence. now apply Hcells.
  - intros i Hi. apply elem_of_cons in Hi. destruct Hi as [-> | Hi].
    { apply Hun. apply list_elem_of_here. }
    unfold unprocessed' in Hi.
    destruct (numberOfNeighborBombs cx =? 0) eqn:Hz.
    + apply elem_of_uset_insert in Hi. destruct Hi as [-> | Hi].
      * split; [exact Hx |]. unfold zero_position. now rewrite Hcx.
      * apply Hun. now apply list_elem_of_further.
    + apply Hun. now apply list_elem_of_further.
  - intros i ns n Hi Hz Hio Hnot Hns Hn.
    apply Hmono.
    destruct (N.eq_dec i x) as [-> | Hne].
    + exfalso. apply Hnot. apply list_elem_of_further. unfold unprocessed'.
      unfold zero_position in Hz. rewrite Hcx in Hz. rewrite Hz.
      apply elem_of_uset_insert. now left.
    + apply (Hproc i ns n Hi Hz); try assumption.
      * unfold is_opened in Hio |- *. unfold g2 in Hio. simpl in Hio.
        rewrite list_lookup_insert_ne in Hio; [exact Hio |].
        intros Heq. apply Hne. now apply N2Nat.inj.
      * intros Hin. apply Hnot. apply elem_of_cons in Hin.
        destruct Hin as [-> | Hin]; [apply list_elem_of_here |].
        apply list_elem_of_further. now apply Hsub.
  - now apply Hmono.
  - unfold closed_cells, g2. simpl.
    pose proof (closed_cells_insert (cells g1) (N.to_nat x) cx Hcx1 Ho) as Hcount.
    assert (Hlen' : (length unprocessed' <= S (length unprocessed))%nat).
    { unfold unprocessed'. destruct (numberOfNeighborBombs cx =? 0); [| lia].
      apply length_uset_insert. }
    lia.
Qed.

(** The [for] loop over positions of the region: it opens them all, and
    never returns early. *)
Lemma openNeighbors_for_flooding current neighbors : forall unprocessed g1,
  flooding g seed g1 (current :: unprocessed) ->
  (forall n, n ∈ neighbors -> in_region g seed n) ->
  exists unprocessed' g2,
    openNeighbors_for neighbors unprocessed g1 = Ret (Some unprocessed') g2 /\
    flooding g seed g2 (current :: unprocessed') /\
    (forall n, n ∈ neighbors -> is_opened g2 n = true) /\
    (forall j, is_opened g1 j = true -> is_opened g2 j = true) /\
    (closed_cells g2 + length unprocessed' <= closed_cells g1 + length unprocessed)%nat.
Proof.
  induction neighbors as [| x neighbors IH]; intros unprocessed g1 Hg1 Hregion.
  - exists unprocessed, g1. split_and!; auto.
    intros n Hn. now apply elem_of_nil in Hn.
  - assert (Hx : in_region g seed x) by (apply Hregion, list_elem_of_here).
    destruct (region_fresh x Hx) as (cx & Hcx & Ho & Hl & Hb).
    assert (Hrest : forall n, n ∈ neighbors -> in_region g seed n)
      by (intros n Hn; apply Hregion; now apply list_elem_of_further).
    simpl.
    destruct (flooding_cells _ _ _ _ Hg1 _ _ Hcx) as [Hcx1 | [_ Hcx1]].
    + (* closed: opened now *)
      rewrite (bind_Ret _ _ _ _ _ (cellAt_Some _ _ _ Hcx1)).
      unfold IsOpened. rewrite Ho. simpl.
      rewrite (bind_Ret _ _ _ _ _
                 (open_safe g1 x cx (flooding_state _ _ _ _ Hg1) Hcx1 Ho Hl Hb)).
      simpl.
      destruct (flooding_open current unprocessed g1 x cx Hg1 Hx Hcx Hcx1 Ho)
        as (Hg2 & Hopen & Hmono & Hmeasure).
      set (g2 := with_numberOfOpenedCells _ _) in *.
      assert (Hcx2 : cells g2 !! N.to_nat x = Some (cell_opened cx)).
      { unfold g2. simpl. apply list_lookup_insert_eq. eapply lookup_lt_Some, Hcx1. }
      rewrite (bind_Ret _ _ _ _ _ (cellAt_Some _ _ _ Hcx2)).
      unfold GetNumberOfNeighborBombs. simpl.
      set (unprocessed1 := if numberOfNeighborBombs cx =? 0
                           then uset_insert x unprocessed else unprocessed) in *.
      destruct (IH unprocessed1 g2 Hg2 Hrest)
        as (w' & g3 & Hrun & Hg3 & Hall & Hmono' & Hmeasure').
      exists w', g3. split_and!; auto.
      * rewrite <- Hrun. unfold unprocessed1.
        now destruct (numberOfNeighborBombs cx =? 0).
      * intros n Hn. apply elem_of_cons in Hn. destruct Hn as [-> | Hn]; auto.
      * lia.
    + (* opened already *)
      rewrite (bind_Ret _ _ _ _ _ (cellAt_Some _ _ _ Hcx1)). simpl.
      destruct (IH unprocessed g1 Hg1 Hrest)
        as (w' & g3 & Hrun & Hg3 & Hall & Hmono' & Hmeasure').
      exists w', g3. split_and!; auto.
      intros n Hn. apply elem_of_cons in Hn. destruct Hn as [-> | Hn]; auto.
      apply Hmono'. now rewrite (is_opened_lookup g1 x _ Hcx1).
Qed.

Lemma flooding_findNeighbors g1 unprocessed current :
  flooding g seed g1 unprocessed ->
  in_region g seed current ->
  exists ns,
    neighborPositions (rows g) (columns g) (cells_size g) current = Some ns /\
    findNeighbors current g1 = Ret ns g1.
Proof.
  intros Hg1 Hcur.
  destruct (region_fresh current Hcur) as (c & Hc & _).
  pose proof (lookup_Some_lt_size _ _ _ Hc) as Hlt.
  destruct (findNeighbors_wf g current g_wf Hlt) as (ns & Hfind & _).
  assert (Hsize : cells_size g1 = cells_size g).
  { unfold cells_size. now rewrite (flooding_length _ _ _ _ Hg1). }
  rewrite findNeighbors_eq in Hfind.
  rewrite findNeighbors_eq, (flooding_rows _ _ _ _ Hg1), (flooding_columns _ _ _ _ Hg1), Hsize.
  destruct (current <? cells_size g); [| discriminate].
  destruct (columns g =? 0); [discriminate |].
  destruct (neighborPositions (rows g) (columns g) (cells_size g) current) as [ns' |];
    [| discriminate].
  exists ns'. split; [reflexivity |]. congruence.
Qed.

(** With a unit of fuel for every closed cell and every position in
    [unprocessed], the [while] loop comes to its end. *)
Lemma openNeighbors_while_flooding begin_pos fuel : forall unprocessed g1,
  flooding g seed g1 unprocessed ->
  (closed_cells g1 + length unprocessed <= fuel)%nat ->
  exists g',
    openNeighbors_while begin_pos fuel unprocessed g1 = Ret tt g' /\
    flooding g seed g' [].
Proof.
  induction fuel as [| fuel IH]; intros unprocessed g1 Hg1 Hfuel.
  - destruct unprocessed; [| simpl in Hfuel; lia]. exists g1. auto.
  - destruct (decide (unprocessed = [])) as [-> | Hne].
    { exists g1. auto. }
    rewrite openNeighbors_while_step by exact Hne.
    set (current := uset_begin begin_pos unprocessed).
    assert (Hcur : current ∈ unprocessed) by now apply uset_begin_elem_of.
    destruct (flooding_unprocessed _ _ _ _ Hg1 _ Hcur) as [Hregion Hzero].
    destruct (flooding_findNeighbors g1 unprocessed current Hg1 Hregion) as (ns & Hns & Hfind).
    rewrite (bind_Ret _ _ _ _ _ Hfind).
    assert (Hg1' : flooding g seed g1 (current :: uset_erase current unprocessed)).
    { destruct Hg1 as [Hs Hr Hc Hlen Hcells Hun Hproc Hseed].
      constructor; try assumption.
      - intros i Hi. apply Hun. apply elem_of_cons in Hi.
        destruct Hi as [-> | Hi]; [exact Hcur |]. now apply elem_of_uset_erase in Hi.
      - intros i ns' n Hi Hz Hio Hnot. apply (Hproc i ns' n Hi Hz Hio).
        intros Hin. apply Hnot.
        destruct (N.eq_dec i current) as [-> | Hneq]; [apply list_elem_of_here |].
        apply list_elem_of_further, elem_of_uset_erase. auto. }
    destruct (openNeighbors_for_flooding current ns (uset_erase current unprocessed) g1 Hg1')
      as (w' & g2 & Hrun & Hg2 & Hall & Hmono & Hmeasure).
    { intros n Hn. exact (in_region_step g seed current ns n Hregion Hzero Hns Hn). }
    rewrite (bind_Ret _ _ _ _ _ Hrun).
    apply IH.
    + destruct Hg2 as [Hs Hr Hc Hlen Hcells Hun Hproc Hseed].
      constructor; try assumption.
      * intros i Hi. apply Hun. now apply list_elem_of_further.
      * intros i ns' n Hi Hz Hio Hnot Hns' Hn.
        destruct (N.eq_dec i current) as [-> | Hneq].
        -- apply Hall. congruence.
        -- apply (Hproc i ns' n Hi Hz Hio); try assumption.
           intros Hin. apply elem_of_cons in Hin. destruct Hin as [-> | Hin]; auto.
    + pose proof (length_uset_erase current unprocessed Hcur). lia.
Qed.

(** In an active game of valid dimensions, when the region of a closed cell
    that stores a count of zero holds only closed, unlabelled cells that are
    no mines, and that cell is not the last one the game counts as safe:
    whatever the order of the unordered set, with a unit of fuel for every
    closed cell [Open] on it returns, and it has opened the cells of the
    region and no other. *)
Lemma Open_floods_region begin_pos fuel c :
  state g = MGS_Active ->
  cells g !! N.to_nat seed = Some c ->
  numberOfNeighborBombs c = 0 ->
  (wadd (numberOfOpenedCells g) 1 <? wsub (cells_size g) (bombs g)) = true ->
  (closed_cells g <= fuel)%nat ->
  exists g',
    Open begin_pos fuel seed g = Ret tt g' /\
    state g' = MGS_Active /\
    (forall j cj, cells g !! j = Some cj -> in_region g seed (N.of_nat j) ->
                  cells g' !! j = Some (cell_opened cj)) /\
    (forall j cj, cells g !! j = Some cj -> ~ in_region g seed (N.of_nat j) ->
                  cells g' !! j = Some cj).
Proof.
  intros Hs Hc Hzero Hn Hfuel.
  destruct (region_fresh seed (in_region_seed g seed)) as (c' & Hc' & Ho & Hl & Hb).
  assert (c' = c) by congruence. subst c'.
  unfold Open. rewrite (OnOpen_safe_zero begin_pos fuel seed g c Hs Hc Ho Hl Hb Hzero Hn).
  set (g1 := with_numberOfOpenedCells _ _).
  assert (Hc1 : cells g1 !! N.to_nat seed = Some (cell_opened c)).
  { unfold g1. simpl. apply list_lookup_insert_eq. eapply lookup_lt_Some, Hc. }
  assert (Hg1 : flooding g seed g1 [seed]).
  { constructor; try reflexivity.
    - exact Hs.
    - unfold g1. simpl. apply length_insert.
    - intros j cj Hj. destruct (decide (j = N.to_nat seed)) as [-> | Hne].
      + assert (cj = c) by congruence. subst cj. right.
        rewrite N2Nat.id. split; [constructor | exact Hc1].
      + left. unfold g1. simpl. now rewrite list_lookup_insert_ne by congruence.
    - intros i Hi. apply list_elem_of_singleton in Hi. subst i.
      split; [constructor |]. unfold zero_position. rewrite Hc. now apply N.eqb_eq.
    - intros i ns n Hi Hz Hio Hnot _ _. exfalso.
      destruct (region_fresh i Hi) as (ci & Hci & Hoi & _).
      assert (Hne : N.to_nat i <> N.to_nat seed).
      { intros Heq. apply Hnot, list_elem_of_singleton. now apply N2Nat.inj. }
      unfold is_opened, g1 in Hio. simpl in Hio.
      rewrite list_lookup_insert_ne, Hci in Hio by congruence. congruence.
    - now rewrite (is_opened_lookup g1 seed _ Hc1). }
  assert (Hmeasure : (closed_cells g1 + length [seed] <= fuel)%nat).
  { unfold closed_cells, g1. simpl.
    pose proof (closed_cells_insert (cells g) (N.to_nat seed) c Hc Ho).
    unfold closed_cells in Hfuel. lia. }
  destruct (openNeighbors_while_flooding begin_pos fuel [seed] g1 Hg1 Hmeasure)
    as (g' & Hrun & Hg').
  exists g'. split; [exact Hrun |].
  destruct Hg' as [Hs' Hr' Hcol' Hlen' Hcells' Hun' Hproc' Hseed'].
  assert (Hall : forall i, in_region g seed i -> is_opened g' i = true).
  { induction 1 as [| i ns n Hi IH Hz Hns Hin]; [exact Hseed' |].
    apply (Hproc' i ns n Hi Hz IH); [apply not_elem_of_nil | exact Hns | exact Hin]. }
  split_and!; [exact Hs' | |].
  - intros j cj Hj Hregion.
    destruct (Hcells' j cj Hj) as [Hsame | [_ Hopened]]; [| exact Hopened].
    exfalso. specialize (Hall _ Hregion). unfold is_opened in Hall.
    rewrite Nat2N.id, Hsame in Hall.
    destruct (region_fresh _ Hregion) as (cj' & Hcj' & Hoj & _).
    rewrite Nat2N.id in Hcj'. congruence.
  - intros j cj Hj Hout.
    destruct (Hcells' j cj Hj) as [Hsame | [Hregion _]]; [exact Hsame | contradiction].
Qed.

End Region.

(** The lemma at work: in the game with the single empty cell (8, 6), before
    any cell is opened, the region of that cell is the cell and the five
    cells around it. *)
Lemma island_region i :
  in_region island_game 78 i -> i ∈ [78; 68; 69; 70; 77; 79].
Proof.
  induction 1 as [| i ns n Hi IH Hz Hns Hin]; [apply list_elem_of_here |].
  apply list_elem_of_In in IH. simpl in IH.
  repeat (destruct IH as [<- | IH]; [try discriminate Hz |]); [| contradiction].
  vm_compute in Hns. injection Hns as <-. now apply list_elem_of_further.
Qed.

Lemma Open_floods_region_witness :
  exists g',
    Open begin_first 81 78 island_game = Ret tt g' /\
    state g' = MGS_Active /\
    (forall j cj, cells island_game !! j = Some cj ->
                  in_region island_game 78 (N.of_nat j) ->
                  cells g' !! j = Some (cell_opened cj)) /\
    (forall j cj, cells island_game !! j = Some cj ->
                  ~ in_region island_game 78 (N.of_nat j) ->
                  cells g' !! j = Some cj).
Proof.
  apply (Open_floods_region island_game 78) with (c := mkCell false false MCL_None 0);
    try reflexivity.
  - apply (reachable_wf begin_first).
    apply (reachable_CreateGame begin_first 9 9 10 island_draws). vm_compute. reflexivity.
  - intros i Hi. apply island_region, list_elem_of_In in Hi. simpl in Hi.
    repeat (destruct Hi as [<- | Hi];
            [eexists; split; [reflexivity | repeat split] |]).
    contradiction.
Defined.

(** * Further properties *)

(** ** The example games *)

Lemma striped_game_wf : wf striped_game.
Proof. apply (reachable_wf begin_first), reachable_striped_game. Qed.

Lemma reachable_crowded_game_flooded : reachable begin_first crowded_game_flooded.
Proof.
  apply (reachable_play begin_first [CallOpen 200 4 4] crowded_game).
  - apply (reachable_CreateGame begin_first 9 9 75 crowded_draws). vm_compute. reflexivity.
  - vm_compute. reflexivity.
Qed.

(** ** The neighbours [findNeighbors] collects *)

Lemma push_position_elem b size i acc l' :
  push_position b size i acc = Some l' ->
  exists l, acc = Some l /\
    (forall n, n ∈ l' <-> n ∈ l \/ (b = true /\ n = i)) /\
    (NoDup l -> (b = true -> i ∉ l) -> NoDup l').
Proof.
  unfold push_position. destruct acc as [l |]; [| discriminate].
  intros H. exists l. split; [reflexivity |].
  destruct b.
  - destruct (i <? size); [| discriminate]. injection H as <-. split.
    + intros n. rewrite elem_of_app, list_elem_of_singleton. tauto.
    + intros Hl Hi. apply NoDup_app. split_and!; [assumption | | apply NoDup_singleton].
      intros x Hx Hx'. apply list_elem_of_singleton in Hx'. subst x. now apply Hi.
  - injection H as <-. split; [| auto].
    intros n. split; [tauto | intros [? | [? _]]; [assumption | discriminate]].
Qed.

(** The coordinates of a position that is given by its row and column. *)
Lemma position_row (c row column : N) :
  column < c -> (c * row + column) / c = row.
Proof.
  intros Hc. symmetry. apply (N.div_unique _ c row column); [assumption | reflexivity].
Qed.

Lemma position_column (c row column : N) :
  column < c -> (c * row + column) mod c = column.
Proof.
  intros Hc. symmetry. apply (N.mod_unique _ c row column); [assumption | reflexivity].
Qed.

Lemma adjacent_sym c i n : adjacent c i n = adjacent c n i.
Proof.
  unfold adjacent. cbv zeta. rewrite (N.eqb_sym i n).
  destruct (i / c <=? n / c + 1), (n / c <=? i / c + 1),
           (i mod c <=? n mod c + 1), (n mod c <=? i mod c + 1); reflexivity.
Qed.

Lemma adjacent_irrefl c i : adjacent c i i = false.
Proof. unfold adjacent. cbv zeta. rewrite N.eqb_refl. now rewrite andb_false_r. Qed.

(** Adjacency in terms of rows and columns. *)
Lemma adjacent_coordinates c row column row' column' :
  column < c -> column' < c ->
  adjacent c (c * row + column) (c * row' + column') = true <->
  row <= row' + 1 /\ row' <= row + 1 /\ column <= column' + 1 /\ column' <= column + 1 /\
  (row <> row' \/ column <> column').
Proof.
  intros Hc Hc'. unfold adjacent. cbv zeta.
  rewrite !position_row, !position_column by assumption.
  rewrite !andb_true_iff, !N.leb_le, negb_true_iff, N.eqb_neq.
  split.
  - intros ((((H1 & H2) & H3) & H4) & H5). split_and!; try assumption.
    destruct (N.eq_dec row row') as [-> | Hne]; [| now left].
    right. intros ->. now apply H5.
  - intros (H1 & H2 & H3 & H4 & H5). split_and!; try assumption.
    intros Heq. assert (Hr : row = row').
    { rewrite <- (position_row c row column Hc), Heq. now apply position_row. }
    assert (Hcol : column = column').
    { rewrite <- (position_column c row column Hc), Heq. now apply position_column. }
    tauto.
Qed.

(** For a grid of [r] rows and [c] columns that fits in a [size_t], the
    positions collected around [index] are the positions of the grid adjacent
    to it, each of them once. *)
Lemma neighborPositions_adjacent r c index :
  1 <= r -> 1 <= c -> r * c < size_t_modulus -> index < r * c ->
  exists ns,
    neighborPositions r c (r * c) index = Some ns /\
    NoDup ns /\
    forall n, n ∈ ns <-> n < r * c /\ adjacent c index n = true.
Proof.
  intros Hr Hc Hsize Hindex.
  destruct (neighborPositions_is_Some r c index Hr Hc Hsize Hindex) as [ns Hns].
  exists ns. split; [exact Hns |].
  pose proof (neighborPositions_range _ _ _ _ _ Hns) as Hrange.
  rewrite Forall_forall in Hrange.
  assert (Hrow : index / c < r) by (apply N.Div0.div_lt_upper_bound; lia).
  assert (Hcol : index mod c < c) by (apply N.mod_lt; lia).
  pose proof (N.Div0.div_mod index c) as Hdm.
  assert (Hmod : size_t_modulus = 18446744073709551616) by reflexivity.
  rewrite Hmod in Hsize.
  unfold neighborPositions in Hns. cbv zeta in Hns.
  rewrite !(wsub_small r 1), !(wsub_small c 1) in Hns by (rewrite ?Hmod; lia).
  set (row := index / c) in *. set (column := index mod c) in *.
  apply push_position_elem in Hns. destruct Hns as (l7 & Hns & In8 & Nd8).
  apply push_position_elem in Hns. destruct Hns as (l6 & Hns & In7 & Nd7).
  apply push_position_elem in Hns. destruct Hns as (l5 & Hns & In6 & Nd6).
  apply push_position_elem in Hns. destruct Hns as (l4 & Hns & In5 & Nd5).
  apply push_position_elem in Hns. destruct Hns as (l3 & Hns & In4 & Nd4).
  apply push_position_elem in Hns. destruct Hns as (l2 & Hns & In3 & Nd3).
  apply push_position_elem in Hns. destruct Hns as (l1 & Hns & In2 & Nd2).
  apply push_position_elem in Hns. destruct Hns as (l0 & Hns & In1 & Nd1).
  injection Hns as <-.
  assert (Hlt : forall a b a' b', b < c -> b' < c -> c * a + b = c * a' + b' -> a = a' /\ b = b').
  { intros a b a' b' Hb Hb' Heq. split.
    - rewrite <- (position_row c a b Hb), Heq. now apply position_row.
    - rewrite <- (position_column c a b Hb), Heq. now apply position_column. }
  assert (Hbound : c * row + column < 18446744073709551616 /\ c * row + c <= r * c) by nia.
  clearbody row column. subst index.
  assert (E1 : (0 <? row) && (0 <? column) = true ->
               wsub (wsub (c * row + column) c) 1 = c * (row - 1) + (column - 1)).
  { rewrite andb_true_iff, !N.ltb_lt. intros [Ht Hl].
    rewrite (wsub_small (c * row + column) c) by (rewrite ?Hmod; nia).
    rewrite wsub_small by (rewrite ?Hmod; nia). nia. }
  assert (E2 : (0 <? row) = true -> wsub (c * row + column) c = c * (row - 1) + column).
  { rewrite N.ltb_lt. intros Ht. rewrite wsub_small by (rewrite ?Hmod; nia). nia. }
  assert (E3 : (0 <? row) && (column <? c - 1) = true ->
               wadd (wsub (c * row + column) c) 1 = c * (row - 1) + (column + 1)).
  { rewrite andb_true_iff, !N.ltb_lt. intros [Ht Hl].
    rewrite (wsub_small (c * row + column) c) by (rewrite ?Hmod; nia).
    rewrite wadd_small by (rewrite ?Hmod; nia). nia. }
  assert (E4 : (0 <? column) = true -> wsub (c * row + column) 1 = c * row + (column - 1)).
  { rewrite N.ltb_lt. intros Hl. rewrite wsub_small by (rewrite ?Hmod; nia). nia. }
  assert (E5 : (column <? c - 1) = true -> wadd (c * row + column) 1 = c * row + (column + 1)).
  { rewrite N.ltb_lt. intros Hl. rewrite wadd_small by (rewrite ?Hmod; nia). nia. }
  assert (E6 : (row <? r - 1) && (0 <? column) = true ->
               wsub (wadd (c * row + column) c) 1 = c * (row + 1) + (column - 1)).
  { rewrite andb_true_iff, !N.ltb_lt. intros [Ht Hl].
    rewrite (wadd_small (c * row + column) c) by (rewrite ?Hmod; nia).
    rewrite wsub_small by (rewrite ?Hmod; nia). nia. }
  assert (E7 : (row <? r - 1) = true -> wadd (c * row + column) c = c * (row + 1) + column).
  { rewrite N.ltb_lt. intros Ht. rewrite wadd_small by (rewrite ?Hmod; nia). nia. }
  assert (E8 : (row <? r - 1) && (column <? c - 1) = true ->
               wadd (wadd (c * row + column) c) 1 = c * (row + 1) + (column + 1)).
  { rewrite andb_true_iff, !N.ltb_lt. intros [Ht Hl].
    rewrite (wadd_small (c * row + column) c) by (rewrite ?Hmod; nia).
    rewrite wadd_small by (rewrite ?Hmod; nia). nia. }
  (* the elements of the lists by their coordinates, in the order of the grid *)
  pose (Q := fun (K n : N) =>
          exists a b, n = c * a + b /\ b < c /\
            row <= a + 1 /\ a <= row + 1 /\ column <= b + 1 /\ b <= column + 1 /\
            3 * (a + 1 - row) + (b + 1 - column) < K /\ (row <> a \/ column <> b)).
  assert (Qmono : forall K K' n, K <= K' -> Q K n -> Q K' n).
  { intros K K' n HK (a & b & Hn & H1 & H2 & H3 & H4 & H5 & H6 & H7).
    exists a, b. split_and!; try assumption. lia. }
  assert (P1 : forall n, n ∈ l1 -> Q 1 n).
  { intros n Hn. apply In1 in Hn. destruct Hn as [Hn | [Hb Hn]]; [now apply elem_of_nil in Hn |].
    rewrite (E1 Hb) in Hn. rewrite ?andb_true_iff, ?N.ltb_lt in Hb.
    exists (row - 1), (column - 1). split_and!; first [exact Hn | lia]. }
  assert (P2 : forall n, n ∈ l2 -> Q 2 n).
  { intros n Hn. apply In2 in Hn. destruct Hn as [Hn | [Hb Hn]];
      [apply (Qmono 1); [lia | now apply P1] |].
    rewrite (E2 Hb) in Hn. rewrite ?andb_true_iff, ?N.ltb_lt in Hb.
    exists (row - 1), column. split_and!; first [exact Hn | lia]. }
  assert (P3 : forall n, n ∈ l3 -> Q 3 n).
  { intros n Hn. apply In3 in Hn. destruct Hn as [Hn | [Hb Hn]];
      [apply (Qmono 2); [lia | now apply P2] |].
    rewrite (E3 Hb) in Hn. rewrite ?andb_true_iff, ?N.ltb_lt in Hb.
    exists (row - 1), (column + 1). split_and!; first [exact Hn | lia]. }
  assert (P4 : forall n, n ∈ l4 -> Q 4 n).
  { intros n Hn. apply In4 in Hn. destruct Hn as [Hn | [Hb Hn]];
      [apply (Qmono 3); [lia | now apply P3] |].
    rewrite (E4 Hb) in Hn. rewrite ?andb_true_iff, ?N.ltb_lt in Hb.
    exists row, (column - 1). split_and!; first [exact Hn | lia]. }
  assert (P5 : forall n, n ∈ l5 -> Q 6 n).
  { intros n Hn. apply In5 in Hn. destruct Hn as [Hn | [Hb Hn]];
      [apply (Qmono 4); [lia | now apply P4] |].
    rewrite (E5 Hb) in Hn. rewrite ?andb_true_iff, ?N.ltb_lt in Hb.
    exists row, (column + 1). split_and!; first [exact Hn | lia]. }
  assert (P6 : forall n, n ∈ l6 -> Q 7 n).
  { intros n Hn. apply In6 in Hn. destruct Hn as [Hn | [Hb Hn]];
      [apply (Qmono 6); [lia | now apply P5] |].
    rewrite (E6 Hb) in Hn. rewrite ?andb_true_iff, ?N.ltb_lt in Hb.
    exists (row + 1), (column - 1). split_and!; first [exact Hn | lia]. }
  assert (P7 : forall n, n ∈ l7 -> Q 8 n).
  { intros n Hn. apply In7 in Hn. destruct Hn as [Hn | [Hb Hn]];
      [apply (Qmono 7); [lia | now apply P6] |].
    rewrite (E7 Hb) in Hn. rewrite ?andb_true_iff, ?N.ltb_lt in Hb.
    exists (row + 1), column. split_and!; first [exact Hn | lia]. }
  assert (P8 : forall n, n ∈ ns -> Q 9 n).
  { intros n Hn. apply In8 in Hn. destruct Hn as [Hn | [Hb Hn]];
      [apply (Qmono 8); [lia | now apply P7] |].
    rewrite (E8 Hb) in Hn. rewrite ?andb_true_iff, ?N.ltb_lt in Hb.
    exists (row + 1), (column + 1). split_and!; first [exact Hn | lia]. }
  (* every candidate is in the final list *)
  assert (M1 : (0 <? row) && (0 <? column) = true -> c * (row - 1) + (column - 1) ∈ ns).
  { intros Hb. rewrite <- (E1 Hb). apply In8; left. apply In7; left. apply In6; left.
    apply In5; left. apply In4; left. apply In3; left. apply In2; left. apply In1; right. auto. }
  assert (M2 : (0 <? row) = true -> c * (row - 1) + column ∈ ns).
  { intros Hb. rewrite <- (E2 Hb). apply In8; left. apply In7; left. apply In6; left.
    apply In5; left. apply In4; left. apply In3; left. apply In2; right. auto. }
  assert (M3 : (0 <? row) && (column <? c - 1) = true -> c * (row - 1) + (column + 1) ∈ ns).
  { intros Hb. rewrite <- (E3 Hb). apply In8; left. apply In7; left. apply In6; left.
    apply In5; left. apply In4; left. apply In3; right. auto. }
  assert (M4 : (0 <? column) = true -> c * row + (column - 1) ∈ ns).
  { intros Hb. rewrite <- (E4 Hb). apply In8; left. apply In7; left. apply In6; left.
    apply In5; left. apply In4; right. auto. }
  assert (M5 : (column <? c - 1) = true -> c * row + (column + 1) ∈ ns).
  { intros Hb. rewrite <- (E5 Hb). apply In8; left. apply In7; left. apply In6; left.
    apply In5; right. auto. }
  assert (M6 : (row <? r - 1) && (0 <? column) = true -> c * (row + 1) + (column - 1) ∈ ns).
  { intros Hb. rewrite <- (E6 Hb). apply In8; left. apply In7; left. apply In6; right. auto. }
  assert (M7 : (row <? r - 1) = true -> c * (row + 1) + column ∈ ns).
  { intros Hb. rewrite <- (E7 Hb). apply In8; left. apply In7; right. auto. }
  assert (M8 : (row <? r - 1) && (column <? c - 1) = true -> c * (row + 1) + (column + 1) ∈ ns).
  { intros Hb. rewrite <- (E8 Hb). apply In8; right. auto. }
  split.
  - apply Nd8; [apply Nd7; [apply Nd6; [apply Nd5; [apply Nd4; [apply Nd3; [apply Nd2;
      [apply Nd1; [constructor | intros _; apply not_elem_of_nil] |] |] |] |] |] |] |];
      intros Hb Hin.
    + destruct (P1 _ Hin) as (a & b & Heq & Hb1 & Hq). rewrite (E2 Hb) in Heq.
      rewrite ?andb_true_iff, ?N.ltb_lt in Hb. apply Hlt in Heq; lia.
    + destruct (P2 _ Hin) as (a & b & Heq & Hb1 & Hq). rewrite (E3 Hb) in Heq.
      rewrite ?andb_true_iff, ?N.ltb_lt in Hb. apply Hlt in Heq; lia.
    + destruct (P3 _ Hin) as (a & b & Heq & Hb1 & Hq). rewrite (E4 Hb) in Heq.
      rewrite ?andb_true_iff, ?N.ltb_lt in Hb. apply Hlt in Heq; lia.
    + destruct (P4 _ Hin) as (a & b & Heq & Hb1 & Hq). rewrite (E5 Hb) in Heq.
      rewrite ?andb_true_iff, ?N.ltb_lt in Hb. apply Hlt in Heq; lia.
    + destruct (P5 _ Hin) as (a & b & Heq & Hb1 & Hq). rewrite (E6 Hb) in Heq.
      rewrite ?andb_true_iff, ?N.ltb_lt in Hb. apply Hlt in Heq; lia.
    + destruct (P6 _ Hin) as (a & b & Heq & Hb1 & Hq). rewrite (E7 Hb) in Heq.
      rewrite ?andb_true_iff, ?N.ltb_lt in Hb. apply Hlt in Heq; lia.
    + destruct (P7 _ Hin) as (a & b & Heq & Hb1 & Hq). rewrite (E8 Hb) in Heq.
      rewrite ?andb_true_iff, ?N.ltb_lt in Hb. apply Hlt in Heq; lia.
  - intros n. split.
    + intros Hn. split; [now apply Hrange |].
      destruct (P8 _ Hn) as (a & b & -> & Hb1 & H1 & H2 & H3 & H4 & _ & H6).
      apply adjacent_coordinates; [lia | assumption |]. tauto.
    + intros [Hn Hadj].
      assert (Ha : n / c < r) by (apply N.Div0.div_lt_upper_bound; lia).
      assert (Hb : n mod c < c) by (apply N.mod_lt; lia).
      rewrite (N.Div0.div_mod n c) in Hadj |- *.
      generalize dependent (n / c). generalize dependent (n mod c). intros b Hb a Hadj Ha.
      apply adjacent_coordinates in Hadj; [| lia | assumption].
      destruct Hadj as (H1 & H2 & H3 & H4 & H5).
      assert (Ha' : a + 1 = row \/ a = row \/ a = row + 1) by lia.
      assert (Hb' : b + 1 = column \/ b = column \/ b = column + 1) by lia.
      destruct Ha' as [Ha' | [Ha' | Ha']], Hb' as [Hb' | [Hb' | Hb']];
        first
          [ lia
          | replace a with (row - 1) by lia; replace b with (column - 1) by lia;
            apply M1; rewrite ?andb_true_iff, ?N.ltb_lt; lia
          | replace a with (row - 1) by lia; replace b with column by lia;
            apply M2; rewrite ?andb_true_iff, ?N.ltb_lt; lia
          | replace a with (row - 1) by lia; replace b with (column + 1) by lia;
            apply M3; rewrite ?andb_true_iff, ?N.ltb_lt; lia
          | replace a with row by lia; replace b with (column - 1) by lia;
            apply M4; rewrite ?andb_true_iff, ?N.ltb_lt; lia
          | replace a with row by lia; replace b with (column + 1) by lia;
            apply M5; rewrite ?andb_true_iff, ?N.ltb_lt; lia
          | replace a with (row + 1) by lia; replace b with (column - 1) by lia;
            apply M6; rewrite ?andb_true_iff, ?N.ltb_lt; lia
          | replace a with (row + 1) by lia; replace b with column by lia;
            apply M7; rewrite ?andb_true_iff, ?N.ltb_lt; lia
          | replace a with (row + 1) by lia; replace b with (column + 1) by lia;
            apply M8; rewrite ?andb_true_iff, ?N.ltb_lt; lia ].
Qed.

(** In a game of valid dimensions, [findNeighbors] on a position of the grid
    returns the positions of the grid adjacent to it, each of them once, and
    leaves the game as it is. *)
Lemma findNeighbors_neighborPositions g index :
  wf g -> index < cells_size g ->
  exists ns,
    neighborPositions (rows g) (columns g) (cells_size g) index = Some ns /\
    findNeighbors index g = Ret ns g /\
    NoDup ns /\
    forall n, n ∈ ns <-> n < cells_size g /\ adjacent (columns g) index n = true.
Proof.
  intros [Hr Hc Hs _ _] Hi. rewrite findNeighbors_eq.
  apply N.ltb_lt in Hi. rewrite Hi. apply N.ltb_lt in Hi.
  destruct (N.eqb_spec (columns g) 0) as [Hz | _]; [lia |].
  rewrite Hs in Hi |- *.
  destruct (neighborPositions_adjacent (rows g) (columns g) index) as (ns & Hns & Hnd & Hin);
    try lia.
  { change size_t_modulus with 18446744073709551616. nia. }
  rewrite Hns. exists ns. auto.
Qed.

(** [findNeighbors]: in a game of valid dimensions the call on a position of
    the grid returns, without a change of the game, the positions of the grid
    whose row and column differ by one at most from those of [index], [index]
    itself left out, each of them once: three of them at least (in a corner)
    and eight at most.  On an index that is no position of the grid the call
    throws. *)
Theorem findNeighbors_adjacent g index :
  wf g ->
  (index < cells_size g ->
   exists ns,
     findNeighbors index g = Ret ns g /\
     NoDup ns /\
     (forall n, n ∈ ns <-> n < cells_size g /\ adjacent (columns g) index n = true) /\
     (3 <= length ns <= 8)%nat) /\
  (cells_size g <= index -> findNeighbors index g = Throw g).
Proof.
  intros Hwf. split.
  - intros Hi.
    destruct (findNeighbors_neighborPositions g index Hwf Hi) as (ns & Hns & Hfind & Hnd & Hin).
    exists ns. split_and!; try assumption.
    + (* three positions at least: the ones towards the inside of the grid *)
      destruct Hwf as [Hr Hc Hs _ _]. rewrite Hs in Hi, Hin.
      pose proof (N.Div0.div_mod index (columns g)) as Hdm.
      assert (Hrow : index / columns g < rows g) by (apply N.Div0.div_lt_upper_bound; lia).
      assert (Hcol : index mod columns g < columns g) by (apply N.mod_lt; lia).
      set (row := index / columns g) in *. set (column := index mod columns g) in *.
      clearbody row column. subst index.
      set (row' := if row =? 0 then 1 else row - 1).
      set (column' := if column =? 0 then 1 else column - 1).
      assert (Hrow' : row' < rows g /\ row' <= row + 1 /\ row <= row' + 1 /\ row' <> row)
        by (unfold row'; destruct (N.eqb_spec row 0); lia).
      assert (Hcolumn' : column' < columns g /\ column' <= column + 1 /\
                         column <= column' + 1 /\ column' <> column)
        by (unfold column'; destruct (N.eqb_spec column 0); lia).
      clearbody row' column'.
      assert (H1 : columns g * row' + column ∈ ns).
      { apply Hin. split; [nia |]. apply adjacent_coordinates; lia. }
      assert (H2 : columns g * row + column' ∈ ns).
      { apply Hin. split; [nia |]. apply adjacent_coordinates; lia. }
      assert (H3 : columns g * row' + column' ∈ ns).
      { apply Hin. split; [nia |]. apply adjacent_coordinates; lia. }
      assert (Hsub : [columns g * row' + column; columns g * row + column';
                      columns g * row' + column'] ⊆+ ns).
      { apply NoDup_submseteq.
        - assert (Hinj : forall a b a' b', b < columns g -> b' < columns g ->
                    columns g * a + b = columns g * a' + b' -> a = a' /\ b = b').
          { intros a b a' b' Hb Hb' Heq. split.
            - rewrite <- (position_row (columns g) a b Hb), Heq. now apply position_row.
            - rewrite <- (position_column (columns g) a b Hb), Heq.
              now apply position_column. }
          repeat (apply NoDup_cons; split); [| | | apply NoDup_nil; exact I];
            rewrite ?not_elem_of_cons; repeat split;
            try apply not_elem_of_nil; intros Heq; apply Hinj in Heq; lia.
        - intros x Hx. apply list_elem_of_In in Hx. simpl in Hx.
          destruct Hx as [<- | [<- | [<- | []]]]; assumption. }
      apply submseteq_length in Hsub. simpl in Hsub. exact Hsub.
    + (* eight at most *)
      unfold neighborPositions in Hns. cbv zeta in Hns.
      assert (Hpush : forall b size i acc l, push_position b size i acc = Some l ->
                exists l0, acc = Some l0 /\ (length l <= S (length l0))%nat).
      { intros b size i [l0 |] l; simpl; [| discriminate]. intros H. exists l0.
        split; [reflexivity |]. destruct b; [| injection H as <-; lia].
        destruct (i <? size); [| discriminate]. injection H as <-.
        rewrite length_app. simpl. lia. }
      repeat match goal with
             | H : push_position _ _ _ _ = Some _ |- _ =>
                 apply Hpush in H; destruct H as (? & H & ?)
             end.
      injection Hns as <-. simpl in *. lia.
  - intros Hi. rewrite findNeighbors_eq.
    destruct (N.ltb_spec index (cells_size g)); [lia | reflexivity].
Qed.

(** At the striped game: the cell in the middle of the board, and the first
    position past the grid. *)
Lemma findNeighbors_adjacent_witness :
  (exists ns,
     findNeighbors 40 striped_game = Ret ns striped_game /\
     NoDup ns /\
     (forall n, n ∈ ns <->
        n < cells_size striped_game /\ adjacent (columns striped_game) 40 n = true) /\
     (3 <= length ns <= 8)%nat) /\
  findNeighbors 81 striped_game = Throw striped_game.
Proof.
  destruct (findNeighbors_adjacent striped_game 40 striped_game_wf) as [Hin _].
  destruct (findNeighbors_adjacent striped_game 81 striped_game_wf) as [_ Hout].
  split; [apply Hin; reflexivity | apply Hout; now vm_compute].
Defined.

(** ** The checks of [NewGame( rows, columns, bombs )] *)

Lemma NewGame_with_eq r c b draws g :
  NewGame_with r c b draws g =
  if valid_parameters r c b then NewGame draws (with_parameters r c b g) else Throw g.
Proof.
  unfold NewGame_with, valid_parameters.
  unfold bind at 1, internal_check at 1.
  destruct ((9 <=? r) && (r <=? 24)) eqn:Hr; simpl; [| reflexivity].
  unfold bind at 1, internal_check at 1.
  destruct ((9 <=? c) && (c <=? 30)) eqn:Hc; simpl; [| reflexivity].
  apply andb_true_iff in Hr, Hc. rewrite !N.leb_le in Hr, Hc.
  rewrite (bombs_limit_exact r c) by lia.
  assert (Hfloor : (b <=? 93 * r * c / 100) = (100 * b <=? 93 * r * c)).
  { destruct (N.leb_spec b (93 * r * c / 100)) as [Hle | Hgt];
      destruct (N.leb_spec (100 * b) (93 * r * c)) as [Hle' | Hgt']; try reflexivity.
    - pose proof (N.Div0.mul_div_le (93 * r * c) 100). lia.
    - assert (b <= 93 * r * c / 100); [| lia].
      apply N.div_le_lower_bound; lia. }
  rewrite Hfloor.
  unfold bind at 1, internal_check at 1.
  destruct ((10 <=? b) && (100 * b <=? 93 * r * c)); reflexivity.
Qed.

Lemma valid_parameters_spec r c b :
  valid_parameters r c b = true <->
  9 <= r <= 24 /\ 9 <= c <= 30 /\ 10 <= b /\ 100 * b <= 93 * r * c.
Proof.
  unfold valid_parameters. rewrite !andb_true_iff, !N.leb_le. tauto.
Qed.

(** [NewGame( _rows, _columns, _bombs )] goes on to [NewGame()] with the new
    parameters exactly when 9 <= rows <= 24, 9 <= columns <= 30, 10 <= bombs
    and 100 * bombs <= 93 * rows * columns: the product of doubles
    [0.93 * _rows * _columns], truncated, is the floor of that bound.
    Otherwise it throws before it has written a member: the game that was
    running is left as it was, with its old parameters. *)
Theorem NewGame_with_checks r c b draws g :
  NewGame_with r c b draws g =
    (if valid_parameters r c b then NewGame draws (with_parameters r c b g) else Throw g) /\
  (valid_parameters r c b = true <->
   9 <= r <= 24 /\ 9 <= c <= 30 /\ 10 <= b /\ 100 * b <= 93 * r * c).
Proof. split; [apply NewGame_with_eq | apply valid_parameters_spec]. Qed.


(** ** [Cell] and the coordinates of [ModifiedCells] *)

Lemma Cell_eq g row column :
  wf g ->
  Cell row column g =
  if (row <? rows g) && (column <? columns g)
  then Ret (row * columns g + column) g else Throw g.
Proof.
  intros [Hr Hc Hs _ _]. unfold Cell. rewrite (bind_Ret get _ g g g eq_refl).
  unfold bind, internal_check, cellPtr.
  destruct (N.ltb_spec row (rows g)) as [Hrow | Hrow]; [| reflexivity].
  destruct (N.ltb_spec column (columns g)) as [Hcol | Hcol]; [| reflexivity]. simpl.
  rewrite wmul_small by (change size_t_modulus with 18446744073709551616; nia).
  rewrite wadd_small by (change size_t_modulus with 18446744073709551616; nia).
  destruct (N.ltb_spec (row * columns g + column) (cells_size g)); [reflexivity | nia].
Qed.

(** [Cell( row, column )] in a game of valid dimensions: within the grid it
    returns the position [row * columns + column], a position of the vector,
    whose coordinates as [ModifiedCells] computes them ([i / columns],
    [i % columns]) are [row] and [column] again; outside it throws and leaves
    the game as it is.  The other way round, every position of the vector is
    what [Cell] returns at the coordinates [ModifiedCells] gives for it. *)
Theorem Cell_coordinates g :
  wf g ->
  (forall row column,
     Cell row column g =
     if (row <? rows g) && (column <? columns g)
     then Ret (row * columns g + column) g else Throw g) /\
  (forall row column, row < rows g -> column < columns g ->
     row * columns g + column < cells_size g /\
     (row * columns g + column) / columns g = row /\
     (row * columns g + column) mod columns g = column) /\
  (forall i, i < cells_size g ->
     i / columns g < rows g /\ i mod columns g < columns g /\
     Cell (i / columns g) (i mod columns g) g = Ret i g).
Proof.
  intros Hwf.
  assert (Hcell : forall row column,
     Cell row column g =
     if (row <? rows g) && (column <? columns g)
     then Ret (row * columns g + column) g else Throw g).
  { intros row column. now apply Cell_eq. }
  destruct Hwf as [Hr Hc Hs _ _].
  split_and!; [exact Hcell | |].
  - intros row column Hrow Hcol.
    pose proof (coordinates_of_position (columns g) row column Hcol) as Hco.
    injection Hco as Hd Hm. split_and!; [nia | exact Hd | exact Hm].
  - intros i Hi. rewrite Hs in Hi.
    assert (Hrow : i / columns g < rows g) by (apply N.Div0.div_lt_upper_bound; lia).
    assert (Hcol : i mod columns g < columns g) by (apply N.mod_lt; lia).
    split_and!; [exact Hrow | exact Hcol |].
    rewrite Hcell. apply N.ltb_lt in Hrow, Hcol. rewrite Hrow, Hcol. simpl.
    f_equal. pose proof (N.Div0.div_mod i (columns g)). lia.
Qed.

(** At the striped game. *)
Lemma Cell_coordinates_witness :
  (forall row column,
     Cell row column striped_game =
     if (row <? rows striped_game) && (column <? columns striped_game)
     then Ret (row * columns striped_game + column) striped_game
     else Throw striped_game) /\
  (forall row column, row < rows striped_game -> column < columns striped_game ->
     row * columns striped_game + column < cells_size striped_game /\
     (row * columns striped_game + column) / columns striped_game = row /\
     (row * columns striped_game + column) mod columns striped_game = column) /\
  (forall i, i < cells_size striped_game ->
     i / columns striped_game < rows striped_game /\
     i mod columns striped_game < columns striped_game /\
     Cell (i / columns striped_game) (i mod columns striped_game) striped_game
       = Ret i striped_game).
Proof. apply (Cell_coordinates striped_game), striped_game_wf. Defined.

(** ** Counting the cells of a kind *)

Lemma filter_length_insert {A} (f : A -> bool) (l : list A) j c c' :
  l !! j = Some c ->
  (length (List.filter f (<[j := c']> l)) + (if f c then 1 else 0) =
   length (List.filter f l) + (if f c' then 1 else 0))%nat.
Proof.
  revert j. induction l as [| x l IH]; intros [| j] Hj; simpl in *; try discriminate.
  - injection Hj as ->. destruct (f c), (f c'); simpl; lia.
  - specialize (IH j Hj). destruct (f x); simpl; lia.
Qed.

Lemma filter_length_pos {A} (f : A -> bool) (l : list A) j c :
  l !! j = Some c -> f c = true -> (1 <= length (List.filter f l))%nat.
Proof.
  revert j. induction l as [| x l IH]; intros [| j] Hj Hf; simpl in *; try discriminate.
  - injection Hj as ->. rewrite Hf. simpl. lia.
  - specialize (IH j Hj Hf). destruct (f x); simpl; lia.
Qed.

Lemma filter_length_ext {A} (f : A -> bool) (l l' : list A) :
  length l' = length l ->
  (forall j c c', l !! j = Some c -> l' !! j = Some c' -> f c' = f c) ->
  length (List.filter f l') = length (List.filter f l).
Proof.
  revert l'. induction l as [| x l IH]; intros [| x' l'] Hlen Hf; simpl in *; try discriminate.
  - reflexivity.
  - rewrite (Hf 0%nat x x') by reflexivity.
    assert (Hrest : length (List.filter f l') = length (List.filter f l)).
    { apply IH; [lia |]. intros j c c' Hc Hc'. exact (Hf (S j) c c' Hc Hc'). }
    destruct (f x); simpl; now rewrite Hrest.
Qed.

Lemma filter_length_none {A} (f : A -> bool) (l : list A) :
  (forall j c, l !! j = Some c -> f c = false) -> length (List.filter f l) = 0%nat.
Proof.
  induction l as [| x l IH]; intros Hf; simpl; [reflexivity |].
  rewrite (Hf 0%nat x) by reflexivity. apply IH. intros j c Hc. exact (Hf (S j) c Hc).
Qed.

(** ** [plantBomb] *)

Lemma SetIsBomb_closed g index c b :
  cells g !! N.to_nat index = Some c -> isOpened c = false ->
  SetIsBomb index b g =
  Ret tt (with_cells (<[N.to_nat index :=
            {| isBomb := b; isOpened := isOpened c; label := label c;
               numberOfNeighborBombs := 0 |}]> (cells g)) g).
Proof.
  intros Hc Ho. unfold SetIsBomb.
  rewrite (bind_Ret _ _ _ _ _ (cellAt_Some _ _ _ Hc)).
  unfold IsOpened. rewrite Ho. simpl.
  rewrite (bind_Ret (internal_check true) _ g tt g eq_refl).
  apply setCell_lt, (lookup_Some_lt_size _ _ _ Hc).
Qed.

Lemma SetNumberOfNeighborBombs_closed g index c n :
  cells g !! N.to_nat index = Some c -> isOpened c = false ->
  SetNumberOfNeighborBombs index n g =
  Ret tt (with_cells (<[N.to_nat index :=
            {| isBomb := false; isOpened := isOpened c; label := label c;
               numberOfNeighborBombs := n |}]> (cells g)) g).
Proof.
  intros Hc Ho. unfold SetNumberOfNeighborBombs.
  rewrite (bind_Ret _ _ _ _ _ (cellAt_Some _ _ _ Hc)).
  unfold IsOpened. rewrite Ho. simpl.
  rewrite (bind_Ret (internal_check true) _ g tt g eq_refl).
  apply setCell_lt, (lookup_Some_lt_size _ _ _ Hc).
Qed.

Lemma with_cells_with_cells cs cs' g : with_cells cs' (with_cells cs g) = with_cells cs' g.
Proof. reflexivity. Qed.

Lemma with_cells_same g : with_cells (cells g) g = g.
Proof. now destruct g. Qed.

(** The loop of [plantBomb] over the neighbours of the new mine: each of
    them gets one more in its stored count, and loses its mine flag. *)
Lemma forEach_counted ns : forall g,
  NoDup ns -> Forall (fun n => n < cells_size g) ns -> unopened g ->
  exists cs,
    forEach ns (fun cell => let* n := cellAt cell in
                            SetNumberOfNeighborBombs cell (wadd (GetNumberOfNeighborBombs n) 1)) g
    = Ret tt (with_cells cs g) /\
    length cs = length (cells g) /\
    (forall j c, cells g !! j = Some c ->
       cs !! j = Some (if decide (N.of_nat j ∈ ns) then counted_cell c else c)) /\
    (length (List.filter isBomb cs) <= length (List.filter isBomb (cells g)))%nat /\
    ((forall n c, n ∈ ns -> cells g !! N.to_nat n = Some c -> isBomb c = false) ->
     length (List.filter isBomb cs) = length (List.filter isBomb (cells g))).
Proof.
  induction ns as [| x ns IH]; intros g Hnd Hrange Hclosed; simpl.
  - exists (cells g). rewrite with_cells_same.
    split_and!; [reflexivity | reflexivity | | lia | reflexivity].
    intros j c Hc.
    first [assumption | rewrite decide_False; [assumption | apply not_elem_of_nil]].
  - apply NoDup_cons in Hnd. destruct Hnd as [Hx Hnd].
    apply Forall_cons in Hrange. destruct Hrange as [Hxlt Hrange].
    destruct (cellAt_lt g x Hxlt) as (cx & Hcx & Hread).
    pose proof (Hclosed _ _ Hcx) as Hox.
    rewrite (bind_Ret _ _ g tt
               (with_cells (<[N.to_nat x := counted_cell cx]> (cells g)) g)).
    2:{ rewrite (bind_Ret _ _ _ _ _ Hread).
        apply (SetNumberOfNeighborBombs_closed g x cx _ Hcx Hox). }
    set (g1 := with_cells _ g).
    destruct (IH g1) as (cs & Hrun & Hlen & Hcells & Hcount & Hexact).
    + exact Hnd.
    + unfold cells_size, g1. simpl. rewrite length_insert. exact Hrange.
    + intros j c Hj. unfold g1 in Hj. simpl in Hj.
      destruct (decide (j = N.to_nat x)) as [-> | Hne].
      * rewrite list_lookup_insert_eq in Hj by (eapply lookup_lt_Some, Hcx).
        injection Hj as <-. exact Hox.
      * rewrite list_lookup_insert_ne in Hj by congruence. now apply (Hclosed j).
    + exists cs. split_and!.
      * rewrite Hrun. reflexivity.
      * rewrite Hlen. unfold g1. simpl. apply length_insert.
      * intros j c Hj. destruct (decide (j = N.to_nat x)) as [-> | Hne].
        -- assert (c = cx) by congruence. subst c.
           rewrite (Hcells (N.to_nat x) (counted_cell cx)).
           2:{ unfold g1. simpl. apply list_lookup_insert_eq. eapply lookup_lt_Some, Hcx. }
           rewrite N2Nat.id. rewrite (decide_False (P := x ∈ ns)) by assumption.
           rewrite decide_True; [reflexivity | apply list_elem_of_here].
        -- rewrite (Hcells j c).
           2:{ unfold g1. simpl. now rewrite list_lookup_insert_ne by congruence. }
           destruct (decide (N.of_nat j ∈ ns)) as [Hin | Hnin].
           ++ rewrite decide_True; [reflexivity | now apply list_elem_of_further].
           ++ rewrite decide_False; [reflexivity |].
              intros Hin. apply elem_of_cons in Hin. destruct Hin as [Heq | Hin]; [| tauto].
              apply Hne. subst x. now rewrite Nat2N.id.
      * pose proof (filter_length_insert isBomb (cells g) (N.to_nat x) cx (counted_cell cx) Hcx)
          as Hins.
        unfold g1 in Hcount. simpl in Hcount, Hins. destruct (isBomb cx); lia.
      * intros Hsafe.
        pose proof (filter_length_insert isBomb (cells g) (N.to_nat x) cx (counted_cell cx) Hcx)
          as Hins.
        rewrite (Hsafe x cx (list_elem_of_here _ _) Hcx) in Hins. simpl in Hins.
        rewrite Hexact; [unfold g1; simpl; lia |].
        intros n c Hn Hc. unfold g1 in Hc. simpl in Hc.
        destruct (decide (N.to_nat n = N.to_nat x)) as [Heq | Hne].
        -- rewrite Heq, list_lookup_insert_eq in Hc by (eapply lookup_lt_Some, Hcx).
           now injection Hc as <-.
        -- rewrite list_lookup_insert_ne in Hc by congruence.
           apply (Hsafe n c); [now apply list_elem_of_further | exact Hc].
Qed.

(** [plantBomb] on a cell that is no mine, in a game of valid dimensions
    with no cell opened: the cell becomes a mine with a stored count of zero,
    every position adjacent to it gets one more in its stored count and loses
    its mine flag, and nothing else changes. *)
Lemma plantBomb_unopened g index c :
  wf g -> unopened g ->
  cells g !! N.to_nat index = Some c -> isBomb c = false ->
  exists cs ns,
    neighborPositions (rows g) (columns g) (cells_size g) index = Some ns /\
    plantBomb index g = Ret tt (with_cells cs g) /\
    length cs = length (cells g) /\
    (forall j cj, cells g !! j = Some cj ->
       cs !! j = Some (if decide (j = N.to_nat index) then planted_cell cj
                       else if decide (N.of_nat j ∈ ns) then counted_cell cj else cj)) /\
    (length (List.filter isBomb cs) <= S (length (List.filter isBomb (cells g))))%nat /\
    (1 <= length (List.filter isBomb cs))%nat /\
    ((forall n cn, n ∈ ns -> cells g !! N.to_nat n = Some cn -> isBomb cn = false) ->
     length (List.filter isBomb cs) = S (length (List.filter isBomb (cells g)))).
Proof.
  intros Hwf Hclosed Hc Hb.
  pose proof (lookup_Some_lt_size _ _ _ Hc) as Hlt.
  destruct (findNeighbors_neighborPositions g index Hwf Hlt) as (ns & Hns & Hfind & Hnd & Hin).
  assert (Hself : index ∉ ns).
  { intros Hi. apply Hin in Hi. destruct Hi as [_ Hi]. now rewrite adjacent_irrefl in Hi. }
  unfold plantBomb.
  rewrite (bind_Ret _ _ _ _ _ (cellAt_Some _ _ _ Hc)).
  unfold GetIsBomb. rewrite Hb. simpl.
  rewrite (bind_Ret (internal_check true) _ g tt g eq_refl).
  rewrite (bind_Ret _ _ _ _ _ (SetIsBomb_closed g index c true Hc (Hclosed _ _ Hc))).
  change {| isBomb := true; isOpened := isOpened c; label := label c;
            numberOfNeighborBombs := 0 |} with (planted_cell c).
  set (g1 := with_cells _ g).
  assert (Hsize1 : cells_size g1 = cells_size g).
  { unfold cells_size, g1. simpl. now rewrite length_insert. }
  assert (Hfind1 : findNeighbors index g1 = Ret ns g1).
  { rewrite findNeighbors_eq in Hfind |- *. rewrite Hsize1.
    change (rows g1) with (rows g). change (columns g1) with (columns g).
    destruct (index <? cells_size g); [| discriminate].
    destruct (columns g =? 0); [discriminate |].
    rewrite Hns. reflexivity. }
  rewrite (bind_Ret _ _ _ _ _ Hfind1).
  destruct (forEach_counted ns g1 Hnd) as (cs & Hrun & Hlen & Hcells & Hcount & Hexact).
  { rewrite Hsize1. apply Forall_forall. intros n Hn. now apply Hin. }
  { intros j cj Hj. unfold g1 in Hj. simpl in Hj.
    destruct (decide (j = N.to_nat index)) as [-> | Hne].
    - rewrite list_lookup_insert_eq in Hj by (eapply lookup_lt_Some, Hc).
      injection Hj as <-. simpl. exact (Hclosed _ _ Hc).
    - rewrite list_lookup_insert_ne in Hj by congruence. exact (Hclosed _ _ Hj). }
  exists cs, ns. split_and!.
  - exact Hns.
  - rewrite Hrun. reflexivity.
  - rewrite Hlen. unfold g1. simpl. apply length_insert.
  - intros j cj Hj. destruct (decide (j = N.to_nat index)) as [-> | Hne].
    + assert (cj = c) by congruence. subst cj.
      rewrite (Hcells (N.to_nat index) (planted_cell c)).
      2:{ unfold g1. simpl. apply list_lookup_insert_eq. eapply lookup_lt_Some, Hc. }
      rewrite N2Nat.id. now rewrite decide_False by assumption.
    + rewrite (Hcells j cj); [reflexivity |].
      unfold g1. simpl. now rewrite list_lookup_insert_ne by congruence.
  - pose proof (filter_length_insert isBomb (cells g) (N.to_nat index) c (planted_cell c) Hc)
      as Hins.
    unfold g1 in Hcount. simpl in Hcount, Hins. rewrite Hb in Hins. lia.
  - apply (filter_length_pos isBomb cs (N.to_nat index) (planted_cell c)); [| reflexivity].
    rewrite (Hcells (N.to_nat index) (planted_cell c)).
    + rewrite N2Nat.id. now rewrite decide_False by assumption.
    + unfold g1. simpl. apply list_lookup_insert_eq. eapply lookup_lt_Some, Hc.
  - intros Hsafe.
    pose proof (filter_length_insert isBomb (cells g) (N.to_nat index) c (planted_cell c) Hc)
      as Hins.
    rewrite Hb in Hins. simpl in Hins.
    rewrite Hexact; [unfold g1; simpl; lia |].
    intros n cn Hn Hcn. unfold g1 in Hcn. simpl in Hcn.
    rewrite list_lookup_insert_ne in Hcn.
    + now apply (Hsafe n cn).
    + intros Heq. apply N2Nat.inj in Heq. congruence.
Qed.

(** ** [plantBombs] *)

Lemma plantBombs_from_end draws n g :
  bombs g <= n -> plantBombs_from draws n g = Ret tt g.
Proof.
  intros Hn. destruct draws; simpl;
    (destruct (N.ltb_spec n (bombs g)); [lia | reflexivity]).
Qed.

Lemma plantBombs_from_nil n g :
  n < bombs g -> plantBombs_from [] n g = Unfinished.
Proof. intros Hn. simpl. apply N.ltb_lt in Hn. now rewrite Hn. Qed.

Lemma plantBombs_from_skip d draws n g c :
  n < bombs g -> cells g !! N.to_nat d = Some c -> isBomb c = true ->
  plantBombs_from (d :: draws) n g = plantBombs_from draws n g.
Proof.
  intros Hn Hc Hb. simpl. apply N.ltb_lt in Hn. rewrite Hn.
  rewrite (bind_Ret _ _ _ _ _ (cellAt_Some _ _ _ Hc)).
  unfold GetIsBomb. now rewrite Hb.
Qed.

Lemma plantBombs_from_plant d draws n g c g' :
  n < bombs g -> cells g !! N.to_nat d = Some c -> isBomb c = false ->
  plantBomb d g = Ret tt g' ->
  plantBombs_from (d :: draws) n g = plantBombs_from draws (wadd n 1) g'.
Proof.
  intros Hn Hc Hb Hplant. simpl. apply N.ltb_lt in Hn. rewrite Hn.
  rewrite (bind_Ret _ _ _ _ _ (cellAt_Some _ _ _ Hc)).
  unfold GetIsBomb. rewrite Hb. simpl.
  now rewrite (bind_Ret _ _ _ _ _ Hplant).
Qed.

Lemma fresh_board_unopened g : fresh_board g -> unopened g.
Proof. intros Hg j c Hc. now destruct (fresh_cells g Hg j c Hc). Qed.

Lemma wf_with_cells cs g : wf g -> length cs = length (cells g) -> wf (with_cells cs g).
Proof.
  intros [Hr Hc Hs Hm Hn] Hlen.
  assert (Hsize : cells_size (with_cells cs g) = cells_size g).
  { unfold cells_size. simpl. now rewrite Hlen. }
  constructor; simpl; try assumption; rewrite ?Hsize; assumption.
Qed.

(** [plantBomb] keeps the board fresh. *)
Lemma plantBomb_fresh g index c :
  fresh_board g -> cells g !! N.to_nat index = Some c -> isBomb c = false ->
  exists cs ns,
    neighborPositions (rows g) (columns g) (cells_size g) index = Some ns /\
    plantBomb index g = Ret tt (with_cells cs g) /\
    fresh_board (with_cells cs g) /\
    (forall j cj, cells g !! j = Some cj ->
       cs !! j = Some (if decide (j = N.to_nat index) then planted_cell cj
                       else if decide (N.of_nat j ∈ ns) then counted_cell cj else cj)) /\
    (length (List.filter isBomb cs) <= S (length (List.filter isBomb (cells g))))%nat /\
    (1 <= length (List.filter isBomb cs))%nat /\
    ((forall n cn, n ∈ ns -> cells g !! N.to_nat n = Some cn -> isBomb cn = false) ->
     length (List.filter isBomb cs) = S (length (List.filter isBomb (cells g)))).
Proof.
  intros Hg Hc Hb.
  destruct (plantBomb_unopened g index c (fresh_wf g Hg) (fresh_board_unopened g Hg) Hc Hb)
    as (cs & ns & Hns & Hrun & Hlen & Hcells & Hle & Hpos & Hexact).
  exists cs, ns. split_and!; try assumption.
  destruct Hg as [Hwf Hs Hn Hm Hfresh].
  constructor; try assumption.
  - now apply wf_with_cells.
  - intros j cj' Hj. simpl in Hj.
    assert (Hold : is_Some (cells g !! j)).
    { apply lookup_lt_is_Some. rewrite <- Hlen. eapply lookup_lt_Some, Hj. }
    destruct Hold as [cj Hcj]. destruct (Hfresh j cj Hcj) as (Ho & Hl & Hz).
    rewrite (Hcells j cj Hcj) in Hj. injection Hj as <-.
    destruct (decide (j = N.to_nat index)); [simpl; auto |].
    destruct (decide (N.of_nat j ∈ ns)); simpl; [| auto].
    split_and!; auto. discriminate.
Qed.

(** The loop of [plantBombs], whatever the generator returns within the
    grid: it never throws, it keeps the board fresh, and it leaves no more
    mines than it has counted plantings. *)
Lemma plantBombs_from_fresh draws : forall n g,
  fresh_board g -> bombs g < size_t_modulus ->
  Forall (fun i => i < cells_size g) draws ->
  n <= bombs g ->
  (count_mines g <= N.to_nat n)%nat ->
  (0 < n -> (1 <= count_mines g)%nat) ->
  plantBombs_from draws n g = Unfinished \/
  exists cs,
    plantBombs_from draws n g = Ret tt (with_cells cs g) /\
    fresh_board (with_cells cs g) /\
    (count_mines (with_cells cs g) <= N.to_nat (bombs g))%nat /\
    (0 < bombs g -> (1 <= count_mines (with_cells cs g))%nat).
Proof.
  induction draws as [| d draws IH]; intros n g Hg Hb Hrange Hn Hcount Hpos.
  - destruct (N.lt_ge_cases n (bombs g)) as [Hlt | Hge].
    + left. now apply plantBombs_from_nil.
    + right. exists (cells g). rewrite with_cells_same.
      rewrite plantBombs_from_end by exact Hge.
      assert (n = bombs g) by lia. subst n. split_and!; auto.
  - destruct (N.lt_ge_cases n (bombs g)) as [Hlt | Hge].
    2:{ right. exists (cells g). rewrite with_cells_same.
        rewrite plantBombs_from_end by exact Hge.
        assert (n = bombs g) by lia. subst n. split_and!; auto. }
    apply Forall_cons in Hrange. destruct Hrange as [Hd Hrange].
    destruct (cellAt_lt g d Hd) as (c & Hc & _).
    destruct (isBomb c) eqn:Hmine.
    + rewrite (plantBombs_from_skip d draws n g c Hlt Hc Hmine). now apply IH.
    + destruct (plantBomb_fresh g d c Hg Hc Hmine)
        as (cs & ns & Hns & Hrun & Hg1 & Hcells & Hle & Hone & _).
      rewrite (plantBombs_from_plant d draws n g c _ Hlt Hc Hmine Hrun).
      assert (Hn1 : wadd n 1 = n + 1).
      { apply wadd_small. change size_t_modulus with 18446744073709551616 in *. lia. }
      rewrite Hn1.
      assert (Hsize1 : cells_size (with_cells cs g) = cells_size g).
      { destruct Hg1 as [[_ _ Hs1 _ _] _ _ _ _]. destruct Hg as [[_ _ Hs _ _] _ _ _ _].
        simpl in Hs1. congruence. }
      destruct (IH (n + 1) (with_cells cs g)) as [Hun | (cs' & Hrun' & Hg' & Hle' & Hpos')];
        try assumption.
      * now rewrite Hsize1.
      * simpl. lia.
      * unfold count_mines in *. simpl. lia.
      * intros _. exact Hone.
      * now left.
      * right. exists cs'. rewrite with_cells_with_cells in *. auto.
Qed.

(** [NewGame()] in a game of valid dimensions, whatever indices of the grid
    the generator returns: the call never throws and never reads outside the
    vector.  When the draws suffice it returns and leaves a fresh board (a
    well-formed active game with the same parameters, every cell closed and
    unlabelled, the counter of opened cells at zero, and the set of modified
    indices empty: the new cells are not recorded).  Every mine stores a
    count of zero, and there is one mine at least and [bombs] mines at
    most. *)
Theorem NewGame_fresh_board draws g :
  9 <= rows g <= 24 -> 9 <= columns g <= 30 -> bombs g < size_t_modulus ->
  Forall (fun i => i < rows g * columns g) draws ->
  NewGame draws g = Unfinished \/
  exists g',
    NewGame draws g = Ret tt g' /\
    fresh_board g' /\
    rows g' = rows g /\ columns g' = columns g /\ bombs g' = bombs g /\
    cells_size g' = rows g * columns g /\
    (count_mines g' <= N.to_nat (bombs g))%nat /\
    (0 < bombs g -> (1 <= count_mines g')%nat).
Proof.
  intros Hr Hc Hb Hrange. unfold NewGame.
  rewrite (bind_Ret reset _ g tt _ eq_refl).
  rewrite (bind_Ret (modify _) _ _ tt _ eq_refl). simpl.
  set (g1 := with_cells _ _).
  assert (Hlen : length (cells g1) = N.to_nat (rows g * columns g)).
  { unfold g1. simpl. rewrite length_replicate. f_equal.
    apply wmul_small. change size_t_modulus with 18446744073709551616. nia. }
  assert (Hsize : cells_size g1 = rows g * columns g).
  { unfold cells_size. rewrite Hlen. apply N2Nat.id. }
  assert (Hcells : forall j c, cells g1 !! j = Some c -> c = newCell).
  { intros j c Hj. unfold g1 in Hj. simpl in Hj.
    apply lookup_replicate in Hj. tauto. }
  assert (Hg1 : fresh_board g1).
  { constructor; try reflexivity.
    - constructor; simpl; try assumption; constructor.
    - intros j c Hj. rewrite (Hcells j c Hj). simpl. auto. }
  assert (Hnone : count_mines g1 = 0%nat).
  { apply filter_length_none. intros j c Hj. now rewrite (Hcells j c Hj). }
  destruct (plantBombs_from_fresh draws 0 g1 Hg1 Hb) as [Hun | (cs & Hrun & Hg' & Hle & Hpos)].
  - now rewrite Hsize.
  - simpl. lia.
  - rewrite Hnone. lia.
  - lia.
  - left. exact Hun.
  - right. exists (with_cells cs g1). split_and!; try assumption; try reflexivity.
    destruct Hg' as [[_ _ Hs _ _] _ _ _ _]. exact Hs.
Qed.

(** At nine rows, nine columns and ten mines, with the draws 0, 1, ..., 9,
    each next to the one before. *)
Lemma NewGame_fresh_board_witness :
  NewGame adjacent_draws (with_parameters 9 9 10 newGame) = Unfinished \/
  exists g',
    NewGame adjacent_draws (with_parameters 9 9 10 newGame) = Ret tt g' /\
    fresh_board g' /\
    rows g' = 9 /\ columns g' = 9 /\ bombs g' = 10 /\
    cells_size g' = 9 * 9 /\
    (count_mines g' <= N.to_nat 10)%nat /\
    (0 < 10 -> (1 <= count_mines g')%nat).
Proof.
  apply (NewGame_fresh_board adjacent_draws (with_parameters 9 9 10 newGame)).
  - simpl. lia.
  - simpl. lia.
  - reflexivity.
  - repeat constructor.
Defined.

(** ** The rejection sampling of [plantBombs] comes to an end *)

Lemma remove_dups_difference_skip (d : N) draws seen :
  d ∈ seen -> list_difference (d :: draws) seen = list_difference draws seen.
Proof. intros Hd. simpl. destruct (decide_rel elem_of d seen); [reflexivity | contradiction]. Qed.

Lemma remove_dups_difference_plant (d : N) draws seen :
  (length (remove_dups (list_difference (d :: draws) seen)) <=
   S (length (remove_dups (list_difference draws (d :: seen)))))%nat.
Proof.
  change (S (length (remove_dups (list_difference draws (d :: seen)))))
    with (length (d :: remove_dups (list_difference draws (d :: seen)))).
  apply submseteq_length, NoDup_submseteq; [apply NoDup_remove_dups |].
  intros x Hx. apply elem_of_remove_dups, list_elem_of_difference in Hx.
  destruct Hx as [Hx Hseen]. apply elem_of_cons in Hx.
  destruct (decide (x = d)) as [-> | Hne]; [apply list_elem_of_here |].
  apply list_elem_of_further, elem_of_remove_dups, list_elem_of_difference.
  split; [tauto |]. rewrite elem_of_cons. tauto.
Qed.

(** When the indices still to come hold enough distinct positions that were
    not drawn before, the loop of [plantBombs] returns. *)
Lemma plantBombs_from_returns draws : forall n g seen,
  fresh_board g -> bombs g < size_t_modulus ->
  Forall (fun i => i < cells_size g) draws ->
  (forall j c, cells g !! j = Some c -> isBomb c = true -> N.of_nat j ∈ seen) ->
  (N.to_nat (bombs g) <=
   N.to_nat n + length (remove_dups (list_difference draws seen)))%nat ->
  exists cs, plantBombs_from draws n g = Ret tt (with_cells cs g).
Proof.
  induction draws as [| d draws IH]; intros n g seen Hg Hb Hrange Hseen Hn.
  - exists (cells g). rewrite with_cells_same. apply plantBombs_from_end. simpl in Hn. lia.
  - destruct (N.lt_ge_cases n (bombs g)) as [Hlt | Hge].
    2:{ exists (cells g). rewrite with_cells_same. now apply plantBombs_from_end. }
    apply Forall_cons in Hrange. destruct Hrange as [Hd Hrange].
    destruct (cellAt_lt g d Hd) as (c & Hc & _).
    destruct (isBomb c) eqn:Hmine.
    + rewrite (plantBombs_from_skip d draws n g c Hlt Hc Hmine).
      apply (IH n g seen); try assumption.
      rewrite <- (remove_dups_difference_skip d draws seen); [exact Hn |].
      rewrite <- (N2Nat.id d). now apply (Hseen _ c).
    + destruct (plantBomb_fresh g d c Hg Hc Hmine)
        as (cs & ns & Hns & Hrun & Hg1 & Hcells & _).
      rewrite (plantBombs_from_plant d draws n g c _ Hlt Hc Hmine Hrun).
      assert (Hn1 : wadd n 1 = n + 1).
      { apply wadd_small. change size_t_modulus with 18446744073709551616 in *. lia. }
      rewrite Hn1.
      assert (Hsize1 : cells_size (with_cells cs g) = cells_size g).
      { destruct Hg1 as [[_ _ Hs1 _ _] _ _ _ _]. destruct Hg as [[_ _ Hs _ _] _ _ _ _].
        simpl in Hs1. congruence. }
      destruct (IH (n + 1) (with_cells cs g) (d :: seen)) as (cs' & Hrun'); try assumption.
      * now rewrite Hsize1.
      * intros j cj' Hj Hbj. simpl in Hj.
        assert (Hold : is_Some (cells g !! j)).
        { apply lookup_lt_is_Some. apply lookup_lt_Some in Hj.
          destruct Hg1 as [[_ _ Hs1 _ _] _ _ _ _]. destruct Hg as [[_ _ Hs _ _] _ _ _ _].
          unfold cells_size in *. simpl in Hs1. lia. }
        destruct Hold as [cj Hcj]. rewrite (Hcells j cj Hcj) in Hj. injection Hj as <-.
        destruct (decide (j = N.to_nat d)) as [-> | Hne].
        -- rewrite N2Nat.id. apply list_elem_of_here.
        -- destruct (decide (N.of_nat j ∈ ns)); [discriminate |].
           apply list_elem_of_further. now apply (Hseen j cj).
      * pose proof (remove_dups_difference_plant d draws seen). simpl. lia.
      * exists cs'. now rewrite with_cells_with_cells in Hrun'.
Qed.

(** The rejection sampling of [plantBombs] ends: in a game of valid
    dimensions, when the indices the generator returns are positions of the
    grid and hold [bombs] distinct values at least, [NewGame()] returns. *)
Theorem NewGame_returns draws g :
  9 <= rows g <= 24 -> 9 <= columns g <= 30 -> bombs g < size_t_modulus ->
  Forall (fun i => i < rows g * columns g) draws ->
  (N.to_nat (bombs g) <= length (remove_dups draws))%nat ->
  exists g', NewGame draws g = Ret tt g'.
Proof.
  intros Hr Hc Hb Hrange Hdistinct. unfold NewGame.
  rewrite (bind_Ret reset _ g tt _ eq_refl).
  rewrite (bind_Ret (modify _) _ _ tt _ eq_refl). simpl.
  set (g1 := with_cells _ _).
  assert (Hlen : length (cells g1) = N.to_nat (rows g * columns g)).
  { unfold g1. simpl. rewrite length_replicate. f_equal.
    apply wmul_small. change size_t_modulus with 18446744073709551616. nia. }
  assert (Hsize : cells_size g1 = rows g * columns g).
  { unfold cells_size. rewrite Hlen. apply N2Nat.id. }
  assert (Hcells : forall j c, cells g1 !! j = Some c -> c = newCell).
  { intros j c Hj. unfold g1 in Hj. simpl in Hj.
    apply lookup_replicate in Hj. tauto. }
  assert (Hg1 : fresh_board g1).
  { constructor; try reflexivity.
    - constructor; simpl; try assumption; constructor.
    - intros j c Hj. rewrite (Hcells j c Hj). simpl. auto. }
  destruct (plantBombs_from_returns draws 0 g1 [] Hg1 Hb) as (cs & Hrun).
  - now rewrite Hsize.
  - intros j c Hj Hmine. rewrite (Hcells j c Hj) in Hmine. discriminate.
  - assert (Hd : list_difference draws [] = draws).
    { clear. induction draws as [| d draws IH]; simpl; [reflexivity |].
      destruct (decide_rel elem_of d []) as [Hin | _]; [now apply elem_of_nil in Hin |].
      now rewrite IH. }
    rewrite Hd. simpl. exact Hdistinct.
  - eexists. exact Hrun.
Qed.

(** Ten distinct draws for ten mines. *)
Lemma NewGame_returns_witness :
  exists g', NewGame adjacent_draws (with_parameters 9 9 10 newGame) = Ret tt g'.
Proof.
  apply (NewGame_returns adjacent_draws (with_parameters 9 9 10 newGame)).
  - simpl. lia.
  - simpl. lia.
  - reflexivity.
  - repeat constructor.
  - vm_compute. lia.
Defined.

(** ** Mines planted apart from each other *)

Lemma neighborPositions_length r c size index ns :
  neighborPositions r c size index = Some ns -> (length ns <= 8)%nat.
Proof.
  unfold neighborPositions. cbv zeta. intros Hns.
  assert (Hpush : forall b size i acc l, push_position b size i acc = Some l ->
            exists l0, acc = Some l0 /\ (length l <= S (length l0))%nat).
  { intros b size' i [l0 |] l; simpl; [| discriminate]. intros H. exists l0.
    split; [reflexivity |]. destruct b; [| injection H as <-; lia].
    destruct (i <? size'); [| discriminate]. injection H as <-.
    rewrite length_app. simpl. lia. }
  repeat match goal with
         | H : push_position _ _ _ _ = Some _ |- _ =>
             apply Hpush in H; destruct H as (? & H & ?)
         end.
  injection Hns as <-. simpl in *. lia.
Qed.

Lemma uset_mem_cons x d (s : list N) : uset_mem x (d :: s) = (x =? d) || uset_mem x s.
Proof. reflexivity. Qed.

Lemma filter_uset_mem_cons_notin d (s l : list N) :
  d ∉ l ->
  List.filter (fun x => uset_mem x (d :: s)) l = List.filter (fun x => uset_mem x s) l.
Proof.
  intros Hd. apply filter_ext_in. intros x Hx. rewrite uset_mem_cons.
  destruct (N.eqb_spec x d) as [-> | _]; [| reflexivity].
  exfalso. apply Hd. now apply list_elem_of_In.
Qed.

Lemma filter_uset_mem_cons_in d (s l : list N) :
  NoDup l -> d ∈ l -> uset_mem d s = false ->
  length (List.filter (fun x => uset_mem x (d :: s)) l) =
  S (length (List.filter (fun x => uset_mem x s) l)).
Proof.
  induction l as [| x l IH]; intros Hnd Hd Hs.
  - now apply elem_of_nil in Hd.
  - apply NoDup_cons in Hnd. destruct Hnd as [Hx Hnd]. cbn [List.filter].
    rewrite uset_mem_cons. destruct (N.eqb_spec x d) as [-> | Hne]; cbn [orb].
    + rewrite Hs. cbn [length]. now rewrite filter_uset_mem_cons_notin.
    + apply elem_of_cons in Hd. destruct Hd as [-> | Hd]; [congruence |].
      specialize (IH Hnd Hd Hs). destruct (uset_mem x s); cbn [length]; lia.
Qed.

Lemma spread_adjacent c draws a b :
  spread c draws = true -> a ∈ draws -> b ∈ draws -> adjacent c a b = false.
Proof.
  unfold spread. rewrite forallb_forall. intros Hall Ha Hb.
  apply list_elem_of_In in Ha, Hb. specialize (Hall a Ha).
  rewrite forallb_forall in Hall. specialize (Hall b Hb).
  now apply negb_true_iff.
Qed.

(** One more mine, planted on a position that is adjacent to none of the
    mines there are. *)
Lemma plantBomb_mines_are g planted d c :
  fresh_board g -> mines_are planted g ->
  cells g !! N.to_nat d = Some c -> isBomb c = false ->
  (forall s, s ∈ planted -> adjacent (columns g) d s = false) ->
  exists cs,
    plantBomb d g = Ret tt (with_cells cs g) /\
    fresh_board (with_cells cs g) /\
    mines_are (d :: planted) (with_cells cs g).
Proof.
  intros Hg [Hnd Hcount Hflags Hstored] Hc Hb Hapart.
  pose proof (fresh_wf g Hg) as Hwf.
  pose proof (lookup_Some_lt_size _ _ _ Hc) as Hd.
  destruct (plantBomb_fresh g d c Hg Hc Hb)
    as (cs & ns & Hns & Hrun & Hg1 & Hcells & _ & _ & Hexact).
  assert (Hlen : length cs = length (cells g)).
  { destruct Hg1 as [[_ _ Hs1 _ _] _ _ _ _]. destruct Hwf as [_ _ Hs _ _].
    unfold cells_size in *. simpl in Hs1. lia. }
  assert (Hsize : cells_size (with_cells cs g) = cells_size g).
  { unfold cells_size. simpl. now rewrite Hlen. }
  destruct (findNeighbors_neighborPositions g d Hwf Hd) as (ns' & Hns' & _ & Hndns & Hin).
  assert (ns' = ns) by congruence. subst ns'.
  assert (Hfresh_d : uset_mem d planted = false).
  { rewrite <- Hb, <- (N2Nat.id d). symmetry. now apply Hflags. }
  assert (Hnotin : d ∉ planted).
  { intros Hin'. apply uset_mem_spec in Hin'. congruence. }
  assert (Hsafe : forall n, n ∈ ns -> uset_mem n planted = false).
  { intros n Hn. destruct (uset_mem n planted) eqn:Hm; [| reflexivity].
    apply uset_mem_spec in Hm. apply Hin in Hn. destruct Hn as [_ Hn].
    rewrite (Hapart n Hm) in Hn. discriminate. }
  exists cs. split_and!; [exact Hrun | exact Hg1 |].
  constructor.
  - apply NoDup_cons. auto.
  - unfold count_mines in *. simpl. rewrite Hexact; [now rewrite Hcount |].
    intros n cn Hn Hcn. rewrite (Hflags _ _ Hcn), N2Nat.id. now apply Hsafe.
  - intros j cj' Hj. simpl in Hj.
    assert (Hold : is_Some (cells g !! j)).
    { apply lookup_lt_is_Some. rewrite <- Hlen. eapply lookup_lt_Some, Hj. }
    destruct Hold as [cj Hcj]. rewrite (Hcells j cj Hcj) in Hj. injection Hj as <-.
    rewrite uset_mem_cons.
    destruct (decide (j = N.to_nat d)) as [-> | Hne].
    + rewrite N2Nat.id, N.eqb_refl. reflexivity.
    + assert (Hneq : (N.of_nat j =? d) = false).
      { apply N.eqb_neq. intros Heq. apply Hne. subst d. now rewrite Nat2N.id. }
      rewrite Hneq. simpl.
      destruct (decide (N.of_nat j ∈ ns)) as [Hjn | Hjn]; simpl.
      * symmetry. now apply Hsafe.
      * now apply Hflags.
  - intros j cj' nsj Hj Hbj Hnsj. simpl in Hj, Hnsj. rewrite Hsize in Hnsj.
    assert (Hold : is_Some (cells g !! j)).
    { apply lookup_lt_is_Some. rewrite <- Hlen. eapply lookup_lt_Some, Hj. }
    destruct Hold as [cj Hcj]. rewrite (Hcells j cj Hcj) in Hj. injection Hj as <-.
    assert (Hjlt : N.of_nat j < cells_size g).
    { apply index_lt_size. rewrite Nat2N.id. eapply lookup_lt_Some, Hcj. }
    destruct (findNeighbors_neighborPositions g (N.of_nat j) Hwf Hjlt)
      as (nsj' & Hnsj' & _ & Hndj & Hinj).
    assert (nsj' = nsj) by congruence. subst nsj'.
    destruct (decide (j = N.to_nat d)) as [-> | Hne]; [discriminate |].
    destruct (decide (N.of_nat j ∈ ns)) as [Hjn | Hjn];
      unfold counted_cell; cbn [numberOfNeighborBombs].
    + (* a neighbour of the new mine *)
      assert (Hdj : d ∈ nsj).
      { apply Hinj. split; [exact Hd |]. rewrite adjacent_sym. now apply Hin. }
      assert (Hbold : isBomb cj = false).
      { rewrite (Hflags _ _ Hcj). now apply Hsafe. }
      rewrite (Hstored j cj nsj Hcj Hbold Hnsj).
      rewrite (filter_uset_mem_cons_in d planted nsj Hndj Hdj Hfresh_d).
      rewrite wadd_small; [lia |].
      pose proof (filter_length_le (fun x => uset_mem x planted) nsj) as Hle.
      pose proof (neighborPositions_length _ _ _ _ _ Hnsj) as Hle8.
      change size_t_modulus with 18446744073709551616. lia.
    + (* a cell away from the new mine *)
      assert (Hdj : d ∉ nsj).
      { intros Hdj. apply Hjn. apply Hin. split; [exact Hjlt |].
        rewrite adjacent_sym. now apply Hinj. }
      rewrite (filter_uset_mem_cons_notin d planted nsj Hdj).
      exact (Hstored j cj nsj Hcj Hbj Hnsj).
Qed.

(** The loop of [plantBombs] when no two of the draws are adjacent. *)
Lemma plantBombs_from_spread all_draws draws : forall n g planted g',
  fresh_board g -> bombs g < size_t_modulus ->
  spread (columns g) all_draws = true ->
  (forall d, d ∈ draws -> d ∈ all_draws) ->
  (forall s, s ∈ planted -> s ∈ all_draws) ->
  Forall (fun i => i < cells_size g) draws ->
  mines_are planted g ->
  n = N.of_nat (length planted) -> n <= bombs g ->
  plantBombs_from draws n g = Ret tt g' ->
  exists cs planted',
    g' = with_cells cs g /\ fresh_board g' /\ mines_are planted' g' /\
    N.of_nat (length planted') = bombs g /\
    (forall s, s ∈ planted' -> s ∈ all_draws).
Proof.
  induction draws as [| d draws IH];
    intros n g planted g' Hg Hb Hspread Hsub Hplanted Hrange Hmines Hn Hle Hrun.
  - destruct (N.lt_ge_cases n (bombs g)) as [Hlt | Hge].
    { rewrite plantBombs_from_nil in Hrun by exact Hlt. discriminate. }
    rewrite plantBombs_from_end in Hrun by exact Hge. injection Hrun as <-.
    exists (cells g), planted. rewrite with_cells_same. split_and!; auto. lia.
  - destruct (N.lt_ge_cases n (bombs g)) as [Hlt | Hge].
    2:{ rewrite plantBombs_from_end in Hrun by exact Hge. injection Hrun as <-.
        exists (cells g), planted. rewrite with_cells_same. split_and!; auto. lia. }
    apply Forall_cons in Hrange. destruct Hrange as [Hd Hrange].
    destruct (cellAt_lt g d Hd) as (c & Hc & _).
    assert (Hsub' : forall x, x ∈ draws -> x ∈ all_draws)
      by (intros x Hx; apply Hsub; now apply list_elem_of_further).
    destruct (isBomb c) eqn:Hmine.
    + rewrite (plantBombs_from_skip d draws n g c Hlt Hc Hmine) in Hrun.
      now apply (IH n g planted g').
    + destruct (plantBomb_mines_are g planted d c Hg Hmines Hc Hmine)
        as (cs & Hplant & Hg1 & Hmines1).
      { intros s Hs. apply (spread_adjacent _ all_draws); auto.
        apply Hsub, list_elem_of_here. }
      rewrite (plantBombs_from_plant d draws n g c _ Hlt Hc Hmine Hplant) in Hrun.
      assert (Hn1 : wadd n 1 = n + 1).
      { apply wadd_small. change size_t_modulus with 18446744073709551616 in *. lia. }
      rewrite Hn1 in Hrun.
      assert (Hsize1 : cells_size (with_cells cs g) = cells_size g).
      { destruct Hg1 as [[_ _ Hs1 _ _] _ _ _ _]. destruct Hg as [[_ _ Hs _ _] _ _ _ _].
        simpl in Hs1. congruence. }
      destruct (IH (n + 1) (with_cells cs g) (d :: planted) g')
        as (cs' & planted' & Heq & Hg' & Hmines' & Hlen' & Hsub''); try assumption.
      * intros s Hs. apply elem_of_cons in Hs.
        destruct Hs as [-> | Hs]; [apply Hsub, list_elem_of_here | now apply Hplanted].
      * now rewrite Hsize1.
      * simpl length. lia.
      * simpl. lia.
      * exists cs', planted'. rewrite with_cells_with_cells in Heq. auto.
Qed.

Lemma NewGame_mines_are draws g g' :
  9 <= rows g <= 24 -> 9 <= columns g <= 30 -> bombs g < size_t_modulus ->
  Forall (fun i => i < rows g * columns g) draws ->
  spread (columns g) draws = true ->
  NewGame draws g = Ret tt g' ->
  exists planted,
    fresh_board g' /\ mines_are planted g' /\
    length planted = N.to_nat (bombs g) /\
    forall i, i ∈ planted -> i ∈ draws.
Proof.
  intros Hr Hc Hb Hrange Hspread. unfold NewGame.
  rewrite (bind_Ret reset _ g tt _ eq_refl).
  rewrite (bind_Ret (modify _) _ _ tt _ eq_refl). simpl.
  set (g1 := with_cells _ _). intros Hrun.
  assert (Hlen : length (cells g1) = N.to_nat (rows g * columns g)).
  { unfold g1. simpl. rewrite length_replicate. f_equal.
    apply wmul_small. change size_t_modulus with 18446744073709551616. nia. }
  assert (Hsize : cells_size g1 = rows g * columns g).
  { unfold cells_size. rewrite Hlen. apply N2Nat.id. }
  assert (Hcells : forall j c, cells g1 !! j = Some c -> c = newCell).
  { intros j c Hj. unfold g1 in Hj. simpl in Hj.
    apply lookup_replicate in Hj. tauto. }
  assert (Hg1 : fresh_board g1).
  { constructor; try reflexivity.
    - constructor; simpl; try assumption; constructor.
    - intros j c Hj. rewrite (Hcells j c Hj). simpl. auto. }
  assert (Hnone : mines_are [] g1).
  { constructor.
    - constructor.
    - apply filter_length_none. intros j c Hj. now rewrite (Hcells j c Hj).
    - intros j c Hj. now rewrite (Hcells j c Hj).
    - intros j c ns Hj _ _. rewrite (Hcells j c Hj). simpl.
      clear. induction ns as [| x ns IH]; [reflexivity | exact IH]. }
  destruct (plantBombs_from_spread draws draws 0 g1 [] g' Hg1 Hb Hspread)
    as (cs & planted & Heq & Hg' & Hmines & Hplanted & Hsub);
    try assumption; try reflexivity; auto.
  { intros s Hs. now apply elem_of_nil in Hs. }
  { now rewrite Hsize. }
  { simpl. lia. }
  exists planted. split_and!; [exact Hg' | exact Hmines | | exact Hsub].
  change (bombs g1) with (bombs g) in Hplanted. lia.
Qed.

(** [NewGame()] in a game of valid dimensions, when no two of the indices
    the generator returns are adjacent positions of the grid (an index may
    come back more than once): a call that returns leaves exactly [bombs]
    mines, all of them on positions that were drawn, and every cell that is
    no mine stores the number of mines among the positions adjacent to it. *)
Theorem NewGame_spread_draws draws g g' :
  9 <= rows g <= 24 -> 9 <= columns g <= 30 -> bombs g < size_t_modulus ->
  Forall (fun i => i < rows g * columns g) draws ->
  spread (columns g) draws = true ->
  NewGame draws g = Ret tt g' ->
  count_mines g' = N.to_nat (bombs g) /\
  (forall i, is_mine g' i = true -> i ∈ draws) /\
  (forall i, i < cells_size g' -> is_mine g' i = false ->
     stored_count g' i = Some (mines_around g' i)).
Proof.
  intros Hr Hc Hb Hrange Hspread Hrun.
  destruct (NewGame_mines_are draws g g' Hr Hc Hb Hrange Hspread Hrun)
    as (planted & Hg' & [Hnd Hcount Hflags Hstored] & Hplanted & Hsub).
  split_and!.
  - now rewrite Hcount.
  - intros i Hi. unfold is_mine in Hi.
    destruct (cells g' !! N.to_nat i) as [c |] eqn:Hci; [| discriminate].
    rewrite (Hflags _ _ Hci), N2Nat.id in Hi. apply Hsub. now apply uset_mem_spec.
  - intros i Hi Hsafe.
    destruct (cellAt_lt g' i Hi) as (c & Hci & _).
    unfold stored_count, mines_around. rewrite Hci. simpl.
    unfold is_mine in Hsafe. rewrite Hci in Hsafe.
    destruct (findNeighbors_neighborPositions g' i (fresh_wf g' Hg') Hi)
      as (ns & Hns & _ & _ & Hin).
    rewrite Hns. f_equal.
    rewrite <- (N2Nat.id i) in Hns.
    rewrite (Hstored _ c ns Hci Hsafe Hns). do 2 f_equal.
    apply filter_ext_in. intros x Hx. apply list_elem_of_In, Hin in Hx.
    destruct Hx as [Hx _]. destruct (cellAt_lt g' x Hx) as (cx & Hcx & _).
    unfold is_mine. rewrite Hcx. symmetry.
    rewrite (Hflags _ _ Hcx). now rewrite N2Nat.id.
Qed.

(** The ten draws of the island game, no two of them adjacent. *)
Lemma NewGame_spread_draws_witness :
  count_mines island_game = N.to_nat 10 /\
  (forall i, is_mine island_game i = true -> i ∈ island_draws) /\
  (forall i, i < cells_size island_game -> is_mine island_game i = false ->
     stored_count island_game i = Some (mines_around island_game i)).
Proof.
  apply (NewGame_spread_draws island_draws (with_parameters 9 9 10 newGame) island_game).
  - simpl. lia.
  - simpl. lia.
  - reflexivity.
  - repeat constructor.
  - vm_compute. reflexivity.
  - vm_compute. reflexivity.
Defined.

(** ** [Open] opens cells and does nothing else to the board *)

Lemma only_opened_refl g : only_opened g g.
Proof. unfold only_opened. split_and!; auto. Qed.

Lemma only_opened_trans g1 g2 g3 :
  only_opened g1 g2 -> only_opened g2 g3 -> only_opened g1 g3.
Proof.
  intros (Hr & Hc & Hb & Hlen & Hcells) (Hr' & Hc' & Hb' & Hlen' & Hcells').
  unfold only_opened. split_and!; try congruence.
  intros j c Hj. destruct (Hcells j c Hj) as [Hsame | (Hopened & Ho & Hl)].
  - destruct (Hcells' j c Hsame) as [Hsame' | (Hopened' & Ho' & Hl')]; auto.
  - destruct (Hcells' j _ Hopened) as [Hsame' | (_ & Ho' & _)]; [auto | discriminate].
Qed.

(** The three writes of the methods behind [Open]. *)
Lemma only_opened_fields g0 g s n m :
  only_opened g0 g ->
  only_opened g0 (with_state s g) /\
  only_opened g0 (with_numberOfOpenedCells n g) /\
  only_opened g0 (with_modifiedCellIndices m g).
Proof. intros H. split_and!; exact H. Qed.

Lemma only_opened_cell g0 g index c :
  only_opened g0 g ->
  cells g !! N.to_nat index = Some c -> isOpened c = false ->
  label c = MCL_None \/ isBomb c = true ->
  only_opened g0 (with_cells (<[N.to_nat index := cell_opened c]> (cells g)) g).
Proof.
  intros Hg Hc Ho Hl. apply (only_opened_trans g0 g); [exact Hg |].
  unfold only_opened. simpl. split_and!; auto using length_insert.
  intros j cj Hj. destruct (decide (j = N.to_nat index)) as [-> | Hne].
  - assert (cj = c) by congruence. subst cj. right. split_and!; auto.
    apply list_lookup_insert_eq. eapply lookup_lt_Some, Hc.
  - left. now rewrite list_lookup_insert_ne by congruence.
Qed.

Lemma OnModified_only_opened g0 g index :
  only_opened g0 g ->
  post (OnModified index g) (fun _ g' => only_opened g0 g') (only_opened g0).
Proof.
  intros Hg. unfold OnModified, bind, get, internal_check, modify.
  destruct (state_eqb (state g) MGS_Active); [| exact Hg].
  destruct (index <? cells_size g); exact Hg.
Qed.

Lemma InternalOpen_only_opened g0 g index :
  only_opened g0 g ->
  (forall c, cells g !! N.to_nat index = Some c -> isOpened c = false ->
             label c = MCL_None \/ isBomb c = true) ->
  post (InternalOpen index g) (fun _ g' => only_opened g0 g') (only_opened g0).
Proof.
  intros Hg Hl. unfold InternalOpen. apply post_bind_cellAt. intros c Hc.
  destruct (isOpened c) eqn:Ho; simpl; [exact Hg |].
  rewrite (bind_Ret _ _ _ _ _ (setCell_lt _ _ _ (lookup_Some_lt_size _ _ _ Hc))).
  apply OnModified_only_opened, only_opened_cell; auto.
Qed.

Lemma openBombs_only_opened g0 g :
  only_opened g0 g ->
  post (openBombs g) (fun _ g' => only_opened g0 g') (only_opened g0).
Proof.
  intros Hg. unfold openBombs. rewrite (bind_Ret get _ g g g eq_refl).
  eapply post_bind_mono with (Q1 := fun _ g' => only_opened g0 g') (E1 := only_opened g0);
    [| intros a g' Hg'; exact Hg' | auto].
  generalize (indices g). intros l. revert g Hg.
  induction l as [| x l IH]; intros g Hg; simpl; [exact Hg |].
  eapply post_bind_mono with (Q1 := fun _ g' => only_opened g0 g') (E1 := only_opened g0);
    [| intros a g' Hg'; now apply IH | auto].
  apply post_bind_cellAt. intros c Hc.
  destruct (GetIsBomb c) eqn:Hb; [| exact Hg].
  apply InternalOpen_only_opened; [exact Hg |].
  intros c' Hc' _. right. unfold GetIsBomb in Hb. congruence.
Qed.

Lemma open_only_opened g0 g index :
  only_opened g0 g ->
  post (open index g) (fun _ g' => only_opened g0 g') (only_opened g0).
Proof.
  intros Hg. unfold open. apply post_bind_cellAt. intros c Hc.
  destruct (negb (IsOpened c) && label_eqb (Label c) MCL_None) eqn:Hcond; [| exact Hg].
  apply andb_true_iff in Hcond. destruct Hcond as [_ Hl].
  eapply post_bind_mono with (Q1 := fun _ g' => only_opened g0 g') (E1 := only_opened g0);
    [| | auto].
  - apply InternalOpen_only_opened; [exact Hg |].
    intros c' Hc' _. left. assert (c' = c) by congruence. subst c'.
    unfold Label in Hl. destruct (label c); simpl in Hl; congruence.
  - intros a g1 Hg1. apply post_bind_cellAt. intros c1 Hc1.
    destruct (GetIsBomb c1).
    + eapply post_bind_mono; [apply openBombs_only_opened, Hg1 | | auto].
      intros a' g' Hg'. exact Hg'.
    + exact Hg1.
Qed.

Lemma openNeighbors_for_only_opened g0 neighbors : forall unprocessed g,
  only_opened g0 g ->
  post (openNeighbors_for neighbors unprocessed g)
    (fun _ g' => only_opened g0 g') (only_opened g0).
Proof.
  induction neighbors as [| x neighbors IH]; intros unprocessed g Hg; simpl; [exact Hg |].
  apply post_bind_cellAt. intros c Hc.
  destruct (negb (IsOpened c)); [| now apply IH].
  eapply post_bind_mono; [apply open_only_opened, Hg | | auto].
  intros [|] g' Hg'; simpl; [| exact Hg'].
  apply post_bind_cellAt. intros c' Hc'.
  destruct (GetNumberOfNeighborBombs c' =? 0); now apply IH.
Qed.

Lemma openNeighbors_while_only_opened begin_pos g0 fuel : forall unprocessed g,
  only_opened g0 g ->
  post (openNeighbors_while begin_pos fuel unprocessed g)
    (fun _ g' => only_opened g0 g') (only_opened g0).
Proof.
  induction fuel as [| fuel IH]; intros [| x unprocessed] g Hg; simpl; auto.
  apply post_bind. apply findNeighbors_post; [| auto].
  intros _ ns _.
  eapply post_bind_mono; [apply openNeighbors_for_only_opened, Hg | | auto].
  intros [w |] g' Hg'; simpl; [now apply IH | exact Hg'].
Qed.

Lemma hasSuccess_only_opened g0 g :
  only_opened g0 g ->
  post (hasSuccess g) (fun _ g' => only_opened g0 g') (only_opened g0).
Proof.
  intros Hg. unfold hasSuccess, bind, get, internal_check, modify, ret.
  destruct (state_eqb (state g) MGS_Active); [| exact Hg].
  destruct (numberOfOpenedCells g <=? wsub (cells_size g) (bombs g)); [| exact Hg].
  destruct (numberOfOpenedCells g =? wsub (cells_size g) (bombs g)); exact Hg.
Qed.

Lemma OnOpen_only_opened begin_pos fuel index g :
  post (OnOpen begin_pos fuel index g) (fun _ g' => only_opened g g') (only_opened g).
Proof.
  pose proof (only_opened_refl g) as Hg.
  unfold OnOpen. rewrite (bind_Ret get _ g g g eq_refl).
  unfold bind at 1, internal_check at 1.
  destruct (state_eqb (state g) MGS_Active); [| exact Hg].
  unfold bind at 1, internal_check at 1.
  destruct (index <? cells_size g); [| exact Hg].
  apply post_bind_cellAt. intros cell Hcell.
  destruct (IsOpened cell).
  - eapply post_bind_mono;
      [apply (preserves_CalculateNumberOfNeighborCellsLabeledAsBombs (fun g' => g' = g));
       reflexivity | | intros g1 ->; exact Hg].
    intros labeled g1 ->.
    destruct (GetNumberOfNeighborBombs cell =? labeled); [| exact Hg].
    now apply openNeighbors_while_only_opened.
  - eapply post_bind_mono; [apply open_only_opened, Hg | | auto].
    intros [|] g1 Hg1; simpl; [| exact Hg1].
    eapply post_bind_mono; [apply hasSuccess_only_opened, Hg1 | | auto].
    intros success g2 Hg2. apply post_bind_cellAt. intros cell' _.
    destruct (negb success && (GetNumberOfNeighborBombs cell' =? 0)); [| exact Hg2].
    now apply openNeighbors_while_only_opened.
Qed.

(** Whatever the game, a call of [Open] that comes back, by return or by
    exception, has only opened cells: the parameters of the game and the
    number of cells are the same, every cell has kept its mine flag, its
    label and its stored count, no cell was closed, and a cell that carries
    a label was not opened unless it is a mine. *)
Theorem Open_only_opens begin_pos fuel index g g' :
  final_state (Open begin_pos fuel index g) = Some g' ->
  rows g' = rows g /\ columns g' = columns g /\ bombs g' = bombs g /\
  length (cells g') = length (cells g) /\
  forall j c, cells g !! j = Some c ->
    exists c', cells g' !! j = Some c' /\
      isBomb c' = isBomb c /\ label c' = label c /\
      numberOfNeighborBombs c' = numberOfNeighborBombs c /\
      (isOpened c = true -> isOpened c' = true) /\
      (label c <> MCL_None -> isBomb c = false -> isOpened c' = isOpened c).
Proof.
  intros Hfin. pose proof (OnOpen_only_opened begin_pos fuel index g) as Hpost.
  unfold Open in Hfin.
  assert (Hg' : only_opened g g').
  { destruct (OnOpen begin_pos fuel index g); simpl in *; congruence. }
  destruct Hg' as (Hr & Hc & Hb & Hlen & Hcells). split_and!; try assumption.
  intros j c Hj. destruct (Hcells j c Hj) as [Hsame | (Hopened & Ho & Hl)].
  - exists c. split_and!; auto.
  - exists (cell_opened c). split_and!; auto.
    intros Hlabel Hsafe. destruct Hl; congruence.
Qed.

(** [Open] on the empty cell (4, 4) of the crowded game. *)
Lemma Open_only_opens_witness :
  rows crowded_game_flooded = rows crowded_game /\
  columns crowded_game_flooded = columns crowded_game /\
  bombs crowded_game_flooded = bombs crowded_game /\
  length (cells crowded_game_flooded) = length (cells crowded_game) /\
  forall j c, cells crowded_game !! j = Some c ->
    exists c', cells crowded_game_flooded !! j = Some c' /\
      isBomb c' = isBomb c /\ label c' = label c /\
      numberOfNeighborBombs c' = numberOfNeighborBombs c /\
      (isOpened c = true -> isOpened c' = true) /\
      (label c <> MCL_None -> isBomb c = false -> isOpened c' = isOpened c).
Proof.
  apply (Open_only_opens begin_first 200 40 crowded_game crowded_game_flooded).
  vm_compute. reflexivity.
Defined.

(** ** The counter and the state follow the board *)

Lemma post_conj {A} (r : result A) Q1 E1 Q2 E2 :
  post r Q1 E1 -> post r Q2 E2 ->
  post r (fun a g => Q1 a g /\ Q2 a g) (fun g => E1 g /\ E2 g).
Proof. destruct r; simpl; auto. Qed.

Lemma wf_open index : preserves wf (open index).
Proof.
  apply preserves_open;
    auto using wf_setCell, wf_OnModified, wf_with_numberOfOpenedCells, wf_with_state.
Qed.

Lemma opened_safe_cells_le g : (opened_safe_cells g <= length (cells g))%nat.
Proof. apply filter_length_le. Qed.

Lemma wf_size_bound g : wf g -> cells_size g <= 720.
Proof. intros [Hr Hc Hs _ _]. rewrite Hs. nia. Qed.

(** [open] in an active game: the cell is skipped, or opened and counted,
    or it is a mine and the game is over. *)
Lemma open_tally g index :
  tally g -> state g = MGS_Active ->
  post (open index g)
    (fun ok g' => tally g' /\ state g' = if ok then MGS_Active else MGS_Failure)
    (fun _ => False).
Proof.
  intros Hg Hs. pose proof (wf_open index g (tally_wf g Hg)) as Hwf'.
  destruct Hg as [Hwf Hn Hfail Hmines Hsucc].
  destruct (cells g !! N.to_nat index) as [c |] eqn:Hc.
  2:{ unfold open, bind, cellAt. now rewrite Hc. }
  destruct (isOpened c) eqn:Ho.
  { rewrite (open_skip g index c Hc) by auto. simpl. split; [now constructor | exact Hs]. }
  destruct (label_eqb (label c) MCL_None) eqn:Hl.
  2:{ rewrite (open_skip g index c Hc).
      - simpl. split; [now constructor | exact Hs].
      - right. intros Heq. rewrite Heq in Hl. discriminate. }
  assert (Hl' : label c = MCL_None) by (destruct (label c); simpl in Hl; congruence).
  destruct (isBomb c) eqn:Hb.
  - destruct (open_mine g index c Hs Hc Ho Hl' Hb) as (g' & Hrun & Hs' & Hn' & Hlen' & Hcells').
    rewrite Hrun in Hwf' |- *. simpl in *. split; [| exact Hs'].
    constructor; try assumption.
    + rewrite Hn', Hn. f_equal. symmetry. apply filter_length_ext; [exact Hlen' |].
      intros j cj cj' Hcj Hcj'. destruct (Hcells' j cj Hcj) as (c'' & Hc'' & Hb'' & Hsame & _).
      assert (c'' = cj') by congruence. subst c''.
      destruct (isBomb cj) eqn:Hbj.
      * rewrite Hb''. simpl. now rewrite !andb_false_r.
      * now rewrite (Hsame eq_refl), Hbj.
    + intros _ j cj' Hcj' Hbj'.
      assert (Hj : is_Some (cells g !! j)).
      { apply lookup_lt_is_Some. rewrite <- Hlen'. eapply lookup_lt_Some, Hcj'. }
      destruct Hj as [cj Hcj]. destruct (Hcells' j cj Hcj) as (c'' & Hc'' & Hb'' & _ & Hopen).
      assert (c'' = cj') by congruence. subst c''. apply Hopen. congruence.
    + congruence.
    + congruence.
  - rewrite (open_safe g index c Hs Hc Ho Hl' Hb) in Hwf' |- *. simpl in *.
    split; [| exact Hs]. constructor; simpl; [exact Hwf' | | congruence | | congruence].
    + unfold opened_safe_cells. simpl.
      pose proof (filter_length_insert (fun c => isOpened c && negb (isBomb c))
                    (cells g) (N.to_nat index) c (cell_opened c) Hc) as Hins.
      simpl in Hins. rewrite Ho, Hb in Hins. simpl in Hins.
      pose proof (opened_safe_cells_le g) as Hle.
      pose proof (wf_size_bound g Hwf) as Hsize. unfold cells_size in Hsize.
      unfold opened_safe_cells in *.
      rewrite wadd_small; [lia |].
      change size_t_modulus with 18446744073709551616. lia.
    + intros _ j cj Hcj Hbj. simpl in Hcj.
      destruct (decide (j = N.to_nat index)) as [-> | Hne].
      * rewrite list_lookup_insert_eq in Hcj by (eapply lookup_lt_Some, Hc).
        injection Hcj as <-. simpl in Hbj. congruence.
      * rewrite list_lookup_insert_ne in Hcj by congruence.
        apply (Hmines ltac:(congruence) j cj Hcj Hbj).
Qed.

Lemma openNeighbors_for_tally neighbors : forall unprocessed g,
  tally g -> state g = MGS_Active ->
  post (openNeighbors_for neighbors unprocessed g)
    (fun r g' => tally g' /\ (r <> None -> state g' = MGS_Active))
    (fun _ => False).
Proof.
  induction neighbors as [| x neighbors IH]; intros unprocessed g Hg Hs; simpl; [auto |].
  apply post_bind_cellAt. intros c Hc.
  destruct (negb (IsOpened c)); [| now apply IH].
  eapply post_bind_mono; [apply open_tally; eassumption | | auto].
  intros [|] g' [Hg' Hs']; simpl.
  - apply post_bind_cellAt. intros c' Hc'.
    destruct (GetNumberOfNeighborBombs c' =? 0); now apply IH.
  - split; [exact Hg' | congruence].
Qed.

Lemma openNeighbors_while_tally begin_pos fuel : forall unprocessed g,
  tally g -> state g = MGS_Active ->
  post (openNeighbors_while begin_pos fuel unprocessed g) (fun _ g' => tally g') tally.
Proof.
  induction fuel as [| fuel IH]; intros [| x unprocessed] g Hg Hs; simpl; auto.
  apply post_bind. apply findNeighbors_post; [| auto].
  intros _ ns _.
  eapply post_bind_mono; [apply openNeighbors_for_tally; eassumption | | intros ? []].
  intros [w |] g' [Hg' Hs']; simpl; [| exact Hg'].
  apply IH; [exact Hg' | apply Hs'; discriminate].
Qed.

Lemma OnOpen_tally begin_pos fuel index g :
  tally g -> post (OnOpen begin_pos fuel index g) (fun _ g' => tally g') tally.
Proof.
  intros Hg.
  destruct (state_eqb (state g) MGS_Active) eqn:Hs.
  2:{ rewrite OnOpen_game_over; [exact Hg |]. intros Heq. rewrite Heq in Hs. discriminate. }
  assert (Hs' : state g = MGS_Active) by (destruct (state g); simpl in Hs; congruence).
  clear Hs. rename Hs' into Hs.
  unfold OnOpen. rewrite (bind_Ret get _ g g g eq_refl).
  rewrite Hs. simpl. rewrite (bind_Ret (internal_check true) _ g tt g eq_refl).
  unfold bind at 1, internal_check.
  destruct (index <? cells_size g); [| exact Hg].
  apply post_bind_cellAt. intros cell Hcell.
  destruct (IsOpened cell).
  - eapply post_bind_mono;
      [apply (preserves_CalculateNumberOfNeighborCellsLabeledAsBombs (fun g' => g' = g));
       reflexivity | | intros g1 ->; exact Hg].
    intros labeled g1 ->.
    destruct (GetNumberOfNeighborBombs cell =? labeled); [| exact Hg].
    now apply openNeighbors_while_tally.
  - eapply post_bind_mono; [apply open_tally; eassumption | | intros ? []].
    intros [|] g1 [Hg1 Hs1]; simpl; [| exact Hg1].
    unfold bind at 1. rewrite (hasSuccess_Active g1 Hs1).
    destruct (numberOfOpenedCells g1 <=? wsub (cells_size g1) (bombs g1)); [| exact Hg1].
    destruct (N.eqb_spec (numberOfOpenedCells g1) (wsub (cells_size g1) (bombs g1)))
      as [Heq | Hne].
    + apply post_bind_cellAt. intros cell' _. simpl.
      destruct Hg1 as [Hwf1 Hn1 Hfail1 Hmines1 Hsucc1].
      constructor; simpl; try assumption; try congruence.
      * now apply wf_with_state.
      * intros _. apply Hmines1. congruence.
      * intros _. exact Heq.
    + apply post_bind_cellAt. intros cell' _. simpl.
      destruct (GetNumberOfNeighborBombs cell' =? 0); [| exact Hg1].
      now apply openNeighbors_while_tally.
Qed.

(** The other fields of [consistent] follow from what [Open] can change. *)
Lemma consistent_only_opened g g' :
  consistent g -> only_opened g g' -> tally g' -> consistent g'.
Proof.
  intros [_ Hp Hl Hc] (Hr & Hcol & Hb & Hlen & Hcells) Hg'.
  constructor; [exact Hg' | congruence | |].
  - intros j c' Hj Ho Hsafe.
    assert (Hold : is_Some (cells g !! j)).
    { apply lookup_lt_is_Some. rewrite <- Hlen. eapply lookup_lt_Some, Hj. }
    destruct Hold as [c Hcj].
    destruct (Hcells j c Hcj) as [Hsame | (Hopened & Hclosed & Hlabel)].
    + assert (c' = c) by congruence. subst c'. now apply (Hl j).
    + assert (c' = cell_opened c) by congruence. subst c'. simpl in *.
      destruct Hlabel; congruence.
  - intros j c' Hj Hmine.
    assert (Hold : is_Some (cells g !! j)).
    { apply lookup_lt_is_Some. rewrite <- Hlen. eapply lookup_lt_Some, Hj. }
    destruct Hold as [c Hcj].
    destruct (Hcells j c Hcj) as [Hsame | (Hopened & _)].
    + assert (c' = c) by congruence. subst c'. now apply (Hc j).
    + assert (c' = cell_opened c) by congruence. subst c'. simpl in *. now apply (Hc j).
Qed.

Lemma Open_consistent begin_pos fuel index :
  preserves consistent (Open begin_pos fuel index).
Proof.
  intros g Hg. unfold Open.
  eapply post_mono;
    [exact (post_conj _ _ _ _ _ (OnOpen_tally begin_pos fuel index g (consistent_tally g Hg))
                                (OnOpen_only_opened begin_pos fuel index g)) | |].
  - intros _ g' [Ht Ho]. now apply (consistent_only_opened g).
  - intros g' [Ht Ho]. now apply (consistent_only_opened g).
Qed.

(** ** Every reachable game is consistent *)

(** A game with the board, the counter and the state of a consistent
    one. *)
Lemma consistent_same_board g g' :
  consistent g -> wf g' ->
  state g' = state g -> rows g' = rows g -> columns g' = columns g -> bombs g' = bombs g ->
  cells g' = cells g -> numberOfOpenedCells g' = numberOfOpenedCells g ->
  consistent g'.
Proof.
  intros [[_ Hn Hfail Hmines Hsucc] Hp Hl Hc] Hwf Hs Hr Hcol Hb Hcells Hcount.
  assert (Hsize : cells_size g' = cells_size g) by (unfold cells_size; now rewrite Hcells).
  constructor; [constructor | | |]; unfold all_mines_opened, no_mine_is_opened, opened_safe_cells in *;
    rewrite ?Hs, ?Hr, ?Hcol, ?Hb, ?Hcells, ?Hcount, ?Hsize; assumption.
Qed.

Lemma OnModified_consistent index : preserves consistent (OnModified index).
Proof.
  intros g Hg.
  pose proof (wf_OnModified index g (tally_wf g (consistent_tally g Hg))) as Hwf.
  unfold OnModified, bind, get, internal_check, modify in *.
  destruct (state_eqb (state g) MGS_Active); [| exact Hg].
  destruct (index <? cells_size g); [| exact Hg].
  simpl in *. now apply (consistent_same_board g).
Qed.

(** A label written on a closed cell. *)
Lemma consistent_label g index c newLabel :
  consistent g -> cells g !! N.to_nat index = Some c -> isOpened c = false ->
  consistent (with_cells (<[N.to_nat index := cell_with_label newLabel c]> (cells g)) g).
Proof.
  intros [[Hwf Hn Hfail Hmines Hsucc] Hp Hl Hcount] Hc Ho.
  assert (Hlen : length (<[N.to_nat index := cell_with_label newLabel c]> (cells g)) =
                 length (cells g)) by apply length_insert.
  assert (Hcases : forall j cj,
            <[N.to_nat index := cell_with_label newLabel c]> (cells g) !! j = Some cj ->
            (j = N.to_nat index /\ cj = cell_with_label newLabel c) \/ cells g !! j = Some cj).
  { intros j cj Hj. destruct (decide (j = N.to_nat index)) as [-> | Hne].
    - rewrite list_lookup_insert_eq in Hj by (eapply lookup_lt_Some, Hc).
      injection Hj as <-. auto.
    - rewrite list_lookup_insert_ne in Hj by congruence. auto. }
  constructor; [constructor | | |]; simpl.
  - now apply wf_with_cells.
  - rewrite Hn. f_equal. unfold opened_safe_cells. simpl.
    pose proof (filter_length_insert (fun c => isOpened c && negb (isBomb c))
                  (cells g) (N.to_nat index) c (cell_with_label newLabel c) Hc) as Hins.
    simpl in Hins. rewrite Ho in Hins. simpl in Hins. lia.
  - intros Hs j cj Hj Hb. simpl in Hj.
    destruct (Hcases j cj Hj) as [[-> ->] | Hold]; [| now apply (Hfail Hs j)].
    simpl in *. exact (Hfail Hs (N.to_nat index) c Hc Hb).
  - intros Hs j cj Hj Hb. simpl in Hj.
    destruct (Hcases j cj Hj) as [[-> ->] | Hold]; [exact Ho | now apply (Hmines Hs j)].
  - intros Hs. unfold cells_size. simpl. rewrite Hlen. now apply Hsucc.
  - exact Hp.
  - intros j cj Hj Hopen Hsafe.
    destruct (Hcases j cj Hj) as [[-> ->] | Hold]; [simpl in *; congruence | now apply (Hl j)].
  - intros j cj Hj Hb.
    destruct (Hcases j cj Hj) as [[-> ->] | Hold];
      [exact (Hcount (N.to_nat index) c Hc Hb) | now apply (Hcount j)].
Qed.

Lemma SetLabel_consistent index newLabel : preserves consistent (SetLabel index newLabel).
Proof.
  intros g Hg. unfold SetLabel. apply post_bind_cellAt. intros c Hc.
  unfold bind at 1, internal_check. unfold IsOpened.
  destruct (isOpened c) eqn:Ho; simpl; [exact Hg |].
  destruct (negb (label_eqb (label c) newLabel)); [| exact Hg].
  rewrite (bind_Ret _ _ _ _ _ (setCell_lt _ _ _ (lookup_Some_lt_size _ _ _ Hc))).
  apply OnModified_consistent. now apply consistent_label.
Qed.

Lemma ModifiedCells_consistent : preserves consistent ModifiedCells.
Proof.
  intros g Hg. pose proof (tally_wf g (consistent_tally g Hg)) as Hwf.
  rewrite ModifiedCells_eq by (destruct Hwf as [_ Hc _ _ _]; lia). simpl.
  apply (consistent_same_board g); auto using wf_with_modifiedCellIndices_nil.
Qed.

(** [RestartGame] in a game of valid dimensions: every cell is closed and
    unlabelled, and everything is recorded. *)
Lemma RestartGame_closes g :
  wf g ->
  exists g',
    RestartGame g = Ret tt g' /\ wf g' /\
    state g' = MGS_Active /\ rows g' = rows g /\ columns g' = columns g /\
    bombs g' = bombs g /\ numberOfOpenedCells g' = 0 /\
    length (cells g') = length (cells g) /\
    (forall j c, cells g !! j = Some c -> cells g' !! j = Some (cell_closed c)) /\
    (forall i, i ∈ modifiedCellIndices g' <-> i < cells_size g).
Proof.
  intros Hwf. pose proof (wf_RestartGame g Hwf) as Hwf'.
  unfold RestartGame in *.
  rewrite (bind_Ret reset _ g tt _ eq_refl) in Hwf' |- *.
  set (g1 := {| state := MGS_Active; rows := rows g; columns := columns g; bombs := bombs g;
                cells := cells g; numberOfOpenedCells := 0; modifiedCellIndices := [] |}) in *.
  rewrite (bind_Ret get _ g1 g1 g1 eq_refl) in Hwf' |- *.
  destruct (forEach_Close (indices g1) g1)
    as (g' & Hrun & Hs' & Hr' & Hc' & Hb' & Hn' & Hlen' & Hcells' & Hnd' & Hmod').
  { reflexivity. }
  { apply Forall_forall. intros i Hi. now apply elem_of_indices. }
  rewrite Hrun in Hwf' |- *. exists g'. split_and!; try assumption; try reflexivity.
  - intros j c Hj. rewrite (Hcells' j c Hj). rewrite decide_True; [reflexivity |].
    apply elem_of_indices. apply lookup_lt_Some in Hj. unfold cells_size. simpl. lia.
  - intros i. rewrite Hmod', elem_of_indices. simpl. rewrite elem_of_nil.
    change (cells_size g1) with (cells_size g). tauto.
Qed.

Lemma RestartGame_consistent : preserves consistent RestartGame.
Proof.
  intros g [[Hwf Hn Hfail Hmines Hsucc] Hp Hl Hcount].
  destruct (RestartGame_closes g Hwf)
    as (g' & Hrun & Hwf' & Hs' & Hr' & Hc' & Hb' & Hn' & Hlen' & Hcells' & _).
  rewrite Hrun. simpl.
  assert (Hcases : forall j cj', cells g' !! j = Some cj' ->
            exists cj, cells g !! j = Some cj /\ cj' = cell_closed cj).
  { intros j cj' Hj.
    assert (Hold : is_Some (cells g !! j)).
    { apply lookup_lt_is_Some. rewrite <- Hlen'. eapply lookup_lt_Some, Hj. }
    destruct Hold as [cj Hcj]. exists cj. split; [exact Hcj |].
    rewrite (Hcells' j cj Hcj) in Hj. congruence. }
  constructor; [constructor | | |].
  - exact Hwf'.
  - rewrite Hn'. unfold opened_safe_cells. rewrite filter_length_none; [reflexivity |].
    intros j cj' Hj. destruct (Hcases j cj' Hj) as (cj & _ & ->). reflexivity.
  - congruence.
  - intros _ j cj' Hj _. destruct (Hcases j cj' Hj) as (cj & _ & ->). reflexivity.
  - congruence.
  - congruence.
  - intros j cj' Hj Ho. destruct (Hcases j cj' Hj) as (cj & _ & ->). discriminate.
  - intros j cj' Hj Hb. destruct (Hcases j cj' Hj) as (cj & Hcj & ->). now apply (Hcount j cj).
Qed.

(** The loop of [plantBombs] on a fresh board, whatever is drawn: it does
    not throw, and keeps the board fresh. *)
Lemma plantBombs_from_post draws : forall n g,
  fresh_board g ->
  post (plantBombs_from draws n g)
    (fun _ g' => fresh_board g' /\ rows g' = rows g /\ columns g' = columns g /\
                 bombs g' = bombs g)
    (fun _ => False).
Proof.
  induction draws as [| d draws IH]; intros n g Hg; simpl.
  - destruct (n <? bombs g); simpl; auto.
  - destruct (n <? bombs g); simpl; [| auto].
    apply post_bind_cellAt. intros c Hc. unfold GetIsBomb.
    destruct (isBomb c) eqn:Hb; simpl; [now apply IH |].
    destruct (plantBomb_fresh g d c Hg Hc Hb) as (cs & ns & _ & Hrun & Hg1 & _).
    rewrite (bind_Ret _ _ _ _ _ Hrun).
    eapply post_mono; [apply IH, Hg1 | | intros ? []].
    intros _ g' (Hg' & Hr & Hcol & Hbombs). auto.
Qed.

Lemma fresh_board_consistent g :
  fresh_board g -> valid_parameters (rows g) (columns g) (bombs g) = true -> consistent g.
Proof.
  intros [Hwf Hs Hn Hm Hcells] Hp.
  constructor; [constructor | | |]; try assumption; try congruence.
  - rewrite Hn. unfold opened_safe_cells. rewrite filter_length_none; [reflexivity |].
    intros j c Hj. destruct (Hcells j c Hj) as (-> & _). reflexivity.
  - intros _ j c Hj _. now destruct (Hcells j c Hj).
  - intros j c Hj Ho. destruct (Hcells j c Hj) as (Ho' & _). congruence.
  - intros j c Hj Hb. destruct (Hcells j c Hj) as (_ & _ & Hz). now apply Hz.
Qed.

Lemma NewGame_post draws g :
  9 <= rows g <= 24 -> 9 <= columns g <= 30 ->
  post (NewGame draws g)
    (fun _ g' => fresh_board g' /\ rows g' = rows g /\ columns g' = columns g /\
                 bombs g' = bombs g)
    (fun _ => False).
Proof.
  intros Hr Hc. unfold NewGame.
  rewrite (bind_Ret reset _ g tt _ eq_refl).
  rewrite (bind_Ret (modify _) _ _ tt _ eq_refl). simpl.
  set (g1 := with_cells _ _).
  assert (Hcells : forall j c, cells g1 !! j = Some c -> c = newCell).
  { intros j c Hj. unfold g1 in Hj. simpl in Hj. apply lookup_replicate in Hj. tauto. }
  assert (Hg1 : fresh_board g1).
  { constructor; try reflexivity.
    - constructor; simpl; try assumption; try constructor.
      unfold cells_size. simpl. rewrite length_replicate, N2Nat.id.
      apply wmul_small. change size_t_modulus with 18446744073709551616. nia.
    - intros j c Hj. rewrite (Hcells j c Hj). simpl. auto. }
  exact (plantBombs_from_post draws 0 g1 Hg1).
Qed.

Lemma NewGame_consistent draws : preserves consistent (NewGame draws).
Proof.
  intros g [[Hwf _ _ _ _] Hp _ _].
  destruct Hwf as [Hr Hc _ _ _].
  eapply post_mono; [apply NewGame_post; assumption | | intros ? []].
  intros _ g' (Hg' & Hr' & Hc' & Hb'). apply fresh_board_consistent; [exact Hg' |].
  now rewrite Hr', Hc', Hb'.
Qed.

Lemma NewGame_with_post r c b draws g :
  post (NewGame_with r c b draws g) (fun _ g' => consistent g') (fun g' => g' = g).
Proof.
  rewrite NewGame_with_eq.
  destruct (valid_parameters r c b) eqn:Hp; [| reflexivity].
  pose proof Hp as Hp'. apply valid_parameters_spec in Hp'.
  eapply post_mono; [apply NewGame_post; simpl; lia | | intros ? []].
  intros _ g' (Hg' & Hr' & Hc' & Hb'). apply fresh_board_consistent; [exact Hg' |].
  now rewrite Hr', Hc', Hb'.
Qed.

Lemma perform_consistent begin_pos c : preserves consistent (perform begin_pos c).
Proof.
  destruct c; simpl.
  - intros g Hg. eapply post_mono; [apply NewGame_with_post | auto |].
    intros g' ->. exact Hg.
  - apply NewGame_consistent.
  - apply RestartGame_consistent.
  - apply preserves_bind; [apply preserves_Cell | intros cell; apply Open_consistent].
  - apply preserves_bind; [apply preserves_Cell | intros cell; apply SetLabel_consistent].
  - apply preserves_bind; [apply ModifiedCells_consistent | intros; apply preserves_ret].
Qed.

Lemma reachable_consistent begin_pos g : reachable begin_pos g -> consistent g.
Proof.
  induction 1 as [r c b draws g Hg | g c g' _ IH Hfin].
  - unfold CreateGame in Hg. pose proof (NewGame_with_post r c b draws newGame) as H.
    destruct (NewGame_with r c b draws newGame); try discriminate.
    injection Hg as <-. exact H.
  - eapply preserves_final_state; [apply perform_consistent | exact IH | exact Hfin].
Qed.

(** The counter of opened cells of a reachable game is the number of its
    opened cells that are no mines: an opened mine is not counted, and every
    other opened cell is counted once. *)
Theorem reachable_counter begin_pos g :
  reachable begin_pos g ->
  numberOfOpenedCells g = N.of_nat (opened_safe_cells g) /\
  numberOfOpenedCells g <= cells_size g.
Proof.
  intros Hg. apply reachable_consistent in Hg.
  destruct Hg as [[_ Hn _ _ _] _ _ _]. split; [exact Hn |].
  rewrite Hn. unfold cells_size. pose proof (opened_safe_cells_le g). lia.
Qed.

(** At the crowded game after the flood from (4, 4): 74 opened cells, none
    of them a mine. *)
Lemma reachable_counter_witness :
  numberOfOpenedCells crowded_game_flooded = N.of_nat (opened_safe_cells crowded_game_flooded) /\
  numberOfOpenedCells crowded_game_flooded <= cells_size crowded_game_flooded.
Proof.
  apply (reachable_counter begin_first crowded_game_flooded).
  apply reachable_crowded_game_flooded.
Defined.

(** The state of a reachable game and its mines: in [MGS_Failure] every
    mine is opened; in [MGS_Active] and in [MGS_Success] no mine is opened;
    and in [MGS_Success] the counter of opened cells is
    [cells.size() - bombs], which does not wrap around. *)
Theorem reachable_state begin_pos g :
  reachable begin_pos g ->
  (state g = MGS_Failure -> all_mines_opened g) /\
  (state g <> MGS_Failure -> no_mine_is_opened g) /\
  (state g = MGS_Success ->
     numberOfOpenedCells g = wsub (cells_size g) (bombs g) /\
     numberOfOpenedCells g + bombs g = cells_size g).
Proof.
  intros Hg. apply reachable_consistent in Hg.
  destruct Hg as [[Hwf _ Hfail Hmines Hsucc] Hp _ _]. split_and!; try assumption.
  intros Hs. specialize (Hsucc Hs). split; [exact Hsucc |].
  apply valid_parameters_spec in Hp. destruct Hwf as [_ _ Hsize _ _].
  rewrite wsub_small in Hsucc.
  - rewrite Hsucc, Hsize. nia.
  - rewrite Hsize. nia.
  - rewrite Hsize. change size_t_modulus with 18446744073709551616. nia.
Qed.

(** At the striped game after its corner mine was opened, which is in
    [MGS_Failure]. *)
Lemma reachable_state_witness :
  (state striped_game_lost = MGS_Failure -> all_mines_opened striped_game_lost) /\
  (state striped_game_lost <> MGS_Failure -> no_mine_is_opened striped_game_lost) /\
  (state striped_game_lost = MGS_Success ->
     numberOfOpenedCells striped_game_lost
       = wsub (cells_size striped_game_lost) (bombs striped_game_lost) /\
     numberOfOpenedCells striped_game_lost + bombs striped_game_lost
       = cells_size striped_game_lost).
Proof.
  apply (reachable_state begin_first striped_game_lost).
  apply reachable_striped_game_lost.
Defined.

(** The cells of a reachable game: the parameters of the game are among
    those [NewGame] accepts, an opened cell that is no mine carries no
    label, and a mine stores a count of zero. *)
Theorem reachable_cells begin_pos g :
  reachable begin_pos g ->
  valid_parameters (rows g) (columns g) (bombs g) = true /\
  (forall j c, cells g !! j = Some c -> isOpened c = true -> isBomb c = false ->
               label c = MCL_None) /\
  (forall j c, cells g !! j = Some c -> isBomb c = true -> numberOfNeighborBombs c = 0).
Proof.
  intros Hg. apply reachable_consistent in Hg. destruct Hg as [_ Hp Hl Hc]. auto.
Qed.

(** At the island game with all but six of its safe cells opened. *)
Lemma reachable_cells_witness :
  valid_parameters (rows island_game_prepared) (columns island_game_prepared)
    (bombs island_game_prepared) = true /\
  (forall j c, cells island_game_prepared !! j = Some c ->
               isOpened c = true -> isBomb c = false -> label c = MCL_None) /\
  (forall j c, cells island_game_prepared !! j = Some c ->
               isBomb c = true -> numberOfNeighborBombs c = 0).
Proof.
  apply (reachable_cells begin_first island_game_prepared).
  apply reachable_island_game_prepared.
Defined.

(** ** The layout of the mines stays, and [RestartGame] brings the board back *)

Lemma same_layout_refl g : same_layout g g.
Proof. unfold same_layout. split_and!; auto. intros j c Hc. exists c. auto. Qed.

Lemma same_layout_trans g1 g2 g3 :
  same_layout g1 g2 -> same_layout g2 g3 -> same_layout g1 g3.
Proof.
  intros (Hr & Hc & Hb & Hlen & Hcells) (Hr' & Hc' & Hb' & Hlen' & Hcells').
  unfold same_layout. split_and!; try congruence.
  intros j c Hj. destruct (Hcells j c Hj) as (c' & Hj' & Hb1 & Hn1).
  destruct (Hcells' j c' Hj') as (c'' & Hj'' & Hb2 & Hn2).
  exists c''. split_and!; congruence.
Qed.

Lemma only_opened_same_layout g g' : only_opened g g' -> same_layout g g'.
Proof.
  intros (Hr & Hc & Hb & Hlen & Hcells). unfold same_layout. split_and!; try assumption.
  intros j c Hj. destruct (Hcells j c Hj) as [Hsame | (Hopened & _)].
  - exists c. auto.
  - exists (cell_opened c). auto.
Qed.

Lemma same_layout_same_board g g' :
  rows g' = rows g -> columns g' = columns g -> bombs g' = bombs g -> cells g' = cells g ->
  same_layout g g'.
Proof.
  intros Hr Hc Hb Hcells. unfold same_layout. rewrite Hcells. split_and!; auto.
  intros j c Hj. exists c. auto.
Qed.

Lemma SetLabel_same_layout index newLabel g :
  post (SetLabel index newLabel g) (fun _ g' => same_layout g g') (same_layout g).
Proof.
  unfold SetLabel. apply post_bind_cellAt. intros c Hc.
  unfold bind at 1, internal_check.
  destruct (negb (IsOpened c)); [| apply same_layout_refl].
  destruct (negb (label_eqb (label c) newLabel)); [| apply same_layout_refl].
  rewrite (bind_Ret _ _ _ _ _ (setCell_lt _ _ _ (lookup_Some_lt_size _ _ _ Hc))).
  set (g1 := with_cells _ g).
  assert (Hg1 : same_layout g g1).
  { unfold same_layout, g1. simpl. split_and!; auto using length_insert.
    intros j cj Hj. destruct (decide (j = N.to_nat index)) as [-> | Hne].
    - assert (cj = c) by congruence. subst cj. exists (cell_with_label newLabel c).
      split_and!; auto. apply list_lookup_insert_eq. eapply lookup_lt_Some, Hc.
    - exists cj. now rewrite list_lookup_insert_ne by congruence. }
  unfold onModified, OnModified, bind, get, internal_check, modify.
  destruct (state_eqb (state g1) MGS_Active); [| exact Hg1].
  destruct (index <? cells_size g1); exact Hg1.
Qed.

Lemma perform_same_layout begin_pos c g :
  wf g -> keeps_board c = true ->
  post (perform begin_pos c g) (fun _ g' => same_layout g g') (same_layout g).
Proof.
  intros Hwf Hc. destruct c; simpl in *; try discriminate.
  - destruct (RestartGame_closes g Hwf)
      as (g' & Hrun & _ & _ & Hr' & Hc' & Hb' & _ & Hlen' & Hcells' & _).
    rewrite Hrun. simpl. unfold same_layout. split_and!; try assumption.
    intros j cj Hj. exists (cell_closed cj). split_and!; auto.
  - eapply post_bind_mono;
      [apply (preserves_Cell (fun g' => g' = g)); reflexivity | | intros g' ->; apply same_layout_refl].
    intros cell g1 ->. unfold Open.
    eapply post_mono; [apply OnOpen_only_opened | |];
      intros; now apply only_opened_same_layout.
  - eapply post_bind_mono;
      [apply (preserves_Cell (fun g' => g' = g)); reflexivity | | intros g' ->; apply same_layout_refl].
    intros cell g1 ->. apply SetLabel_same_layout.
  - assert (Hcol : columns g <> 0) by (destruct Hwf as [_ Hcol _ _ _]; lia).
    rewrite (bind_Ret _ _ _ _ _ (ModifiedCells_eq g Hcol)). simpl.
    now apply same_layout_same_board.
Qed.

Lemma play_same_layout begin_pos cs : forall g g',
  wf g -> forallb keeps_board cs = true -> play begin_pos cs g = Some g' ->
  wf g' /\ same_layout g g'.
Proof.
  induction cs as [| c cs IH]; intros g g' Hwf Hcs Hplay; simpl in *.
  - injection Hplay as <-. split; [exact Hwf | apply same_layout_refl].
  - apply andb_true_iff in Hcs. destruct Hcs as [Hc Hcs].
    destruct (final_state (perform begin_pos c g)) as [g1 |] eqn:Hfin; [| discriminate].
    assert (Hwf1 : wf g1).
    { eapply preserves_final_state; [apply wf_perform | exact Hwf | exact Hfin]. }
    assert (Hg1 : same_layout g g1).
    { pose proof (perform_same_layout begin_pos c g Hwf Hc) as Hpost.
      destruct (perform begin_pos c g); simpl in *; congruence. }
    destruct (IH g1 g' Hwf1 Hcs Hplay) as [Hwf' Hg'].
    split; [exact Hwf' |]. now apply (same_layout_trans g g1).
Qed.

Lemma CreateGame_fresh r c b draws g : CreateGame r c b draws = Some g -> fresh_board g.
Proof.
  unfold CreateGame. rewrite NewGame_with_eq.
  destruct (valid_parameters r c b) eqn:Hp; [| discriminate].
  apply valid_parameters_spec in Hp.
  pose proof (NewGame_post draws (with_parameters r c b newGame)) as Hpost.
  simpl in Hpost. specialize (Hpost ltac:(lia) ltac:(lia)).
  destruct (NewGame draws (with_parameters r c b newGame)); try discriminate.
  intros [= <-]. apply Hpost.
Qed.

Lemma striped_game_fresh : fresh_board striped_game.
Proof. apply (CreateGame_fresh 9 9 10 striped_draws). vm_compute. reflexivity. Qed.

(** [RestartGame] brings back the board [NewGame] made: from a fresh board,
    after any calls of [Open], [SetLabel], [ModifiedCells] and [RestartGame]
    that came back (by return or by exception, won or lost), [RestartGame]
    followed by [ModifiedCells] returns with the game exactly as it was
    when it was fresh. *)
Theorem RestartGame_restores_board begin_pos cs g0 g :
  fresh_board g0 ->
  forallb keeps_board cs = true ->
  play begin_pos cs g0 = Some g ->
  exists coordinates, (do RestartGame then ModifiedCells) g = Ret coordinates g0.
Proof.
  intros [Hwf0 Hs0 Hn0 Hm0 Hcells0] Hcs Hplay.
  destruct (play_same_layout begin_pos cs g0 g Hwf0 Hcs Hplay)
    as [Hwf (Hr & Hc & Hb & Hlen & Hcells)].
  destruct (RestartGame_closes g Hwf)
    as (g' & Hrun & Hwf' & Hs' & Hr' & Hc' & Hb' & Hn' & Hlen' & Hcells' & _).
  rewrite (bind_Ret _ _ _ _ _ Hrun).
  rewrite ModifiedCells_eq by (destruct Hwf' as [_ Hcol _ _ _]; lia).
  eexists. f_equal.
  assert (Hsame : cells g' = cells g0).
  { apply list_eq. intros j.
    destruct (cells g0 !! j) as [c0 |] eqn:Hj0.
    - destruct (Hcells j c0 Hj0) as (c & Hj & Hbomb & Hcount).
      rewrite (Hcells' j c Hj). f_equal.
      destruct (Hcells0 j c0 Hj0) as (Ho0 & Hl0 & _).
      destruct c0 as [b0 o0 l0 n0], c as [b o l n]. simpl in *.
      unfold cell_closed, cell_with_label, cell_with_isOpened. simpl. congruence.
    - apply lookup_ge_None. apply lookup_ge_None in Hj0. lia. }
  destruct g0 as [s0 r0 c0 b0 cs0 n0 m0], g' as [s' r' c' b' cs' n' m']. simpl in *.
  unfold with_modifiedCellIndices. simpl. congruence.
Qed.

(** The striped game after a flag on the corner mine and [Open] on it. *)
Lemma RestartGame_restores_board_witness :
  exists coordinates,
    (do RestartGame then ModifiedCells) flagged_game_opened = Ret coordinates striped_game.
Proof.
  apply (RestartGame_restores_board begin_first
           [CallSetLabel 0 0 MCL_Bomb; CallOpen 1 0 0] striped_game flagged_game_opened).
  - apply striped_game_fresh.
  - reflexivity.
  - vm_compute. reflexivity.
Defined.

(** ** The flags around an opened cell *)

Lemma countLabeledAsBombs_eq ns : forall acc g,
  Forall (fun n => n < cells_size g) ns ->
  acc + N.of_nat (length ns) < size_t_modulus ->
  countLabeledAsBombs ns acc g =
  Ret (acc + N.of_nat (length (List.filter (is_flagged g) ns))) g.
Proof.
  assert (Hmod : size_t_modulus = 18446744073709551616) by reflexivity.
  induction ns as [| x ns IH]; intros acc g Hrange Hacc; simpl.
  - unfold ret. now rewrite N.add_0_r.
  - apply Forall_cons in Hrange. destruct Hrange as [Hx Hrange].
    destruct (cellAt_lt g x Hx) as (c & Hc & Hread).
    rewrite (bind_Ret _ _ _ _ _ Hread).
    unfold is_flagged at 1. rewrite Hc. unfold IsOpened, Label.
    simpl length in Hacc. rewrite Hmod in Hacc.
    destruct (negb (isOpened c) && label_eqb (label c) MCL_Bomb).
    + rewrite IH; [| exact Hrange |].
      * rewrite wadd_small by (rewrite Hmod; lia). simpl length. f_equal. lia.
      * rewrite wadd_small by (rewrite Hmod; lia). rewrite Hmod. lia.
    + apply IH; [exact Hrange | rewrite Hmod; lia].
Qed.

Lemma CalculateNumberOfNeighborCellsLabeledAsBombs_eq g index :
  wf g -> index < cells_size g ->
  CalculateNumberOfNeighborCellsLabeledAsBombs index g = Ret (flagged_around g index) g.
Proof.
  intros Hwf Hi.
  destruct (findNeighbors_neighborPositions g index Hwf Hi) as (ns & Hns & Hfind & _ & Hin).
  unfold CalculateNumberOfNeighborCellsLabeledAsBombs, flagged_around.
  rewrite (bind_Ret _ _ _ _ _ Hfind), Hns.
  rewrite countLabeledAsBombs_eq; [reflexivity | |].
  - apply Forall_forall. intros n Hn. now apply Hin.
  - pose proof (neighborPositions_length _ _ _ _ _ Hns).
    change size_t_modulus with 18446744073709551616. lia.
Qed.

(** [CalculateNumberOfNeighborCellsLabeledAsBombs]: in a game of valid
    dimensions, on a position of the grid, the call returns the number of
    cells adjacent to it that are closed and labelled [MCL_Bomb] (eight at
    most; a label on an opened cell does not count, nor does [MCL_Question]),
    and leaves the game as it is. *)
Theorem CalculateNumberOfNeighborCellsLabeledAsBombs_counts g index :
  wf g -> index < cells_size g ->
  CalculateNumberOfNeighborCellsLabeledAsBombs index g = Ret (flagged_around g index) g /\
  flagged_around g index <= 8 /\
  exists ns,
    findNeighbors index g = Ret ns g /\
    flagged_around g index =
    N.of_nat (length (List.filter
      (fun n => match cells g !! N.to_nat n with
                | Some c => negb (isOpened c) && label_eqb (label c) MCL_Bomb
                | None => false
                end) ns)).
Proof.
  intros Hwf Hi.
  destruct (findNeighbors_neighborPositions g index Hwf Hi) as (ns & Hns & Hfind & _ & Hin).
  pose proof (neighborPositions_length _ _ _ _ _ Hns) as Hlen.
  pose proof (filter_length_le (is_flagged g) ns) as Hle.
  unfold CalculateNumberOfNeighborCellsLabeledAsBombs, flagged_around.
  rewrite (bind_Ret _ _ _ _ _ Hfind), Hns. split_and!.
  - rewrite countLabeledAsBombs_eq; [reflexivity | |].
    + apply Forall_forall. intros n Hn. now apply Hin.
    + change size_t_modulus with 18446744073709551616. lia.
  - lia.
  - exists ns. split; [exact Hfind | reflexivity].
Qed.

(** At the striped game with its corner (0, 0) flagged: the cell (0, 1) has
    one flag around it. *)
Lemma CalculateNumberOfNeighborCellsLabeledAsBombs_counts_witness :
  CalculateNumberOfNeighborCellsLabeledAsBombs 1 flagged_game
    = Ret (flagged_around flagged_game 1) flagged_game /\
  flagged_around flagged_game 1 <= 8 /\
  exists ns,
    findNeighbors 1 flagged_game = Ret ns flagged_game /\
    flagged_around flagged_game 1 =
    N.of_nat (length (List.filter
      (fun n => match cells flagged_game !! N.to_nat n with
                | Some c => negb (isOpened c) && label_eqb (label c) MCL_Bomb
                | None => false
                end) ns)).
Proof.
  apply (CalculateNumberOfNeighborCellsLabeledAsBombs_counts flagged_game 1).
  - apply (reachable_wf begin_first), reachable_flagged_game.
  - reflexivity.
Defined.

(** ** [Open] on a closed, unlabelled cell that is no mine *)

Lemma OnOpen_Active begin_pos fuel index g c :
  state g = MGS_Active -> cells g !! N.to_nat index = Some c ->
  OnOpen begin_pos fuel index g =
  if IsOpened c then
    (let* labeled := CalculateNumberOfNeighborCellsLabeledAsBombs index in
     if GetNumberOfNeighborBombs c =? labeled
     then openNeighbors begin_pos fuel index else ret tt) g
  else
    (let* opened := open index in
     if opened then
       let* success := hasSuccess in
       let* cell := cellAt index in
       if negb success && (GetNumberOfNeighborBombs cell =? 0)
       then openNeighbors begin_pos fuel index else ret tt
     else ret tt) g.
Proof.
  intros Hs Hc. unfold OnOpen. rewrite (bind_Ret get _ g g g eq_refl).
  rewrite Hs. simpl. rewrite (bind_Ret (internal_check true) _ g tt g eq_refl).
  pose proof (lookup_Some_lt_size _ _ _ Hc) as Hlt. apply N.ltb_lt in Hlt.
  rewrite Hlt. rewrite (bind_Ret (internal_check true) _ g tt g eq_refl).
  rewrite (bind_Ret _ _ _ _ _ (cellAt_Some _ _ _ Hc)).
  now destruct (IsOpened c).
Qed.

(** The whole of [OnOpen] on such a cell: the cell is opened and counted,
    and the counter decides what follows. *)
Lemma OnOpen_safe_cell begin_pos fuel index g c :
  state g = MGS_Active ->
  cells g !! N.to_nat index = Some c ->
  isOpened c = false -> label c = MCL_None -> isBomb c = false ->
  OnOpen begin_pos fuel index g =
  if numberOfOpenedCells (opened_at index c g) <=? wsub (cells_size g) (bombs g) then
    if numberOfOpenedCells (opened_at index c g) =? wsub (cells_size g) (bombs g)
    then Ret tt (with_state MGS_Success (opened_at index c g))
    else if numberOfNeighborBombs c =? 0
         then openNeighbors begin_pos fuel index (opened_at index c g)
         else Ret tt (opened_at index c g)
  else Throw (opened_at index c g).
Proof.
  intros Hs Hc Ho Hl Hb.
  rewrite (OnOpen_Active begin_pos fuel index g c Hs Hc). unfold IsOpened. rewrite Ho.
  rewrite (bind_Ret _ _ _ _ _ (open_safe g index c Hs Hc Ho Hl Hb)).
  fold (opened_at index c g). set (g1 := opened_at index c g).
  assert (Hsize : cells_size g1 = cells_size g).
  { unfold cells_size, g1, opened_at. simpl. now rewrite length_insert. }
  assert (Hc1 : forall s, cells (with_state s g1) !! N.to_nat index = Some (cell_opened c)).
  { intros s. unfold g1, opened_at. simpl. apply list_lookup_insert_eq.
    eapply lookup_lt_Some, Hc. }
  unfold bind at 1. rewrite (hasSuccess_Active g1 Hs). rewrite Hsize.
  change (bombs g1) with (bombs g).
  destruct (numberOfOpenedCells g1 <=? wsub (cells_size g) (bombs g)); [| reflexivity].
  destruct (numberOfOpenedCells g1 =? wsub (cells_size g) (bombs g)).
  - rewrite (bind_Ret _ _ _ _ _ (cellAt_Some _ _ _ (Hc1 MGS_Success))). reflexivity.
  - specialize (Hc1 (state g1)).
    replace (with_state (state g1) g1) with g1 in Hc1 by now destruct g1.
    rewrite (bind_Ret _ _ _ _ _ (cellAt_Some _ _ _ Hc1)).
    unfold GetNumberOfNeighborBombs. simpl.
    now destruct (numberOfNeighborBombs c =? 0).
Qed.

(** In an active game, [Open] on a closed, unlabelled cell that is no mine
    and stores a count other than zero, when more cells remain to be opened:
    the call returns, the cell is opened, counted and recorded as modified,
    and nothing else changes (no other cell, not the state). *)
Theorem Open_numbered_cell begin_pos fuel index g c :
  state g = MGS_Active ->
  cells g !! N.to_nat index = Some c ->
  isOpened c = false -> label c = MCL_None -> isBomb c = false ->
  numberOfNeighborBombs c <> 0 ->
  numberOfOpenedCells g + 1 < wsub (cells_size g) (bombs g) ->
  exists g',
    Open begin_pos fuel index g = Ret tt g' /\
    state g' = MGS_Active /\
    numberOfOpenedCells g' = numberOfOpenedCells g + 1 /\
    cells g' = <[N.to_nat index := cell_opened c]> (cells g) /\
    modifiedCellIndices g' = uset_insert index (modifiedCellIndices g) /\
    rows g' = rows g /\ columns g' = columns g /\ bombs g' = bombs g.
Proof.
  intros Hs Hc Ho Hl Hb Hcount Hn.
  assert (Hsmall : wadd (numberOfOpenedCells g) 1 = numberOfOpenedCells g + 1).
  { apply wadd_small. unfold wsub in Hn.
    pose proof (N.mod_lt (cells_size g + size_t_modulus - bombs g mod size_t_modulus)
                  size_t_modulus ltac:(discriminate)). lia. }
  exists (opened_at index c g). split_and!; try reflexivity; try assumption.
  unfold Open. rewrite (OnOpen_safe_cell begin_pos fuel index g c Hs Hc Ho Hl Hb).
  change (numberOfOpenedCells (opened_at index c g)) with (wadd (numberOfOpenedCells g) 1).
  rewrite Hsmall.
  destruct (N.leb_spec (numberOfOpenedCells g + 1) (wsub (cells_size g) (bombs g))); [| lia].
  destruct (N.eqb_spec (numberOfOpenedCells g + 1) (wsub (cells_size g) (bombs g))); [lia |].
  apply N.eqb_neq in Hcount. now rewrite Hcount.
Qed.

(** At the striped game: the cell (0, 1), between two mines. *)
Lemma Open_numbered_cell_witness :
  exists g',
    Open begin_first 0 1 striped_game = Ret tt g' /\
    state g' = MGS_Active /\
    numberOfOpenedCells g' = numberOfOpenedCells striped_game + 1 /\
    cells g' = <[N.to_nat 1 := cell_opened (mkCell false false MCL_None 2)]> (cells striped_game) /\
    modifiedCellIndices g' = uset_insert 1 (modifiedCellIndices striped_game) /\
    rows g' = rows striped_game /\ columns g' = columns striped_game /\
    bombs g' = bombs striped_game.
Proof.
  apply (Open_numbered_cell begin_first 0 1 striped_game (mkCell false false MCL_None 2));
    first [reflexivity | discriminate].
Defined.

(** In an active game, [Open] on a closed, unlabelled cell that is no mine,
    when that cell brings the counter of opened cells to
    [cells.size() - bombs]: the call returns with the game in [MGS_Success];
    the cell is opened, counted and recorded, no flood is started even if
    the cell stores a count of zero, and nothing else changes.  From then
    on [Open] on any cell throws and leaves the game as it is. *)
Theorem Open_last_safe_cell begin_pos fuel index g c :
  state g = MGS_Active ->
  cells g !! N.to_nat index = Some c ->
  isOpened c = false -> label c = MCL_None -> isBomb c = false ->
  numberOfOpenedCells g + 1 = wsub (cells_size g) (bombs g) ->
  exists g',
    Open begin_pos fuel index g = Ret tt g' /\
    state g' = MGS_Success /\
    numberOfOpenedCells g' = numberOfOpenedCells g + 1 /\
    cells g' = <[N.to_nat index := cell_opened c]> (cells g) /\
    modifiedCellIndices g' = uset_insert index (modifiedCellIndices g) /\
    rows g' = rows g /\ columns g' = columns g /\ bombs g' = bombs g /\
    forall fuel' index', Open begin_pos fuel' index' g' = Throw g'.
Proof.
  intros Hs Hc Ho Hl Hb Hn.
  assert (Hsmall : wadd (numberOfOpenedCells g) 1 = numberOfOpenedCells g + 1).
  { apply wadd_small. unfold wsub in Hn.
    pose proof (N.mod_lt (cells_size g + size_t_modulus - bombs g mod size_t_modulus)
                  size_t_modulus ltac:(discriminate)). lia. }
  exists (with_state MGS_Success (opened_at index c g)).
  split_and!; [| reflexivity | exact Hsmall | reflexivity .. |].
  - unfold Open. rewrite (OnOpen_safe_cell begin_pos fuel index g c Hs Hc Ho Hl Hb).
    change (numberOfOpenedCells (opened_at index c g)) with (wadd (numberOfOpenedCells g) 1).
    rewrite Hsmall, Hn, N.leb_refl, N.eqb_refl. reflexivity.
  - intros fuel' index'. apply OnOpen_game_over. discriminate.
Qed.

(** At the crowded game with five cells opened: the corner (8, 8) is the
    sixth, and [cells.size() - bombs] is 6. *)
Lemma Open_last_safe_cell_witness :
  exists g',
    Open begin_first 0 80 crowded_game_prepared = Ret tt g' /\
    state g' = MGS_Success /\
    numberOfOpenedCells g' = numberOfOpenedCells crowded_game_prepared + 1 /\
    cells g' = <[N.to_nat 80 := cell_opened (mkCell false false MCL_None 0)]>
                 (cells crowded_game_prepared) /\
    modifiedCellIndices g' = uset_insert 80 (modifiedCellIndices crowded_game_prepared) /\
    rows g' = rows crowded_game_prepared /\ columns g' = columns crowded_game_prepared /\
    bombs g' = bombs crowded_game_prepared /\
    forall fuel' index', Open begin_first fuel' index' g' = Throw g'.
Proof.
  apply (Open_last_safe_cell begin_first 0 80 crowded_game_prepared
           (mkCell false false MCL_None 0)); reflexivity.
Defined.

(** The second check of [hasSuccess]: in an active game whose counter of
    opened cells has already reached [cells.size() - bombs] or passed it,
    [Open] on a closed, unlabelled cell that is no mine opens the cell,
    counts it and records it, and then throws: the exception leaves the
    game active with the cell opened. *)
Theorem Open_counter_overrun begin_pos fuel index g c :
  state g = MGS_Active ->
  cells g !! N.to_nat index = Some c ->
  isOpened c = false -> label c = MCL_None -> isBomb c = false ->
  wsub (cells_size g) (bombs g) <= numberOfOpenedCells g ->
  numberOfOpenedCells g + 1 < size_t_modulus ->
  exists g',
    Open begin_pos fuel index g = Throw g' /\
    state g' = MGS_Active /\
    numberOfOpenedCells g' = numberOfOpenedCells g + 1 /\
    cells g' = <[N.to_nat index := cell_opened c]> (cells g) /\
    modifiedCellIndices g' = uset_insert index (modifiedCellIndices g).
Proof.
  intros Hs Hc Ho Hl Hb Hn Hsmall. apply wadd_small in Hsmall.
  exists (opened_at index c g). split_and!; try reflexivity; try assumption.
  unfold Open. rewrite (OnOpen_safe_cell begin_pos fuel index g c Hs Hc Ho Hl Hb).
  change (numberOfOpenedCells (opened_at index c g)) with (wadd (numberOfOpenedCells g) 1).
  rewrite Hsmall.
  destruct (N.leb_spec (numberOfOpenedCells g + 1) (wsub (cells_size g) (bombs g)));
    [lia | reflexivity].
Qed.

(** At a game the code reaches: the crowded game after the flood from
    (4, 4) has 74 opened cells while [cells.size() - bombs] is 6; [Open] on
    its closed corner (8, 8) opens the cell and throws. *)
Lemma Open_counter_overrun_witness :
  reachable begin_first crowded_game_flooded /\
  exists g',
    Open begin_first 0 80 crowded_game_flooded = Throw g' /\
    state g' = MGS_Active /\
    numberOfOpenedCells g' = numberOfOpenedCells crowded_game_flooded + 1 /\
    cells g' = <[N.to_nat 80 := cell_opened (mkCell false false MCL_None 0)]>
                 (cells crowded_game_flooded) /\
    modifiedCellIndices g' = uset_insert 80 (modifiedCellIndices crowded_game_flooded).
Proof.
  split; [apply reachable_crowded_game_flooded |].
  apply (Open_counter_overrun begin_first 0 80 crowded_game_flooded
           (mkCell false false MCL_None 0)); try reflexivity.
  now vm_compute.
Defined.

(** ** [Open] on an opened cell *)

(** In an active game of valid dimensions, [Open] on an opened cell: when
    the stored count of the cell differs from the number of closed cells
    labelled [MCL_Bomb] around it the call returns and has changed nothing;
    when they are equal the call is the flood from that cell. *)
Theorem Open_opened_cell begin_pos fuel index g c :
  wf g -> state g = MGS_Active ->
  cells g !! N.to_nat index = Some c -> isOpened c = true ->
  (numberOfNeighborBombs c <> flagged_around g index ->
   Open begin_pos fuel index g = Ret tt g) /\
  (numberOfNeighborBombs c = flagged_around g index ->
   Open begin_pos fuel index g = openNeighbors begin_pos fuel index g).
Proof.
  intros Hwf Hs Hc Ho. unfold Open.
  rewrite (OnOpen_Active begin_pos fuel index g c Hs Hc). unfold IsOpened. rewrite Ho.
  pose proof (lookup_Some_lt_size _ _ _ Hc) as Hlt.
  rewrite (bind_Ret _ _ _ _ _ (CalculateNumberOfNeighborCellsLabeledAsBombs_eq g index Hwf Hlt)).
  unfold GetNumberOfNeighborBombs. split.
  - intros Hne. apply N.eqb_neq in Hne. now rewrite Hne.
  - intros Heq. now rewrite Heq, N.eqb_refl.
Qed.

(** At the island game with its safe cells opened: the opened corner (0, 0)
    stores a count of one and has no flag around it. *)
Lemma Open_opened_cell_witness :
  (1 <> flagged_around island_game_prepared 0 ->
   Open begin_first 1 0 island_game_prepared = Ret tt island_game_prepared) /\
  (1 = flagged_around island_game_prepared 0 ->
   Open begin_first 1 0 island_game_prepared = openNeighbors begin_first 1 0 island_game_prepared).
Proof.
  apply (Open_opened_cell begin_first 1 0 island_game_prepared (mkCell false true MCL_None 1)).
  - apply (reachable_wf begin_first), reachable_island_game_prepared.
  - reflexivity.
  - reflexivity.
  - reflexivity.
Defined.

(** ** When [Open] does not throw *)

Lemma opened_safe_mines_le g :
  (opened_safe_cells g + count_mines g <= length (cells g))%nat.
Proof.
  unfold opened_safe_cells, count_mines. induction (cells g) as [| c l IH]; simpl; [lia |].
  destruct (isOpened c), (isBomb c); simpl; lia.
Qed.

Lemma count_mines_only_opened g g' : only_opened g g' -> count_mines g' = count_mines g.
Proof.
  intros (_ & _ & _ & Hlen & Hcells). unfold count_mines.
  apply filter_length_ext; [exact Hlen |].
  intros j c c' Hc Hc'. destruct (Hcells j c Hc) as [Hsame | (Hopened & _)].
  - congruence.
  - assert (c' = cell_opened c) by congruence. now subst c'.
Qed.

Section Size.

Variable k : N.

Lemma size_setCell index c : preserves (fun g => cells_size g = k) (setCell index c).
Proof.
  intros g Hg. unfold setCell. destruct (index <? cells_size g); [| exact I]. simpl.
  unfold cells_size in *. simpl. now rewrite length_insert.
Qed.

Lemma size_OnModified index : preserves (fun g => cells_size g = k) (OnModified index).
Proof.
  intros g Hg. unfold OnModified, bind, get, internal_check, modify.
  destruct (state_eqb (state g) MGS_Active); [| exact Hg].
  destruct (index <? cells_size g); exact Hg.
Qed.

Lemma size_open index : preserves (fun g => cells_size g = k) (open index).
Proof. apply preserves_open; auto using size_setCell, size_OnModified. Qed.

(** The positions the [for] loop of [openNeighbors] puts in [unprocessed]
    are positions of the grid. *)
Lemma openNeighbors_for_range neighbors : forall unprocessed g,
  cells_size g = k ->
  Forall (fun n => n < k) neighbors -> Forall (fun n => n < k) unprocessed ->
  post (openNeighbors_for neighbors unprocessed g)
    (fun r g' => cells_size g' = k /\
                 forall unprocessed', r = Some unprocessed' ->
                                      Forall (fun n => n < k) unprocessed')
    (fun _ => True).
Proof.
  induction neighbors as [| x neighbors IH]; intros unprocessed g Hg Hns Hun; simpl.
  - split; [exact Hg |]. now intros w [= <-].
  - apply Forall_cons in Hns. destruct Hns as [Hx Hns].
    apply post_bind_cellAt. intros c Hc.
    destruct (negb (IsOpened c)); [| now apply IH].
    eapply post_bind_mono; [apply size_open, Hg | | auto].
    intros [|] g' Hg'; simpl.
    + apply post_bind_cellAt. intros c' Hc'.
      destruct (GetNumberOfNeighborBombs c' =? 0); apply IH; auto.
      apply Forall_forall. intros y Hy. apply elem_of_uset_insert in Hy.
      destruct Hy as [-> | Hy]; [exact Hx |]. rewrite Forall_forall in Hun. auto.
    + split; [exact Hg' | discriminate].
Qed.

End Size.

Lemma openNeighbors_while_no_throw begin_pos fuel : forall unprocessed g,
  tally g -> state g = MGS_Active ->
  Forall (fun n => n < cells_size g) unprocessed ->
  post (openNeighbors_while begin_pos fuel unprocessed g)
    (fun _ _ => True) (fun _ => False).
Proof.
  induction fuel as [| fuel IH]; intros unprocessed g Hg Hs Hun.
  - destruct unprocessed; exact I.
  - destruct (decide (unprocessed = [])) as [-> | Hne]; [exact I |].
    rewrite openNeighbors_while_step by exact Hne.
    set (current := uset_begin begin_pos unprocessed).
    assert (Hcur : current ∈ unprocessed) by now apply uset_begin_elem_of.
    rewrite Forall_forall in Hun.
    destruct (findNeighbors_wf g current (tally_wf g Hg) (Hun _ Hcur)) as (ns & Hfind & Hns).
    rewrite (bind_Ret _ _ _ _ _ Hfind).
    assert (Herase : Forall (fun n => n < cells_size g) (uset_erase current unprocessed)).
    { apply Forall_forall. intros y Hy. apply elem_of_uset_erase in Hy. apply Hun, Hy. }
    eapply post_bind_mono;
      [exact (post_conj _ _ _ _ _
                (openNeighbors_for_tally ns (uset_erase current unprocessed) g Hg Hs)
                (openNeighbors_for_range (cells_size g) ns (uset_erase current unprocessed) g
                   eq_refl Hns Herase)) | | intros ? [[] _]].
    intros [w |] g' [[Hg' Hs'] [Hsize Hw]]; simpl; [| exact I].
    apply IH; [exact Hg' | apply Hs'; discriminate |].
    rewrite Hsize. now apply Hw.
Qed.

Lemma OnOpen_no_throw begin_pos fuel index g :
  tally g -> count_mines g = N.to_nat (bombs g) ->
  state g = MGS_Active -> index < cells_size g ->
  post (OnOpen begin_pos fuel index g) (fun _ _ => True) (fun _ => False).
Proof.
  intros Hg Hmines Hs Hi.
  destruct (cellAt_lt g index Hi) as (c & Hc & _).
    rewrite (OnOpen_Active begin_pos fuel index g c Hs Hc).
    destruct (IsOpened c).
    - rewrite (bind_Ret _ _ _ _ _
                 (CalculateNumberOfNeighborCellsLabeledAsBombs_eq g index (tally_wf g Hg) Hi)).
      destruct (GetNumberOfNeighborBombs c =? flagged_around g index); [| exact I].
      apply openNeighbors_while_no_throw; [exact Hg | exact Hs |].
      repeat constructor. exact Hi.
    - eapply post_bind_mono;
        [exact (post_conj _ _ _ _ _ (open_tally g index Hg Hs)
                  (open_only_opened g g index (only_opened_refl g))) | | intros ? [[] _]].
      intros [|] g1 [[Hg1 Hs1] Hopened]; simpl; [| exact I].
      pose proof (count_mines_only_opened g g1 Hopened) as Hmines1.
      destruct Hopened as (_ & _ & Hb1 & Hlen1 & _).
      assert (Hsize1 : cells_size g1 = cells_size g) by (unfold cells_size; now rewrite Hlen1).
      unfold bind at 1. rewrite (hasSuccess_Active g1 Hs1).
      assert (Hle : numberOfOpenedCells g1 <= wsub (cells_size g1) (bombs g1)).
      { rewrite (tally_counter g1 Hg1), Hb1, Hsize1.
        pose proof (opened_safe_mines_le g1) as Hsum.
        pose proof (wf_size_bound g (tally_wf g Hg)) as Hbound.
        unfold cells_size in *. rewrite Hmines1, Hmines, Hlen1 in Hsum.
        rewrite wsub_small;
          [lia | lia | change size_t_modulus with 18446744073709551616; lia]. }
      apply N.leb_le in Hle. rewrite Hle.
      destruct (numberOfOpenedCells g1 =? wsub (cells_size g1) (bombs g1)).
      + apply post_bind_cellAt. intros cell' _. exact I.
      + apply post_bind_cellAt. intros cell' _. simpl.
        destruct (GetNumberOfNeighborBombs cell' =? 0); [| exact I].
        apply openNeighbors_while_no_throw; [exact Hg1 | exact Hs1 |].
        repeat constructor. now rewrite Hsize1.
Qed.

(** In an active game the code can reach, as long as the board holds as
    many mines as [bombs] says, [Open] on a cell of the grid does not throw:
    the counter of opened cells cannot pass [cells.size() - bombs], so the
    check of [hasSuccess] holds, and the flood stays within the grid. *)
Theorem Open_does_not_throw begin_pos fuel index g g' :
  reachable begin_pos g ->
  count_mines g = N.to_nat (bombs g) ->
  state g = MGS_Active -> index < cells_size g ->
  Open begin_pos fuel index g <> Throw g'.
Proof.
  intros Hreach Hmines Hs Hi Heq.
  pose proof (consistent_tally g (reachable_consistent begin_pos g Hreach)) as Hg.
  pose proof (OnOpen_no_throw begin_pos fuel index g Hg Hmines Hs Hi) as Hpost.
  unfold Open in Heq. rewrite Heq in Hpost. exact Hpost.
Qed.

(** At the striped game, whose ten mines are all there: no [Open] on a cell
    of its grid throws. *)
Lemma Open_does_not_throw_witness :
  count_mines striped_game = N.to_nat (bombs striped_game) /\
  (forall g', Open begin_first 200 40 striped_game <> Throw g').
Proof.
  split; [reflexivity |]. intros g'.
  apply (Open_does_not_throw begin_first 200 40 striped_game g').
  - apply reachable_striped_game.
  - reflexivity.
  - reflexivity.
  - reflexivity.
Defined.

(** ** The flood comes to an end when no closed cell is labelled *)

Lemma unlabelled_only_opened g g' : unlabelled g -> only_opened g g' -> unlabelled g'.
Proof.
  intros Hg (_ & _ & _ & Hlen & Hcells) j c' Hj Ho.
  assert (Hold : is_Some (cells g !! j)).
  { apply lookup_lt_is_Some. rewrite <- Hlen. eapply lookup_lt_Some, Hj. }
  destruct Hold as [c Hc]. destruct (Hcells j c Hc) as [Hsame | (Hopened & _)].
  - assert (c' = c) by congruence. subst c'. now apply (Hg j).
  - assert (c' = cell_opened c) by congruence. subst c'. discriminate.
Qed.

Lemma closed_cells_only_opened g g' :
  only_opened g g' -> (closed_cells g' <= closed_cells g)%nat.
Proof.
  intros (_ & _ & _ & Hlen & Hcells). unfold closed_cells.
  revert Hlen Hcells. generalize (cells g) (cells g'). clear.
  induction l as [| c l IH]; intros [| c' l'] Hlen Hcells; simpl in *; try discriminate; [lia |].
  assert (Hrest : (length (List.filter (fun c => negb (isOpened c)) l') <=
                   length (List.filter (fun c => negb (isOpened c)) l))%nat).
  { apply IH; [lia |]. intros j cj Hj. exact (Hcells (S j) cj Hj). }
  destruct (Hcells 0%nat c eq_refl) as [Hsame | (Hopened & Ho & _)]; simpl in *.
  - injection Hsame as ->. destruct (negb (isOpened c)); simpl; lia.
  - injection Hopened as ->. rewrite Ho. simpl. lia.
Qed.

(** The [for] loop of [openNeighbors] in an active game without labels: it
    returns, and what it adds to [unprocessed] it has taken from the closed
    cells. *)
Lemma openNeighbors_for_returns neighbors : forall unprocessed g,
  tally g -> state g = MGS_Active -> unlabelled g ->
  Forall (fun n => n < cells_size g) neighbors ->
  Forall (fun n => n < cells_size g) unprocessed ->
  exists r g',
    openNeighbors_for neighbors unprocessed g = Ret r g' /\
    match r with
    | None => True
    | Some unprocessed' =>
        tally g' /\ state g' = MGS_Active /\ unlabelled g' /\
        cells_size g' = cells_size g /\
        Forall (fun n => n < cells_size g) unprocessed' /\
        (2 * closed_cells g' + length unprocessed' <=
         2 * closed_cells g + length unprocessed)%nat
    end.
Proof.
  induction neighbors as [| x neighbors IH]; intros unprocessed g Hg Hs Hun Hns Hrange.
  - exists (Some unprocessed), g. split; [reflexivity |]. split_and!; auto.
  - apply Forall_cons in Hns. destruct Hns as [Hx Hns].
    destruct (cellAt_lt g x Hx) as (c & Hc & Hread).
    simpl. rewrite (bind_Ret _ _ _ _ _ Hread). unfold IsOpened.
    destruct (isOpened c) eqn:Ho; simpl; [now apply IH |].
    pose proof (Hun _ _ Hc Ho) as Hl.
    pose proof (open_tally g x Hg Hs) as Htally.
    pose proof (open_only_opened g g x (only_opened_refl g)) as Honly.
    destruct (isBomb c) eqn:Hb.
    + destruct (open_mine g x c Hs Hc Ho Hl Hb) as (g' & Hrun & _).
      rewrite (bind_Ret _ _ _ _ _ Hrun). simpl. exists None, g'. auto.
    + rewrite (open_safe g x c Hs Hc Ho Hl Hb) in Htally, Honly.
      rewrite (bind_Ret _ _ _ _ _ (open_safe g x c Hs Hc Ho Hl Hb)).
      fold (opened_at x c g) in *. set (g1 := opened_at x c g) in *.
      simpl in Htally, Honly. destruct Htally as [Hg1 Hs1]. simpl.
      assert (Hsize1 : cells_size g1 = cells_size g).
      { unfold cells_size, g1, opened_at. simpl. now rewrite length_insert. }
      assert (Hc1 : cells g1 !! N.to_nat x = Some (cell_opened c)).
      { unfold g1, opened_at. simpl. apply list_lookup_insert_eq. eapply lookup_lt_Some, Hc. }
      assert (Hclosed1 : S (closed_cells g1) = closed_cells g).
      { unfold closed_cells, g1, opened_at. simpl. now apply closed_cells_insert. }
      rewrite (bind_Ret _ _ _ _ _ (cellAt_Some _ _ _ Hc1)).
      set (unprocessed1 := if GetNumberOfNeighborBombs (cell_opened c) =? 0
                           then uset_insert x unprocessed else unprocessed).
      assert (Hrange1 : Forall (fun n => n < cells_size g1) unprocessed1).
      { rewrite Hsize1. unfold unprocessed1.
        destruct (GetNumberOfNeighborBombs (cell_opened c) =? 0); [| exact Hrange].
        apply Forall_forall. intros y Hy. apply elem_of_uset_insert in Hy.
        destruct Hy as [-> | Hy]; [exact Hx |]. rewrite Forall_forall in Hrange. auto. }
      assert (Hlen1 : (length unprocessed1 <= S (length unprocessed))%nat).
      { unfold unprocessed1. destruct (GetNumberOfNeighborBombs (cell_opened c) =? 0); [| lia].
        apply length_uset_insert. }
      destruct (IH unprocessed1 g1 Hg1 Hs1 (unlabelled_only_opened g g1 Hun Honly))
        as (r & g' & Hrun & Hr); [now rewrite Hsize1 | exact Hrange1 |].
      exists r, g'. split.
      * rewrite <- Hrun. unfold unprocessed1.
        now destruct (GetNumberOfNeighborBombs (cell_opened c) =? 0).
      * destruct r as [w |]; [| exact I].
        destruct Hr as (Hg' & Hs' & Hun' & Hsize' & Hrange' & Hmeasure).
        rewrite Hsize1 in Hsize', Hrange'. split_and!; auto. lia.
Qed.

Lemma openNeighbors_while_returns begin_pos fuel : forall unprocessed g,
  tally g -> state g = MGS_Active -> unlabelled g ->
  Forall (fun n => n < cells_size g) unprocessed ->
  (2 * closed_cells g + length unprocessed <= fuel)%nat ->
  exists g', openNeighbors_while begin_pos fuel unprocessed g = Ret tt g'.
Proof.
  induction fuel as [| fuel IH]; intros unprocessed g Hg Hs Hun Hrange Hfuel.
  - destruct unprocessed; [| simpl in Hfuel; lia]. exists g. reflexivity.
  - destruct (decide (unprocessed = [])) as [-> | Hne]; [exists g; reflexivity |].
    rewrite openNeighbors_while_step by exact Hne.
    set (current := uset_begin begin_pos unprocessed).
    assert (Hcur : current ∈ unprocessed) by now apply uset_begin_elem_of.
    assert (Hcurlt : current < cells_size g) by (rewrite Forall_forall in Hrange; auto).
    destruct (findNeighbors_wf g current (tally_wf g Hg) Hcurlt) as (ns & Hfind & Hns).
    rewrite (bind_Ret _ _ _ _ _ Hfind).
    destruct (openNeighbors_for_returns ns (uset_erase current unprocessed) g Hg Hs Hun Hns)
      as (r & g' & Hrun & Hr).
    { apply Forall_forall. intros y Hy. apply elem_of_uset_erase in Hy.
      rewrite Forall_forall in Hrange. apply Hrange, Hy. }
    rewrite (bind_Ret _ _ _ _ _ Hrun).
    destruct r as [w |]; [| exists g'; reflexivity].
    destruct Hr as (Hg' & Hs' & Hun' & Hsize' & Hrange' & Hmeasure).
    apply IH; try assumption.
    + now rewrite Hsize'.
    + pose proof (length_uset_erase current unprocessed Hcur). lia.
Qed.

Lemma OnOpen_comes_back begin_pos fuel index g :
  tally g -> unlabelled g ->
  (2 * closed_cells g + 1 <= fuel)%nat ->
  exists g', final_state (OnOpen begin_pos fuel index g) = Some g'.
Proof.
  intros Hg Hun Hfuel.
  destruct (state_eqb (state g) MGS_Active) eqn:Hs.
  2:{ rewrite OnOpen_game_over; [now exists g |]. intros Heq. rewrite Heq in Hs. discriminate. }
  assert (Hs' : state g = MGS_Active) by (destruct (state g); simpl in Hs; congruence).
  clear Hs. rename Hs' into Hs.
  destruct (N.lt_ge_cases index (cells_size g)) as [Hi | Hi].
  2:{ exists g. unfold OnOpen. rewrite (bind_Ret get _ g g g eq_refl).
      rewrite Hs. simpl. rewrite (bind_Ret (internal_check true) _ g tt g eq_refl).
      unfold bind, internal_check. destruct (N.ltb_spec index (cells_size g)); [lia |].
      reflexivity. }
  destruct (cellAt_lt g index Hi) as (c & Hc & _).
  rewrite (OnOpen_Active begin_pos fuel index g c Hs Hc). unfold IsOpened.
  assert (Hseed : forall g1, cells_size g1 = cells_size g ->
            Forall (fun n => n < cells_size g1) (uset_insert index [])).
  { intros g1 Hsize. repeat constructor. now rewrite Hsize. }
  destruct (isOpened c) eqn:Ho.
  - rewrite (bind_Ret _ _ _ _ _
               (CalculateNumberOfNeighborCellsLabeledAsBombs_eq g index (tally_wf g Hg) Hi)).
    destruct (GetNumberOfNeighborBombs c =? flagged_around g index); [| now exists g].
    destruct (openNeighbors_while_returns begin_pos fuel (uset_insert index []) g Hg Hs Hun)
      as (g' & Hrun); [now apply Hseed | simpl; lia |].
    exists g'. unfold openNeighbors. now rewrite Hrun.
  - pose proof (Hun _ _ Hc Ho) as Hl.
    destruct (isBomb c) eqn:Hb.
    + destruct (open_mine g index c Hs Hc Ho Hl Hb) as (g' & Hrun & _).
      rewrite (bind_Ret _ _ _ _ _ Hrun). now exists g'.
    + pose proof (open_tally g index Hg Hs) as Htally.
      pose proof (open_only_opened g g index (only_opened_refl g)) as Honly.
      rewrite (open_safe g index c Hs Hc Ho Hl Hb) in Htally, Honly.
      rewrite (bind_Ret _ _ _ _ _ (open_safe g index c Hs Hc Ho Hl Hb)).
      fold (opened_at index c g) in *. set (g1 := opened_at index c g) in *.
      simpl in Htally, Honly. destruct Htally as [Hg1 Hs1].
      assert (Hsize1 : cells_size g1 = cells_size g).
      { unfold cells_size, g1, opened_at. simpl. now rewrite length_insert. }
      unfold bind at 1. rewrite (hasSuccess_Active g1 Hs1).
      destruct (numberOfOpenedCells g1 <=? wsub (cells_size g1) (bombs g1)); [| now exists g1].
      assert (Hc1 : forall s, cells (with_state s g1) !! N.to_nat index = Some (cell_opened c)).
      { intros s. unfold g1, opened_at. simpl. apply list_lookup_insert_eq.
        eapply lookup_lt_Some, Hc. }
      destruct (numberOfOpenedCells g1 =? wsub (cells_size g1) (bombs g1)).
      * rewrite (bind_Ret _ _ _ _ _ (cellAt_Some _ _ _ (Hc1 MGS_Success))). simpl.
        now eexists.
      * specialize (Hc1 (state g1)).
        replace (with_state (state g1) g1) with g1 in Hc1 by now destruct g1.
        rewrite (bind_Ret _ _ _ _ _ (cellAt_Some _ _ _ Hc1)). simpl.
        destruct (numberOfNeighborBombs c =? 0); [| now exists g1].
        destruct (openNeighbors_while_returns begin_pos fuel (uset_insert index []) g1 Hg1 Hs1)
          as (g' & Hrun).
        -- now apply (unlabelled_only_opened g).
        -- now apply Hseed.
        -- pose proof (closed_cells_only_opened g g1 Honly). simpl. lia.
        -- exists g'. unfold openNeighbors. now rewrite Hrun.
Qed.

(** In a game the code can reach in which no closed cell carries a label,
    [Open] comes back, whatever the order of the unordered set: one turn of
    the [while] loop for the seed and two for every closed cell suffice. *)
Theorem Open_comes_back_without_labels begin_pos fuel index g :
  reachable begin_pos g -> unlabelled g ->
  (2 * closed_cells g + 1 <= fuel)%nat ->
  exists g', final_state (Open begin_pos fuel index g) = Some g'.
Proof.
  intros Hreach Hun Hfuel. unfold Open.
  apply OnOpen_comes_back; [| exact Hun | exact Hfuel].
  exact (consistent_tally g (reachable_consistent begin_pos g Hreach)).
Qed.

(** At the striped game, which has 81 closed cells and no label. *)
Lemma Open_comes_back_without_labels_witness :
  exists g', final_state (Open begin_first 163 40 striped_game) = Some g'.
Proof.
  apply (Open_comes_back_without_labels begin_first 163 40 striped_game).
  - apply reachable_striped_game.
  - intros j c Hc _. now apply (fresh_cells striped_game striped_game_fresh j c Hc).
  - vm_compute. lia.
Defined.

(** ** [SetLabel] *)

Lemma SetLabel_Active index newLabel g c :
  state g = MGS_Active ->
  cells g !! N.to_nat index = Some c -> isOpened c = false ->
  SetLabel index newLabel g =
  Ret tt (if label_eqb (label c) newLabel then g
          else with_modifiedCellIndices (uset_insert index (modifiedCellIndices g))
                 (with_cells (<[N.to_nat index := cell_with_label newLabel c]> (cells g)) g)).
Proof.
  intros Hs Hc Ho. unfold SetLabel.
  rewrite (bind_Ret _ _ _ _ _ (cellAt_Some _ _ _ Hc)).
  unfold IsOpened. rewrite Ho. simpl.
  rewrite (bind_Ret (internal_check true) _ g tt g eq_refl).
  destruct (label_eqb (label c) newLabel); [reflexivity |]. simpl.
  rewrite (bind_Ret _ _ _ _ _ (setCell_lt _ _ _ (lookup_Some_lt_size _ _ _ Hc))).
  unfold onModified. rewrite OnModified_Active; [reflexivity | exact Hs |].
  unfold cells_size. simpl. rewrite length_insert.
  apply (lookup_Some_lt_size _ _ _ Hc).
Qed.

Lemma label_eqb_eq a b : label_eqb a b = true <-> a = b.
Proof. destruct a, b; simpl; split; congruence. Qed.

(** [SetLabel] on a cell of the grid.  On an opened cell it throws and
    leaves the game as it is, whatever the state of the game.  On a closed
    cell of an active game it returns: the cell carries the new label, no
    other cell and neither the state nor the counter of opened cells
    changes, and the index is recorded as modified exactly when the label
    is a new one (the same label again records nothing).  Setting the old
    label again afterwards gives back the board as it was. *)
Theorem SetLabel_labels_one_cell index newLabel g c :
  cells g !! N.to_nat index = Some c ->
  (isOpened c = true -> SetLabel index newLabel g = Throw g) /\
  (isOpened c = false -> state g = MGS_Active ->
   exists g1 g2,
     SetLabel index newLabel g = Ret tt g1 /\
     cells g1 = <[N.to_nat index := cell_with_label newLabel c]> (cells g) /\
     state g1 = MGS_Active /\ numberOfOpenedCells g1 = numberOfOpenedCells g /\
     rows g1 = rows g /\ columns g1 = columns g /\ bombs g1 = bombs g /\
     modifiedCellIndices g1 =
       (if label_eqb (label c) newLabel then modifiedCellIndices g
        else uset_insert index (modifiedCellIndices g)) /\
     SetLabel index (label c) g1 = Ret tt g2 /\
     cells g2 = cells g /\ modifiedCellIndices g2 = modifiedCellIndices g1).
Proof.
  intros Hc. split.
  - intros Ho. unfold SetLabel.
    rewrite (bind_Ret _ _ _ _ _ (cellAt_Some _ _ _ Hc)).
    unfold IsOpened. rewrite Ho. reflexivity.
  - intros Ho Hs. rewrite (SetLabel_Active index newLabel g c Hs Hc Ho).
    assert (Hlt : (N.to_nat index < length (cells g))%nat) by (eapply lookup_lt_Some, Hc).
    destruct (label_eqb (label c) newLabel) eqn:Hl.
    + apply label_eqb_eq in Hl. subst newLabel.
      assert (Hsame : cell_with_label (label c) c = c) by now destruct c.
      exists g, g. rewrite (SetLabel_Active index (label c) g c Hs Hc Ho).
      assert (Hrefl : label_eqb (label c) (label c) = true) by now apply label_eqb_eq.
      rewrite Hrefl, Hsame, list_insert_id by exact Hc.
      split_and!; first [reflexivity | exact Hs].
    + set (g1 := with_modifiedCellIndices _ _).
      assert (Hc1 : cells g1 !! N.to_nat index = Some (cell_with_label newLabel c)).
      { unfold g1. simpl. now apply list_lookup_insert_eq. }
      eexists g1, _. split; [reflexivity |].
      rewrite (SetLabel_Active index (label c) g1 _ Hs Hc1 Ho). simpl.
      assert (Hne : label_eqb newLabel (label c) = false).
      { destruct (label_eqb newLabel (label c)) eqn:Hl'; [| reflexivity].
        apply label_eqb_eq in Hl'. subst newLabel.
        assert (label_eqb (label c) (label c) = true) by now apply label_eqb_eq. congruence. }
      rewrite Hne. simpl. split_and!; try reflexivity; try exact Hs.
      * rewrite list_insert_insert_eq.
        replace (cell_with_label (label c) (cell_with_label newLabel c)) with c
          by now destruct c.
        now apply list_insert_id.
      * unfold uset_insert at 1.
        assert (Hmem : uset_mem index (uset_insert index (modifiedCellIndices g)) = true).
        { apply uset_mem_spec, elem_of_uset_insert. now left. }
        now rewrite Hmem.
Qed.

(** At the striped game: a flag on the closed cell (0, 1), then taken off. *)
Lemma SetLabel_labels_one_cell_witness :
  (isOpened (mkCell false false MCL_None 2) = true ->
   SetLabel 1 MCL_Bomb striped_game = Throw striped_game) /\
  (isOpened (mkCell false false MCL_None 2) = false -> state striped_game = MGS_Active ->
   exists g1 g2,
     SetLabel 1 MCL_Bomb striped_game = Ret tt g1 /\
     cells g1 = <[N.to_nat 1 := cell_with_label MCL_Bomb (mkCell false false MCL_None 2)]>
                  (cells striped_game) /\
     state g1 = MGS_Active /\ numberOfOpenedCells g1 = numberOfOpenedCells striped_game /\
     rows g1 = rows striped_game /\ columns g1 = columns striped_game /\
     bombs g1 = bombs striped_game /\
     modifiedCellIndices g1 =
       (if label_eqb (label (mkCell false false MCL_None 2)) MCL_Bomb
        then modifiedCellIndices striped_game
        else uset_insert 1 (modifiedCellIndices striped_game)) /\
     SetLabel 1 (label (mkCell false false MCL_None 2)) g1 = Ret tt g2 /\
     cells g2 = cells striped_game /\ modifiedCellIndices g2 = modifiedCellIndices g1).
Proof.
  apply (SetLabel_labels_one_cell 1 MCL_Bomb striped_game (mkCell false false MCL_None 2)).
  reflexivity.
Defined.

(** ** [Draw] *)

Lemma string_append_assoc (a b c : string) :
  ((a ++ b) ++ c)%string = (a ++ (b ++ c))%string.
Proof. induction a as [| x a IH]; simpl; [reflexivity | now rewrite IH]. Qed.

Lemma string_append_nil_r (a : string) : (a ++ "")%string = a.
Proof. induction a as [| x a IH]; simpl; [reflexivity | now rewrite IH]. Qed.

Lemma elem_of_counting n i : i ∈ counting n <-> i < n.
Proof.
  unfold counting. rewrite list_elem_of_fmap. split.
  - intros (j & -> & Hj). apply list_elem_of_In, in_seq in Hj. lia.
  - intros Hi. exists (N.to_nat i). split; [now rewrite N2Nat.id |].
    apply list_elem_of_In, in_seq. lia.
Qed.

(** On a cell of the grid, [Draw] asks [IsBomb] of an opened cell only, and
    [NumberOfNeighborBombs] of an opened cell that is no mine only: neither
    check fails. *)
Lemma Draw_cell_eq g i j cout :
  wf g -> i < rows g -> j < columns g ->
  exists c,
    cells g !! N.to_nat (i * columns g + j) = Some c /\
    Draw_cell g i j cout = Printed (cout ++ cell_text c)%string.
Proof.
  intros Hwf Hi Hj. pose proof Hwf as [Hr Hc Hs _ _].
  assert (Hlt : i * columns g + j < cells_size g) by (rewrite Hs; nia).
  destruct (cellAt_lt g _ Hlt) as (c & Hcell & _).
  exists c. split; [exact Hcell |].
  unfold Draw_cell, Cell. rewrite (bind_Ret get _ g g g eq_refl).
  unfold bind, internal_check, cellPtr.
  apply N.ltb_lt in Hi, Hj. rewrite Hi, Hj. apply N.ltb_lt in Hi, Hj.
  rewrite wmul_small by (change size_t_modulus with 18446744073709551616; nia).
  rewrite wadd_small by (change size_t_modulus with 18446744073709551616; nia).
  apply N.ltb_lt in Hlt. rewrite Hlt. rewrite Hcell.
  unfold cell_text, IsOpened, IsBomb, NumberOfNeighborBombs, IsBomb, IsOpened.
  destruct (isOpened c); [| reflexivity].
  destruct (isBomb c); [reflexivity |]. simpl.
  now destruct (numberOfNeighborBombs c =? 0).
Qed.

Lemma Draw_columns_eq g i js : forall cout,
  wf g -> i < rows g -> Forall (fun j => j < columns g) js ->
  Draw_columns g i js cout =
  Printed (cout ++ texts (map (fun j => match cells g !! N.to_nat (i * columns g + j) with
                                        | Some c => cell_text c
                                        | None => EmptyString
                                        end) js))%string.
Proof.
  induction js as [| j js IH]; intros cout Hwf Hi Hjs; simpl.
  - now rewrite string_append_nil_r.
  - apply Forall_cons in Hjs. destruct Hjs as [Hj Hjs].
    destruct (Draw_cell_eq g i j cout Hwf Hi Hj) as (c & Hc & Hdraw).
    rewrite Hdraw, Hc, IH by assumption. now rewrite string_append_assoc.
Qed.

Lemma Draw_rows_eq g rs : forall cout,
  wf g -> Forall (fun i => i < rows g) rs ->
  Draw_rows g rs cout =
  Printed (cout ++ texts (map (fun i => row_text g i ++ endl) rs))%string.
Proof.
  induction rs as [| i rs IH]; intros cout Hwf Hrs; simpl.
  - now rewrite string_append_nil_r.
  - apply Forall_cons in Hrs. destruct Hrs as [Hi Hrs].
    rewrite Draw_columns_eq; [| exact Hwf | exact Hi |].
    + rewrite IH by assumption. fold (row_text g i).
      now rewrite !string_append_assoc.
    + apply Forall_forall. intros j. apply elem_of_counting.
Qed.

(** [Draw] on a game of valid dimensions returns: no query throws, no
    access leaves the vector, and the text written is the text of the board,
    row by row: [-] for a closed cell, [*] for an opened mine, [O] for an
    opened cell with a stored count of zero and the decimal digits of the
    stored count otherwise, each row and the whole board followed by a line
    end. *)
Theorem Draw_prints_board g cout :
  wf g -> Draw g cout = Printed (cout ++ board_text g)%string.
Proof.
  intros Hwf. unfold Draw, board_text, Rows.
  rewrite Draw_rows_eq; [| exact Hwf |].
  - now rewrite string_append_assoc.
  - apply Forall_forall. intros i. apply elem_of_counting.
Qed.

(** At the striped game after its corner mine was opened: the ten mines
    are printed, every other cell is closed. *)
Lemma Draw_prints_board_witness :
  Draw striped_game_lost EmptyString = Printed (board_text striped_game_lost).
Proof.
  apply (Draw_prints_board striped_game_lost EmptyString).
  apply (reachable_wf begin_first), reachable_striped_game_lost.
Defined.

(** ** A game with its mines apart, played without labels *)

Lemma count_mines_same_layout g g' : same_layout g g' -> count_mines g' = count_mines g.
Proof.
  intros (_ & _ & _ & Hlen & Hcells). unfold count_mines.
  apply filter_length_ext; [exact Hlen |].
  intros j c c' Hc Hc'. destruct (Hcells j c Hc) as (c'' & Hc'' & Hb & _).
  congruence.
Qed.

Lemma sets_no_label_keeps_board cs :
  forallb sets_no_label cs = true -> forallb keeps_board cs = true.
Proof.
  induction cs as [| c cs IH]; simpl; [reflexivity |].
  intros H. apply andb_true_iff in H. destruct H as [Hc Hcs].
  rewrite (IH Hcs). now destruct c.
Qed.

Lemma perform_unlabelled begin_pos c g :
  wf g -> sets_no_label c = true -> unlabelled g ->
  post (perform begin_pos c g) (fun _ g' => unlabelled g') unlabelled.
Proof.
  intros Hwf Hc Hun. destruct c; simpl in *; try discriminate.
  - destruct (RestartGame_closes g Hwf)
      as (g' & Hrun & _ & _ & _ & _ & _ & _ & Hlen' & Hcells' & _).
    rewrite Hrun. simpl. intros j c' Hj _.
    assert (Hold : is_Some (cells g !! j)).
    { apply lookup_lt_is_Some. rewrite <- Hlen'. eapply lookup_lt_Some, Hj. }
    destruct Hold as [c Hc']. rewrite (Hcells' j c Hc') in Hj.
    injection Hj as <-. reflexivity.
  - eapply post_bind_mono;
      [apply (preserves_Cell (fun g' => g' = g)); reflexivity | | intros g' ->; exact Hun].
    intros cell g1 ->. unfold Open.
    eapply post_mono; [apply OnOpen_only_opened | |];
      intros; now apply (unlabelled_only_opened g).
  - assert (Hcol : columns g <> 0) by (destruct Hwf as [_ Hcol _ _ _]; lia).
    rewrite (bind_Ret _ _ _ _ _ (ModifiedCells_eq g Hcol)). simpl. exact Hun.
Qed.

Lemma play_unlabelled begin_pos cs : forall g g',
  wf g -> forallb sets_no_label cs = true -> unlabelled g ->
  play begin_pos cs g = Some g' -> unlabelled g'.
Proof.
  induction cs as [| c cs IH]; intros g g' Hwf Hcs Hun Hplay; simpl in *.
  - now injection Hplay as <-.
  - apply andb_true_iff in Hcs. destruct Hcs as [Hc Hcs].
    destruct (final_state (perform begin_pos c g)) as [g1 |] eqn:Hfin; [| discriminate].
    assert (Hwf1 : wf g1).
    { eapply preserves_final_state; [apply wf_perform | exact Hwf | exact Hfin]. }
    apply (IH g1 g' Hwf1 Hcs); [| exact Hplay].
    pose proof (perform_unlabelled begin_pos c g Hwf Hc Hun) as Hpost.
    destruct (perform begin_pos c g); simpl in *; try discriminate;
      injection Hfin as <-; exact Hpost.
Qed.

Lemma CreateGame_spread r c b draws g0 :
  CreateGame r c b draws = Some g0 ->
  Forall (fun i => i < r * c) draws -> spread c draws = true ->
  count_mines g0 = N.to_nat b /\ rows g0 = r /\ columns g0 = c /\ bombs g0 = b.
Proof.
  intros Hcreate Hrange Hspread.
  unfold CreateGame in Hcreate. rewrite NewGame_with_eq in Hcreate.
  destruct (valid_parameters r c b) eqn:Hp; [| discriminate].
  apply valid_parameters_spec in Hp.
  set (g1 := with_parameters r c b newGame) in *.
  assert (Hr1 : 9 <= rows g1 <= 24) by (simpl; lia).
  assert (Hc1 : 9 <= columns g1 <= 30) by (simpl; lia).
  assert (Hb1 : bombs g1 < size_t_modulus).
  { simpl. change size_t_modulus with 18446744073709551616. nia. }
  pose proof (NewGame_post draws g1 Hr1 Hc1) as Hpost.
  destruct (NewGame draws g1) as [[] g' | | |] eqn:Hrun; try discriminate.
  injection Hcreate as ->.
  destruct (NewGame_mines_are draws g1 g0 Hr1 Hc1 Hb1 Hrange Hspread Hrun)
    as (planted & _ & [_ Hcount _ _] & Hplanted & _).
  simpl in Hpost. destruct Hpost as (_ & Hr' & Hc' & Hb').
  split_and!; [now rewrite Hcount | exact Hr' | exact Hc' | exact Hb'].
Qed.

(** With all its mines on the board and no label on a closed cell, an
    active game answers [Cell( row, column )->Open()] on a cell of its grid
    by a return. *)
Lemma perform_Open_returns begin_pos fuel row column g :
  tally g -> count_mines g = N.to_nat (bombs g) -> unlabelled g ->
  state g = MGS_Active -> row < rows g -> column < columns g ->
  (2 * closed_cells g + 1 <= fuel)%nat ->
  exists g',
    perform begin_pos (CallOpen fuel row column) g = Ret tt g' /\
    OnOpen begin_pos fuel (row * columns g + column) g = Ret tt g' /\
    only_opened g g'.
Proof.
  intros Hg Hcount Hun Hs Hrow Hcol Hfuel.
  pose proof (tally_wf g Hg) as Hwf.
  set (index := row * columns g + column).
  assert (Hcell : Cell row column g = Ret index g).
  { rewrite (Cell_eq g row column Hwf).
    assert (Hrow' : (row <? rows g) = true) by (apply N.ltb_lt; lia).
    assert (Hcol' : (column <? columns g) = true) by (apply N.ltb_lt; lia).
    now rewrite Hrow', Hcol'. }
  simpl. rewrite (bind_Ret _ _ _ _ _ Hcell).
  assert (Hindex : index < cells_size g).
  { destruct Hwf as [_ _ Hsize _ _]. unfold index. rewrite Hsize. nia. }
  destruct (OnOpen_comes_back begin_pos fuel index g Hg Hun Hfuel) as (g' & Hfin).
  pose proof (OnOpen_no_throw begin_pos fuel index g Hg Hcount Hs Hindex) as Hno.
  pose proof (OnOpen_only_opened begin_pos fuel index g) as Honly.
  unfold Open.
  destruct (OnOpen begin_pos fuel index g) as [[] g2 | g2 | |]; simpl in *; try discriminate.
  - exists g2. split_and!; [reflexivity | reflexivity | exact Honly].
  - contradiction.
Qed.

(** When [CreateGame( rows, columns, bombs )] drew no two adjacent
    positions, and the player has only opened cells, restarted the game and
    read the modified cells since (no label was set, no new game started),
    [Cell( row, column )->Open()] on any cell of the grid of the game, while
    it is active, returns: the call ends, whatever the order of the
    unordered set, within two units of fuel for each cell and one more, and
    no check of the code fails. *)
Theorem Open_returns_between_spread_mines begin_pos r c b draws g0 cs g fuel row column :
  CreateGame r c b draws = Some g0 ->
  Forall (fun i => i < r * c) draws -> spread c draws = true ->
  forallb sets_no_label cs = true ->
  play begin_pos cs g0 = Some g ->
  state g = MGS_Active -> row < r -> column < c ->
  (2 * N.to_nat (r * c) + 1 <= fuel)%nat ->
  exists g',
    perform begin_pos (CallOpen fuel row column) g = Ret tt g' /\
    only_opened g g'.
Proof.
  intros Hcreate Hrange Hspread Hcs Hplay Hs Hrow Hcol Hfuel.
  pose proof (CreateGame_fresh r c b draws g0 Hcreate) as Hfresh.
  assert (Hreach0 : reachable begin_pos g0) by (eapply reachable_CreateGame, Hcreate).
  pose proof (reachable_play begin_pos cs g0 g Hreach0 Hplay) as Hreach.
  pose proof (consistent_tally g (reachable_consistent begin_pos g Hreach)) as Hg.
  destruct (CreateGame_spread r c b draws g0 Hcreate Hrange Hspread)
    as (Hcount0 & Hr0 & Hc0 & Hb0).
  destruct (play_same_layout begin_pos cs g0 g (fresh_wf g0 Hfresh)
              (sets_no_label_keeps_board cs Hcs) Hplay) as [Hwf Hlayout].
  pose proof (count_mines_same_layout g0 g Hlayout) as Hcount.
  destruct Hlayout as (Hr' & Hc' & Hb' & _).
  assert (Hun : unlabelled g).
  { apply (play_unlabelled begin_pos cs g0 g (fresh_wf g0 Hfresh) Hcs); [| exact Hplay].
    intros j cj Hj _. now apply (fresh_cells g0 Hfresh j cj Hj). }
  assert (Hclosed : (closed_cells g <= N.to_nat (r * c))%nat).
  { destruct Hwf as [_ _ Hsize _ _]. unfold cells_size in Hsize.
    rewrite Hr', Hc', Hr0, Hc0 in Hsize. rewrite <- Hsize, Nat2N.id.
    unfold closed_cells. apply filter_length_le. }
  destruct (perform_Open_returns begin_pos fuel row column g Hg) as (g' & Hrun & _ & Honly);
    try assumption; try lia.
  now exists g'.
Qed.

(** At the island game, after [Open] on its empty cell and a restart: [Open]
    on the cell (4, 3). *)
Lemma Open_returns_between_spread_mines_witness :
  exists g',
    perform begin_first (CallOpen 163 4 3) (or_newGame
      (play begin_first [CallOpen 81 8 6; CallRestartGame] island_game)) = Ret tt g' /\
    only_opened (or_newGame
      (play begin_first [CallOpen 81 8 6; CallRestartGame] island_game)) g'.
Proof.
  apply (Open_returns_between_spread_mines begin_first 9 9 10 island_draws island_game
           [CallOpen 81 8 6; CallRestartGame]).
  - vm_compute. reflexivity.
  - repeat constructor.
  - vm_compute. reflexivity.
  - reflexivity.
  - vm_compute. reflexivity.
  - reflexivity.
  - reflexivity.
  - reflexivity.
  - vm_compute. lia.
Defined.

(** ** [main] *)

Lemma games_shown_over begin_pos fuel picks g :
  state g <> MGS_Active -> games_shown begin_pos fuel picks g = [].
Proof. intros Hs. destruct picks; simpl; [reflexivity |]. now destruct (state g). Qed.

(** One turn of the loop of [main], in a game with all its mines on the
    board and no label on a closed cell. *)
Lemma main_turn begin_pos fuel index g :
  reachable begin_pos g -> count_mines g = N.to_nat (bombs g) -> unlabelled g ->
  state g = MGS_Active -> index < cells_size g ->
  (2 * N.to_nat (cells_size g) + 1 <= fuel)%nat ->
  exists g',
    perform begin_pos (CallOpen fuel (index / columns g) (index mod columns g)) g
      = Ret tt g' /\
    reachable begin_pos g' /\ count_mines g' = N.to_nat (bombs g') /\ unlabelled g' /\
    cells_size g' = cells_size g /\
    (forall i, is_mine g' i = is_mine g i) /\
    (is_mine g index = true -> state g' = MGS_Failure).
Proof.
  intros Hreach Hcount Hun Hs Hindex Hfuel.
  pose proof (reachable_consistent begin_pos g Hreach) as [Hg _ _ _].
  pose proof (tally_wf g Hg) as Hwf. pose proof Hwf as [Hr Hc Hsize _ _].
  assert (Hrow : index / columns g < rows g).
  { apply N.Div0.div_lt_upper_bound. rewrite Hsize in Hindex. lia. }
  assert (Hcol : index mod columns g < columns g) by (apply N.mod_lt; lia).
  assert (Hclosed : (closed_cells g <= N.to_nat (cells_size g))%nat).
  { unfold cells_size. rewrite Nat2N.id. unfold closed_cells. apply filter_length_le. }
  destruct (perform_Open_returns begin_pos fuel (index / columns g) (index mod columns g) g Hg)
    as (g' & Hrun & HOn & Honly); try assumption; [lia |].
  assert (Hindex' : index / columns g * columns g + index mod columns g = index).
  { pose proof (N.Div0.div_mod index (columns g)). lia. }
  rewrite Hindex' in HOn.
  exists g'. split; [exact Hrun |].
  pose proof (count_mines_only_opened g g' Honly) as Hcount'.
  pose proof (unlabelled_only_opened g g' Hun Honly) as Hun'.
  assert (Hmines : forall i, is_mine g' i = is_mine g i).
  { intros i. unfold is_mine. destruct Honly as (_ & _ & _ & Hlen & Hcells).
    destruct (cells g !! N.to_nat i) as [c |] eqn:Hci.
    - destruct (Hcells _ c Hci) as [-> | [-> _]]; reflexivity.
    - apply lookup_ge_None in Hci. rewrite <- Hlen in Hci.
      apply lookup_ge_None in Hci. now rewrite Hci. }
  destruct Honly as (_ & _ & Hb' & Hlen & _).
  split_and!.
  - eapply reachable_perform; [exact Hreach |]. rewrite Hrun. reflexivity.
  - now rewrite Hcount', Hb'.
  - exact Hun'.
  - unfold cells_size. now rewrite Hlen.
  - exact Hmines.
  - intros Hmine. unfold is_mine in Hmine.
    destruct (cells g !! N.to_nat index) as [c |] eqn:Hci; [| discriminate].
    assert (Ho : isOpened c = false).
    { apply (tally_mines g Hg) with (j := N.to_nat index); [congruence | exact Hci | exact Hmine]. }
    pose proof (Hun _ _ Hci Ho) as Hl.
    destruct (open_mine g index c Hs Hci Ho Hl Hmine) as (g1 & Hopen & Hs1 & _).
    rewrite (OnOpen_Active begin_pos fuel index g c Hs Hci) in HOn.
    unfold IsOpened in HOn. rewrite Ho in HOn.
    rewrite (bind_Ret _ _ _ _ _ Hopen) in HOn. simpl in HOn.
    injection HOn as <-. exact Hs1.
Qed.

Lemma main_while_eq begin_pos fuel picks : forall g cout,
  reachable begin_pos g -> count_mines g = N.to_nat (bombs g) -> unlabelled g ->
  Forall (fun i => i < cells_size g) picks ->
  (2 * N.to_nat (cells_size g) + 1 <= fuel)%nat ->
  main_while begin_pos fuel picks g cout =
    (if state_eqb (state (List.last (games_shown begin_pos fuel picks g) g)) MGS_Active
     then MainUnfinished
     else MainReturns 0
            (cout ++ texts (map board_text (games_shown begin_pos fuel picks g)))%string) /\
  (Exists (fun i => is_mine g i = true) picks ->
   state (List.last (games_shown begin_pos fuel picks g) g) <> MGS_Active).
Proof.
  induction picks as [| index picks IH]; intros g cout Hreach Hcount Hun Hpicks Hfuel.
  - simpl. unfold GameState. split.
    + destruct (state_eqb (state g) MGS_Active); [reflexivity |].
      now rewrite string_append_nil_r.
    + intros H. apply Exists_nil in H. contradiction.
  - destruct (state_eqb (state g) MGS_Active) eqn:Hactive.
    2:{ assert (Hs : state g <> MGS_Active) by (intros Heq; rewrite Heq in Hactive; discriminate).
        rewrite (games_shown_over begin_pos fuel (index :: picks) g Hs).
        cbn [main_while List.last map texts fold_right]. unfold GameState.
        rewrite Hactive. rewrite string_append_nil_r. split; [reflexivity | intros _; exact Hs]. }
    assert (Hs : state g = MGS_Active) by (destruct (state g); simpl in Hactive; congruence).
    apply Forall_cons in Hpicks. destruct Hpicks as [Hindex Hpicks].
    destruct (main_turn begin_pos fuel index g Hreach Hcount Hun Hs Hindex Hfuel)
      as (g' & Hrun & Hreach' & Hcount' & Hun' & Hsize' & Hmines & Hhit).
    pose proof (reachable_wf begin_pos g Hreach) as [Hr Hc _ _ _].
    pose proof (reachable_wf begin_pos g' Hreach') as Hwf'.
    assert (Hdraw : Draw g' cout = Printed (cout ++ board_text g')%string).
    { unfold Draw, board_text, Rows.
      rewrite Draw_rows_eq; [| exact Hwf' |].
      - now rewrite string_append_assoc.
      - apply Forall_forall. intros i. apply elem_of_counting. }
    rewrite <- Hsize' in Hpicks, Hfuel.
    destruct (IH g' (cout ++ board_text g')%string Hreach' Hcount' Hun' Hpicks Hfuel)
      as [Hrest Hends].
    assert (Hshown : games_shown begin_pos fuel (index :: picks) g
                     = g' :: games_shown begin_pos fuel picks g').
    { cbn [games_shown]. rewrite Hactive, Hrun. reflexivity. }
    assert (Hlast : forall l (a b : CMinesweeperGame), List.last (a :: l) b = List.last l a).
    { clear. induction l as [| x l IHl]; intros a b; [reflexivity |].
      change (List.last (a :: x :: l) b) with (List.last (x :: l) b).
      now rewrite (IHl x b), (IHl x a). }
    rewrite Hshown, Hlast. split.
    + cbn [main_while]. unfold GameState, Columns. rewrite Hactive.
      assert (Hcol : (columns g =? 0) = false) by (apply N.eqb_neq; lia).
      rewrite Hcol. simpl in Hrun. rewrite Hrun, Hdraw, Hrest.
      destruct (state_eqb (state (List.last (games_shown begin_pos fuel picks g') g'))
                  MGS_Active); [reflexivity |].
      cbn [map texts fold_right]. now rewrite string_append_assoc.
    + intros H. apply Exists_cons in H. destruct H as [Hmine | Hlater].
      * assert (Hs' : state g' <> MGS_Active) by (rewrite (Hhit Hmine); discriminate).
        rewrite (games_shown_over begin_pos fuel picks g' Hs'). exact Hs'.
      * apply Hends. eapply Exists_impl; [exact Hlater |]. intros i. now rewrite Hmines.
Qed.

(** [main], when the ten mines of [CreateGame()] were drawn apart from each
    other (no two of the draws adjacent): no exception reaches the handler,
    so [main] does not return 1, and no access leaves the vector.  [main]
    returns 0 exactly when the game it shows last is no longer active, and
    then the text written is the text of the board of the new game followed
    by the text of the board after each [Open]; it is still running when
    the indices of the generator are used up in an active game.  It comes
    to an end as soon as the generator returns the position of a mine, if
    not before. *)
Theorem main_between_spread_mines begin_pos fuel draws picks g0 :
  CreateGame 9 9 10 draws = Some g0 ->
  Forall (fun i => i < 81) draws -> spread 9 draws = true ->
  Forall (fun i => i <= 80) picks -> (163 <= fuel)%nat ->
  main begin_pos fuel draws picks =
    (if state_eqb (state (List.last (games_shown begin_pos fuel picks g0) g0)) MGS_Active
     then MainUnfinished
     else MainReturns 0
            (texts (map board_text (g0 :: games_shown begin_pos fuel picks g0)))) /\
  (Exists (fun i => is_mine g0 i = true) picks ->
   state (List.last (games_shown begin_pos fuel picks g0) g0) <> MGS_Active).
Proof.
  intros Hcreate Hdraws Hspread Hpicks Hfuel.
  pose proof (CreateGame_fresh 9 9 10 draws g0 Hcreate) as Hfresh.
  assert (Hreach : reachable begin_pos g0) by (eapply reachable_CreateGame, Hcreate).
  destruct (CreateGame_spread 9 9 10 draws g0 Hcreate Hdraws Hspread)
    as (Hcount & Hr & Hc & Hb).
  pose proof (fresh_wf g0 Hfresh) as Hwf. pose proof Hwf as [_ _ Hsize _ _].
  rewrite Hr, Hc in Hsize.
  assert (Hun : unlabelled g0).
  { intros j cj Hj _. now apply (fresh_cells g0 Hfresh j cj Hj). }
  assert (Hdraw : Draw g0 EmptyString = Printed (board_text g0)).
  { unfold Draw, board_text, Rows.
    rewrite Draw_rows_eq; [reflexivity | exact Hwf |].
    apply Forall_forall. intros i. apply elem_of_counting. }
  destruct (main_while_eq begin_pos fuel picks g0 (board_text g0) Hreach) as [Hrun Hends].
  - now rewrite Hcount, Hb.
  - exact Hun.
  - rewrite Hsize. eapply Forall_impl; [exact Hpicks |]. simpl. intros i Hi. lia.
  - rewrite Hsize. simpl. lia.
  - split; [| exact Hends].
    unfold main. unfold CreateGame in Hcreate.
    destruct (NewGame_with 9 9 10 draws newGame) as [[] g | | |]; try discriminate.
    injection Hcreate as ->. rewrite Hdraw, Hrun. reflexivity.
Qed.

(** With the draws of the island game: the generator of [main] returns 78,
    the empty cell, then 10, a mine. *)
Lemma main_between_spread_mines_witness :
  main begin_first 163 island_draws [78; 10] =
    (if state_eqb (state (List.last (games_shown begin_first 163 [78; 10] island_game)
                            island_game)) MGS_Active
     then MainUnfinished
     else MainReturns 0
            (texts (map board_text
               (island_game :: games_shown begin_first 163 [78; 10] island_game)))) /\
  (Exists (fun i => is_mine island_game i = true) [78; 10] ->
   state (List.last (games_shown begin_first 163 [78; 10] island_game) island_game)
     <> MGS_Active).
Proof.
  apply (main_between_spread_mines begin_first 163 island_draws [78; 10] island_game).
  - vm_compute. reflexivity.
  - repeat constructor.
  - vm_compute. reflexivity.
  - repeat constructor; now vm_compute.
  - lia.
Defined.

(** Without that premise [main] can return 1: when the mines are drawn next
    to each other (0, 1, ..., 9) two mines are left, the flood from the
    middle of the board opens more cells than [cells.size() - bombs], and
    the next [Open] on a closed cell fails the check of [hasSuccess]. *)
Example main_returns_1_after_adjacent_draws :
  exists cout, main begin_first 200 adjacent_draws [40; 0] = MainReturns 1 cout.
Proof. eexists. vm_compute. reflexivity. Qed.

(** ** [ModifiedCells] returns every change that was recorded *)

Lemma changes_recorded_RestartGame g g' :
  wf g -> RestartGame g = Ret tt g' -> changes_recorded g g'.
Proof.
  intros Hwf Hrun.
  destruct (RestartGame_closes g Hwf)
    as (g1 & Hrun1 & _ & _ & _ & _ & _ & _ & Hlen & _ & Hmod).
  rewrite Hrun1 in Hrun. injection Hrun as <-.
  destruct Hwf as [_ _ _ Hrange _]. rewrite Forall_forall in Hrange.
  split_and!; [exact Hlen | |].
  - intros i Hi. apply Hmod, Hrange, Hi.
  - intros j c c' Hc _ _. apply Hmod. unfold cells_size.
    apply lookup_lt_Some in Hc. lia.
Qed.

Lemma perform_records_changes begin_pos c g g' :
  wf g -> records_changes c g = true ->
  final_state (perform begin_pos c g) = Some g' -> changes_recorded g g'.
Proof.
  intros Hwf Hc Hfin. destruct c; cbn [records_changes perform] in *; try discriminate.
  - destruct (RestartGame_closes g Hwf) as (g1 & Hrun & _).
    rewrite Hrun in Hfin. injection Hfin as <-.
    now apply changes_recorded_RestartGame.
  - unfold bind at 1 in Hfin. rewrite (Cell_eq g row column Hwf) in Hfin.
    destruct ((row <? rows g) && (column <? columns g)).
    2:{ simpl in Hfin. injection Hfin as <-. apply changes_recorded_refl. }
    destruct (state_eqb (state g) MGS_Active) eqn:Hs.
    + apply (Open_records_changes begin_pos fuel (row * columns g + column) g g');
        [| exact Hfin].
      destruct (state g); simpl in Hs; congruence.
    + unfold Open in Hfin. rewrite OnOpen_game_over in Hfin.
      * injection Hfin as <-. apply changes_recorded_refl.
      * intros Heq. rewrite Heq in Hs. discriminate.
  - assert (Hs : state g = MGS_Active) by (destruct (state g); simpl in Hc; congruence).
    unfold bind at 1 in Hfin. rewrite (Cell_eq g row column Hwf) in Hfin.
    destruct ((row <? rows g) && (column <? columns g)) eqn:Hin.
    2:{ simpl in Hfin. injection Hfin as <-. apply changes_recorded_refl. }
    set (index := row * columns g + column) in *.
    assert (Hindex : index < cells_size g).
    { apply andb_true_iff in Hin. destruct Hin as [Hrow Hcol].
      apply N.ltb_lt in Hrow, Hcol. destruct Hwf as [_ _ Hsize _ _].
      unfold index. rewrite Hsize. nia. }
    destruct (cellAt_lt g index Hindex) as (cell & Hcell & _).
    destruct (isOpened cell) eqn:Ho.
    + unfold SetLabel in Hfin.
      rewrite (bind_Ret _ _ _ _ _ (cellAt_Some _ _ _ Hcell)) in Hfin.
      unfold IsOpened in Hfin. rewrite Ho in Hfin. simpl in Hfin.
      unfold bind, internal_check in Hfin. simpl in Hfin.
      injection Hfin as <-. apply changes_recorded_refl.
    + destruct (SetLabel_records_changes index newLabel g cell Hs Hcell Ho)
        as (g1 & Hrun & Hrec).
      rewrite Hrun in Hfin. injection Hfin as <-. exact Hrec.
Qed.

Lemma play_records_changes begin_pos cs : forall g g',
  wf g -> calls_recorded begin_pos cs g = true ->
  play begin_pos cs g = Some g' -> changes_recorded g g'.
Proof.
  induction cs as [| c cs IH]; intros g g' Hwf Hcs Hplay; simpl in *.
  - injection Hplay as <-. apply changes_recorded_refl.
  - apply andb_true_iff in Hcs. destruct Hcs as [Hc Hcs].
    destruct (final_state (perform begin_pos c g)) as [g1 |] eqn:Hfin; [| discriminate].
    apply (changes_recorded_trans g g1 g').
    + now apply (perform_records_changes begin_pos c).
    + apply IH; [| exact Hcs | exact Hplay].
      eapply preserves_final_state; [apply wf_perform | exact Hwf | exact Hfin].
Qed.

(** From any game the code can reach, after calls of [Open], [RestartGame]
    and [SetLabel], the latter on a game that is active, that came back (by
    return or by exception): [ModifiedCells] returns the coordinate of every
    cell that is not what it was before those calls, and of every index
    that was recorded before them; no coordinate comes twice, every pair
    returned is the coordinate of a recorded index of the grid, and the set
    is emptied. *)
Theorem ModifiedCells_returns_changes begin_pos g0 cs g :
  reachable begin_pos g0 ->
  calls_recorded begin_pos cs g0 = true ->
  play begin_pos cs g0 = Some g ->
  exists result,
    ModifiedCells g = Ret result (with_modifiedCellIndices [] g) /\
    NoDup result /\
    (forall j c c', cells g0 !! j = Some c -> cells g !! j = Some c' -> c' <> c ->
       (N.of_nat j / columns g, N.of_nat j mod columns g) ∈ result) /\
    (forall i, i ∈ modifiedCellIndices g0 -> (i / columns g, i mod columns g) ∈ result) /\
    (forall row column, (row, column) ∈ result ->
       row < rows g /\ column < columns g /\
       row * columns g + column ∈ modifiedCellIndices g).
Proof.
  intros Hreach0 Hcs Hplay.
  pose proof (reachable_wf begin_pos g0 Hreach0) as Hwf0.
  pose proof (play_records_changes begin_pos cs g0 g Hwf0 Hcs Hplay) as (_ & Hsub & Hrec).
  pose proof (reachable_play begin_pos cs g0 g Hreach0 Hplay) as Hreach.
  pose proof (reachable_wf begin_pos g Hreach) as [Hr Hc Hs Hm Hn].
  assert (Hc0 : columns g <> 0) by lia.
  rewrite Forall_forall in Hm.
  assert (Hin : forall i, i ∈ modifiedCellIndices g ->
            (i / columns g, i mod columns g)
              ∈ map (fun i => (i / columns g, i mod columns g)) (modifiedCellIndices g)).
  { intros i Hi. apply list_elem_of_fmap. now exists i. }
  eexists. split; [apply ModifiedCells_eq, Hc0 |]. split_and!.
  - apply NoDup_fmap_2_strong; [| assumption].
    intros i j Hi Hj Heq. apply (coordinates_inj (columns g)); assumption.
  - intros j c c' Hj Hj' Hne. apply Hin. now apply (Hrec j c c').
  - intros i Hi. apply Hin, Hsub, Hi.
  - intros row column H.
    apply list_elem_of_fmap in H. destruct H as (i & [= -> ->] & Hi).
    pose proof (Hm i Hi) as Hlt. rewrite Hs in Hlt. split_and!.
    + apply N.Div0.div_lt_upper_bound. lia.
    + now apply N.mod_lt.
    + pose proof (N.Div0.div_mod i (columns g)). 
      replace (i / columns g * columns g + i mod columns g) with i by lia. exact Hi.
Qed.

(** At the striped game: a question mark set on (4, 4) and on (4, 5). *)
Lemma ModifiedCells_returns_changes_witness :
  exists result,
    ModifiedCells question_game = Ret result (with_modifiedCellIndices [] question_game) /\
    NoDup result /\
    (forall j c c', cells striped_game !! j = Some c -> cells question_game !! j = Some c' ->
       c' <> c ->
       (N.of_nat j / columns question_game, N.of_nat j mod columns question_game) ∈ result) /\
    (forall i, i ∈ modifiedCellIndices striped_game ->
       (i / columns question_game, i mod columns question_game) ∈ result) /\
    (forall row column, (row, column) ∈ result ->
       row < rows question_game /\ column < columns question_game /\
       row * columns question_game + column ∈ modifiedCellIndices question_game).
Proof.
  apply (ModifiedCells_returns_changes begin_first striped_game question_calls question_game).
  - apply reachable_striped_game.
  - vm_compute. reflexivity.
  - vm_compute. reflexivity.
Defined.
